(** * The dynamic SQL tool layer of the CRUD agent (tools.js)

    A shallow embedding of [Ai-Agent CRUD/tools.js]: the name validator and
    the seven exported operations, together with the small part of the
    JavaScript runtime they rely on (JSON values, truthiness, string
    conversion, property enumeration, a backtracking matcher for the one
    regular expression of the file).

    The connection pool of [db/index.js] is an interface: a statement goes in,
    rows or a store error come out.  Every operation is run against an
    arbitrary implementation of that interface, and the statements it issues
    are recorded in order. *)

From Stdlib Require Import ZArith Ascii String List Bool Lia.
From stdpp Require Import base tactics option list strings pretty gmap.

Set Warnings "-register-all".

Local Open Scope string_scope.
Local Open Scope list_scope.

(** ** JSON values

    The operations receive the [input] object of an action, which
    [index.js] obtains from [JSON.parse]; absent properties read as
    [undefined].  Numbers are restricted to those an integer literal
    denotes: [VNum n] is the double nearest to [n], which is [n] itself up
    to 2^53 and an infinity when [n] is out of range; fractions and NaN have
    no counterpart.  Strings are sequences of 8-bit code units.
    The property list of an object is kept in the order in which
    [Object.keys] enumerates it, and names each key once. *)

Inductive value : Type :=
| VUndefined
| VNull
| VBool (b : bool)
| VNum (n : Z)
| VStr (s : string)
| VArr (elems : list value)
| VObj (props : list (string * value)).

(** What the language runtime raises on its own. *)
Inductive type_error : Type :=
| CannotDestructure          (* destructuring null or undefined *)
| CannotReadProperty (k : string)   (* property read on null or undefined *)
| CannotConvertToObject      (* Object.keys / values / entries of null or undefined *)
| CannotConvertToPrimitive   (* string conversion of an object without usable toString *)
| NotAFunction (k : string)  (* calling a property that is not callable *)
| NotIterable.               (* for-of over a value without an iterator *)

(** Everything a [catch] clause of the file can receive. *)
Inductive exn : Type :=
| Error (message : string)       (* [throw new Error(message)] in tools.js *)
| TypeError (why : type_error)   (* raised by the runtime *)
| StoreError (message : string). (* rejection of [pool.query] *)

Definition res (A : Type) : Type := exn + A.

Definition res_bind {A B} (m : res A) (k : A -> res B) : res B :=
  match m with
  | inl e => inl e
  | inr a => k a
  end.

(** The double quote and the line feed, which occur in message and query
    texts. *)
Definition dq : string := String "034"%char EmptyString.
Definition nl : string := String "010"%char EmptyString.

(** *** Truthiness, [typeof], [Array.isArray] *)

Definition truthy (v : value) : bool :=
  match v with
  | VUndefined | VNull => false
  | VBool b => b
  | VNum n => negb (n =? 0)%Z
  | VStr s => negb (String.eqb s "")
  | VArr _ | VObj _ => true
  end.

Definition isArray (v : value) : bool :=
  match v with VArr _ => true | _ => false end.

(** [typeof v === "object" && v !== null] *)
Definition is_non_null_object (v : value) : bool :=
  match v with VArr _ | VObj _ => true | _ => false end.

(** [typeof v === "string"] *)
Definition is_string (v : value) : bool :=
  match v with VStr _ => true | _ => false end.

(** [v === s] for a string literal [s]: strict equality never converts. *)
Definition strict_eq_str (v : value) (s : string) : bool :=
  match v with VStr t => String.eqb t s | _ => false end.

(** *** Own properties *)

Fixpoint lookup_prop (k : string) (ps : list (string * value)) : option value :=
  match ps with
  | [] => None
  | (k', v) :: ps' => if String.eqb k' k then Some v else lookup_prop k ps'
  end.

Definition has_prop (k : string) (ps : list (string * value)) : bool :=
  match lookup_prop k ps with Some _ => true | None => false end.

(** Array indices as property names, from [i] on. *)
Fixpoint index_entries {A} (i : nat) (xs : list A) : list (string * A) :=
  match xs with
  | [] => []
  | x :: xs' => (pretty i, x) :: index_entries (S i) xs'
  end.

Fixpoint chars (s : string) : list value :=
  match s with
  | EmptyString => []
  | String c s' => VStr (String c EmptyString) :: chars s'
  end.

(** [Object.entries(v)]: own enumerable string-keyed properties.  Primitive
    numbers and booleans have none, a string has its indices. *)
Definition entries (v : value) : res (list (string * value)) :=
  match v with
  | VUndefined | VNull => inl (TypeError CannotConvertToObject)
  | VBool _ | VNum _ => inr []
  | VStr s => inr (index_entries 0 (chars s))
  | VArr xs => inr (index_entries 0 xs)
  | VObj ps => inr ps
  end.

(** [Object.keys(v)] and [Object.values(v)] *)
Definition keys (v : value) : res (list string) :=
  res_bind (entries v) (fun es => inr (map fst es)).

Definition values (v : value) : res (list value) :=
  res_bind (entries v) (fun es => inr (map snd es)).

(** [v.k] for the property names the file reads from its inputs and from
    result rows ([name], [type], [primaryKey], [id], [data], [column],
    [constraint], [length], [exists], [column_name], ...).  None of them is
    inherited from a prototype, except [length] of strings and arrays. *)
Definition get (v : value) (k : string) : res value :=
  match v with
  | VUndefined | VNull => inl (TypeError (CannotReadProperty k))
  | VBool _ | VNum _ => inr VUndefined
  | VStr s =>
      if String.eqb k "length" then inr (VNum (Z.of_nat (String.length s)))
      else inr VUndefined
  | VArr xs =>
      if String.eqb k "length" then inr (VNum (Z.of_nat (length xs)))
      else inr VUndefined
  | VObj ps =>
      match lookup_prop k ps with
      | Some x => inr x
      | None => inr VUndefined
      end
  end.

(** One property of a destructuring pattern [{ k }]; the pattern as a whole
    refuses null and undefined. *)
Definition field (v : value) (k : string) : res value :=
  match v with
  | VUndefined | VNull => inl (TypeError CannotDestructure)
  | _ => get v k
  end.

(** A destructured property with a default, [{ k = d }]. *)
Definition field_default (v : value) (k : string) (d : value) : res value :=
  res_bind (field v k)
    (fun x => inr (match x with VUndefined => d | _ => x end)).

(** [k in v] for an operator name [k] (none is inherited). *)
Definition has_property (k : string) (v : value) : bool :=
  match v with
  | VObj ps => has_prop k ps
  | _ => false
  end.

(** *** Property order

    The property list of an object does not follow the order in which its
    members were written down (in an object literal, or in the JSON text
    that [JSON.parse] reads): the keys that are array indices, the decimal
    forms of 0 to 2^32 - 2, come first, in ascending order, and the other
    keys follow in the order in which they were first written; a key
    written again keeps its place and takes the later value. *)

(** The number a string of decimal digits stands for. *)
Fixpoint digits_value (s : string) (acc : N) : option N :=
  match s with
  | EmptyString => Some acc
  | String c s' =>
      let n := N_of_ascii c in
      if ((48 <=? n) && (n <=? 57))%N
      then digits_value s' (acc * 10 + (n - 48))%N
      else None
  end.

Definition array_index (k : string) : option N :=
  match k with
  | EmptyString => None
  | _ =>
      match digits_value k 0 with
      | Some n =>
          if String.eqb (pretty n) k && (n <=? 4294967294)%N then Some n
          else None
      | None => None
      end
  end.

(** [o[k] = v] on the property list of [o]. *)
Fixpoint set_prop (k : string) (v : value) (ps : list (string * value))
  : list (string * value) :=
  match ps with
  | [] => [(k, v)]
  | (k', v') :: ps' =>
      if String.eqb k' k then (k, v) :: ps' else (k', v') :: set_prop k v ps'
  end.

(** An index key goes before the first greater one. *)
Fixpoint insert_index (n : N) (p : string * value)
  (ps : list (N * (string * value))) : list (N * (string * value)) :=
  match ps with
  | [] => [(n, p)]
  | (m, q) :: ps' =>
      if (n <? m)%N then (n, p) :: (m, q) :: ps'
      else (m, q) :: insert_index n p ps'
  end.

(** The property list of the object whose members are written in the order
    [members]. *)
Definition declared (members : list (string * value))
  : list (string * value) :=
  let ps := fold_left (fun ps m => set_prop (fst m) (snd m) ps) members [] in
  map snd
    (fold_left (fun acc p =>
                  match array_index (fst p) with
                  | Some n => insert_index n p acc
                  | None => acc
                  end) ps [])
  ++ List.filter (fun p => match array_index (fst p) with
                           | Some _ => false
                           | None => true
                           end) ps.

(** *** Numbers as strings

    An integer literal reads as the double nearest to it, ties going to the
    even significand of 53 bits; from 2^1024 - 2^970 on it reads as
    [Infinity].  The string of a finite double has the fewest decimal
    digits that read back as the same double and, among those, the ones
    closest to it; the digits are written out in full below 10^21 and in
    exponent notation from there on. *)

Definition overflow_threshold : Z := (2 ^ 1024 - 2 ^ 970)%Z.

Definition round_to_double (x : Z) : Z :=
  let bits := (Z.log2 x + 1)%Z in
  if (bits <=? 53)%Z then x
  else
    let shift := (bits - 53)%Z in
    let q := Z.shiftr x shift in
    let r := (x - Z.shiftl q shift)%Z in
    let half := Z.shiftl 1 (shift - 1) in
    let q' := if (r <? half)%Z then q
              else if (half <? r)%Z then (q + 1)%Z
              else if Z.even q then q else (q + 1)%Z in
    Z.shiftl q' shift.

(** The finite double that the positive integer [x] reads as, if any. *)
Definition nearest_double (x : Z) : option Z :=
  if (overflow_threshold <=? x)%Z then None else Some (round_to_double x).

Definition reads_as (m y : Z) : bool :=
  match nearest_double y with
  | Some m' => (m' =? m)%Z
  | None => false
  end.

(** The integer with the fewest significant digits that reads as the double
    [m]: the multiples of 10^j next to [m] are tried for j, j-1, ..., 0. *)
Fixpoint shortest_digits (m : Z) (j : nat) : Z :=
  let p := (10 ^ Z.of_nat j)%Z in
  let lo := (m / p * p)%Z in
  let hi := (lo + p)%Z in
  match reads_as m lo, reads_as m hi with
  | true, true =>
      if (m - lo <? hi - m)%Z then lo
      else if (hi - m <? m - lo)%Z then hi
      else if Z.even (m / p) then lo else hi
  | true, false => lo
  | false, true => hi
  | false, false =>
      match j with
      | O => m
      | S j' => shortest_digits m j'
      end
  end.

Fixpoint without_trailing_zeros (fuel : nat) (y : Z) : Z :=
  match fuel with
  | O => y
  | S fuel' =>
      if ((y mod 10 =? 0) && (0 <? y))%Z
      then without_trailing_zeros fuel' (y / 10)
      else y
  end.

(** [String(x)] for an integer literal [x > 0]. *)
Definition positive_to_string (x : Z) : string :=
  match nearest_double x with
  | None => "Infinity"
  | Some m =>
      let y := shortest_digits m (String.length (pretty m)) in
      if (y <? 10 ^ 21)%Z then pretty y
      else
        let n := String.length (pretty y) in
        match pretty (without_trailing_zeros n y) with
        | String d EmptyString => String d ("e+" +:+ pretty (n - 1)%nat)
        | String d rest =>
            String d ("." +:+ rest +:+ "e+" +:+ pretty (n - 1)%nat)
        | EmptyString => EmptyString
        end
  end.

Definition number_to_string (n : Z) : string :=
  match n with
  | Z0 => "0"
  | Zpos _ => positive_to_string n
  | Zneg p => "-" +:+ positive_to_string (Zpos p)
  end.

(** *** String conversion

    [`${v}`] and the argument conversion of [RegExp.prototype.test].  A plain
    object prints as [[object Object]] through [Object.prototype.toString];
    an own property named [toString] shadows that method, is not callable
    (no JSON value is), and the conversion raises.  An array joins its
    elements with commas, null and undefined printing as nothing. *)
Fixpoint to_string (v : value) : option string :=
  match v with
  | VUndefined => Some "undefined"
  | VNull => Some "null"
  | VBool b => Some (if b then "true" else "false")
  | VNum n => Some (number_to_string n)
  | VStr s => Some s
  | VArr xs =>
      option_map (String.concat ",")
        ((fix items (l : list value) : option (list string) :=
            match l with
            | [] => Some []
            | x :: l' =>
                match (match x with
                       | VUndefined | VNull => Some ""
                       | _ => to_string x
                       end) with
                | None => None
                | Some s =>
                    match items l' with
                    | None => None
                    | Some ss => Some (s :: ss)
                    end
                end
            end) xs)
  | VObj ps =>
      if has_prop "toString" ps then None else Some "[object Object]"
  end.

(** A template-literal hole. *)
Definition template (v : value) : res string :=
  match to_string v with
  | Some s => inr s
  | None => inl (TypeError CannotConvertToPrimitive)
  end.

(** [s.toUpperCase()] on the ASCII letters. *)
Definition upper_char (c : ascii) : ascii :=
  let n := N_of_ascii c in
  if ((97 <=? n) && (n <=? 122))%N then ascii_of_N (n - 32) else c.

Fixpoint toUpperCase (s : string) : string :=
  match s with
  | EmptyString => EmptyString
  | String c s' => String (upper_char c) (toUpperCase s')
  end.

(** [v.toUpperCase()]: only strings have the method. *)
Definition call_toUpperCase (v : value) : res string :=
  match v with
  | VUndefined | VNull => inl (TypeError (CannotReadProperty "toUpperCase"))
  | VStr s => inr (toUpperCase s)
  | _ => inl (TypeError (NotAFunction "toUpperCase"))
  end.

(** ** The regular expression of [validateName]

    A backtracking matcher in the style of the language definition, for the
    fragment the file uses: the two anchors, a character class, and a greedy
    starred character class.  A position is the number of code units already
    consumed and the rest of the input. *)

Definition char_class : Type := list (ascii * ascii).

Definition in_class (cc : char_class) (c : ascii) : bool :=
  existsb (fun r => (N_of_ascii (fst r) <=? N_of_ascii c)%N
                    && (N_of_ascii c <=? N_of_ascii (snd r))%N) cc.

Inductive term : Type :=
| AssertStart                 (* ^ *)
| AssertEnd                   (* $ *)
| Class (cc : char_class)     (* [...] *)
| ClassStar (cc : char_class) (* [...]* *).

Definition pattern : Type := list term.

(** Greedy star: take one more code unit if it is in the class, and only
    when the rest of the pattern then fails give it back. *)
Fixpoint match_star (cc : char_class) (k : nat -> string -> bool)
  (i : nat) (s : string) : bool :=
  match s with
  | String c s' =>
      if in_class cc c then match_star cc k (S i) s' || k i s else k i s
  | EmptyString => k i s
  end.

Fixpoint match_terms (p : pattern) (i : nat) (s : string) : bool :=
  match p with
  | [] => true
  | AssertStart :: p' => Nat.eqb i 0 && match_terms p' i s
  | AssertEnd :: p' =>
      match s with
      | EmptyString => match_terms p' i s
      | String _ _ => false
      end
  | Class cc :: p' =>
      match s with
      | String c s' => in_class cc c && match_terms p' (S i) s'
      | EmptyString => false
      end
  | ClassStar cc :: p' => match_star cc (match_terms p') i s
  end.

(** The search loop of [exec]: try the current index, then the next. *)
Fixpoint regex_exec (p : pattern) (i : nat) (s : string) : bool :=
  match_terms p i s
  || match s with
     | String _ s' => regex_exec p (S i) s'
     | EmptyString => false
     end.

Definition regex_test (p : pattern) (s : string) : bool := regex_exec p 0 s.

(** [/^[a-zA-Z_][a-zA-Z0-9_]*$/] *)
Definition name_pattern : pattern :=
  [ AssertStart;
    Class [("a", "z"); ("A", "Z"); ("_", "_")]%char;
    ClassStar [("a", "z"); ("A", "Z"); ("0", "9"); ("_", "_")]%char;
    AssertEnd ].

(** ** validateName *)

Definition validateName (name : value) : res unit :=
  res_bind (template name) (fun s =>
    if regex_test name_pattern s then inr tt
    else inl (Error ("Invalid table/schema name: " +:+ s))).

(** ** The identifier grammar, in the words of the specification *)

Definition is_letter (c : ascii) : Prop :=
  (97 <= N_of_ascii c <= 122)%N \/ (65 <= N_of_ascii c <= 90)%N.

Definition is_digit (c : ascii) : Prop := (48 <= N_of_ascii c <= 57)%N.

Definition ident_start (c : ascii) : Prop := is_letter c \/ c = "_"%char.

Definition ident_part (c : ascii) : Prop :=
  is_letter c \/ is_digit c \/ c = "_"%char.

Fixpoint all_chars (P : ascii -> Prop) (s : string) : Prop :=
  match s with
  | EmptyString => True
  | String c s' => P c /\ all_chars P s'
  end.

(** [s] matches [^[A-Za-z_][A-Za-z0-9_]*$]: a letter or an underscore,
    followed by letters, digits and underscores. *)
Definition is_identifier (s : string) : Prop :=
  match s with
  | EmptyString => False
  | String c s' => ident_start c /\ all_chars ident_part s'
  end.

(** ** The host: connection pool and language runtime *)

(** A call [pool.query(text, params)]. *)
Record statement : Type := Statement { sql : string; params : list value }.

(** The pool of [db/index.js]: it answers a statement with rows, or rejects
    with a store error of which only the message text is observed. *)
Class Pool : Type := {
  DB : Type;
  exec : statement -> DB -> (string + list value) * DB
}.

(** What the runtime decides and the file does not: the message text of the
    errors it raises, and the numeric comparison [v > 0] where [v] is a
    string, an array or an object (it converts [v] to a number first, and
    that conversion can raise). *)
Class Engine : Type := {
  engine_message : type_error -> string;
  converted_gt_zero : value -> res bool
}.

(** The result object of an operation. *)
Inductive envelope : Type :=
| SuccessMessage (message : string)      (* { success: true, message } *)
| SuccessData (data : list value)        (* { success: true, data } *)
| SuccessColumns (columns : list value)  (* { success: true, columns } *)
| Failure (message : string).            (* { success: false, message } *)

Definition success (e : envelope) : bool :=
  match e with Failure _ => false | _ => true end.

(** [v > 0] *)
Definition gt_zero `{Engine} (v : value) : res bool :=
  match v with
  | VNum n => inr (0 <? n)%Z
  | VUndefined | VNull => inr false
  | VBool b => inr b
  | VStr _ | VArr _ | VObj _ => converted_gt_zero v
  end.

(** [error.message] *)
Definition message_of `{Engine} (e : exn) : string :=
  match e with
  | Error m => m
  | TypeError t => engine_message t
  | StoreError m => m
  end.

(** *** Computations that may raise and may talk to the pool *)

Record World `{Pool} : Type := { store : DB; issued : list statement }.

(** How a computation stops when it does not return.  Either it raises an
    exception, which the enclosing [catch] clause receives and which
    otherwise rejects the promise of the operation; or the process exits:
    that is what the runtime does when a promise is rejected that no handler
    has been attached to, and no [catch] clause runs after it. *)
Inductive stop : Type :=
| Raise (e : exn)
| Exit (reason : exn).

(** An exception written where an outcome is expected stands for that
    exception being raised. *)
Coercion Raise : exn >-> stop.

#[local] Arguments pair {A B} & _ _.
#[local] Arguments inl {A B} & _.

Definition M `{Pool} (A : Type) : Type := World -> (stop + A) * World.

Definition ret `{Pool} {A} (a : A) : M A := fun w => (inr a, w).

Definition throw `{Pool} {A} (e : exn) : M A := fun w => (inl (Raise e), w).

Definition bind `{Pool} {A B} (m : M A) (k : A -> M B) : M B :=
  fun w =>
    match m w with
    | (inl e, w') => (inl e, w')
    | (inr a, w') => k a w'
    end.

Definition lift `{Pool} {A} (r : res A) : M A :=
  fun w =>
    (match r with
     | inl e => inl (Raise e)
     | inr a => inr a
     end, w).

(** [try { body } catch (error) { handler }] *)
Definition try_catch `{Pool} {A} (body : M A) (handler : exn -> M A) : M A :=
  fun w =>
    match body w with
    | (inl (Raise e), w') => handler e w'
    | (inl (Exit reason), w') => (inl (Exit reason), w')
    | (inr a, w') => (inr a, w')
    end.

(** [pool.query(text, params)], not yet awaited: the statement is handed to
    the store at once and the settled promise is kept. *)
Definition query_promise `{Pool} (q : string) (ps : list value)
  : M (res (list value)) :=
  fun w =>
    let '(r, d) := exec (Statement q ps) (store w) in
    (inr (match r with
          | inl m => inl (StoreError m)
          | inr rows => inr rows
          end),
     {| store := d; issued := issued w ++ [Statement q ps] |}).

(** [await pool.query(text, params)] *)
Definition pool_query `{Pool} (q : string) (ps : list value)
  : M (list value) :=
  bind (query_promise q ps) lift.

Notation "'let?' x ':=' c1 'in' c2" := (res_bind c1 (fun x => c2))
  (at level 10, x name, c1 at level 100, c2 at level 200).
Notation "'let*' x ':=' c1 'in' c2" := (bind c1 (fun x => c2))
  (at level 10, x name, c1 at level 100, c2 at level 200).

(** [xs.map(f)], [xs.filter(f)], [xs.forEach(f)] with a callback that may
    raise: the first exception ends the traversal. *)
Fixpoint res_map {A B} (f : A -> res B) (xs : list A) : res (list B) :=
  match xs with
  | [] => inr []
  | x :: xs' =>
      let? y := f x in
      let? ys := res_map f xs' in
      inr (y :: ys)
  end.

Fixpoint res_filter {A} (f : A -> res bool) (xs : list A) : res (list A) :=
  match xs with
  | [] => inr []
  | x :: xs' =>
      let? b := f x in
      let? ys := res_filter f xs' in
      inr (if b then x :: ys else ys)
  end.

Fixpoint res_fold {A S} (f : S -> A -> res S) (s : S) (xs : list A) : res S :=
  match xs with
  | [] => inr s
  | x :: xs' =>
      let? s' := f s x in
      res_fold f s' xs'
  end.

Fixpoint for_each `{Pool} {A B} (f : A -> M B) (xs : list A) : M (list B) :=
  match xs with
  | [] => ret []
  | x :: xs' =>
      let* y := f x in
      let* ys := for_each f xs' in
      ret (y :: ys)
  end.

(** The computation never ends the process. *)
Definition no_exit `{Pool} {A} (m : M A) : Prop :=
  forall w reason w', m w <> (inl (Exit reason), w').

Section Operations.
Context {pool : Pool} {engine : Engine}.

(** ** createDynamicTable *)

Definition defaultColumns : list value :=
  [ VObj [("name", VStr "id"); ("type", VStr "integer");
          ("primaryKey", VBool true)];
    VObj [("name", VStr "created_at"); ("type", VStr "timestamp")];
    VObj [("name", VStr "updated_at"); ("type", VStr "timestamp")] ].

(** [defaultColumns.some((defaultCol) => defaultCol.name === name)] *)
Definition is_default_name (name : value) : bool :=
  existsb (fun defaultCol =>
             match get defaultCol "name" with
             | inr (VStr s) => strict_eq_str name s
             | _ => false
             end) defaultColumns.

(** [[...defaultColumns, ...columns.filter(...)]] *)
Definition allColumns (columns : list value) : res (list value) :=
  let? kept := res_filter (fun col =>
                  let? name := get col "name" in
                  inr (negb (is_default_name name))) columns in
  inr (defaultColumns ++ kept).

(** The callback of [allColumns.map]: the [switch] on [col.type]. *)
Definition columnDefinition (col : value) : res string :=
  let? type := get col "type" in
  if strict_eq_str type "integer" then
    let? name := get col "name" in
    let? n := template name in
    let? primaryKey := get col "primaryKey" in
    inr (n +:+ " SERIAL" +:+ (if truthy primaryKey then " PRIMARY KEY" else ""))
  else if strict_eq_str type "text" then
    let? name := get col "name" in
    let? n := template name in
    inr (n +:+ " TEXT NOT NULL")
  else if strict_eq_str type "timestamp" then
    let? name := get col "name" in
    let? n := template name in
    inr (n +:+ " TIMESTAMPTZ DEFAULT NOW()")
  else if strict_eq_str type "boolean" then
    let? name := get col "name" in
    let? n := template name in
    inr (n +:+ " BOOLEAN DEFAULT FALSE")
  else if strict_eq_str type "decimal" then
    let? name := get col "name" in
    let? n := template name in
    inr (n +:+ " DECIMAL(10,2)")
  else
    let? t := template type in
    inl (Error ("Unsupported column type: " +:+ t)).

Definition columns_error : exn :=
  Error ("The " +:+ dq +:+ "columns" +:+ dq
         +:+ " parameter must be a non-empty array.").

(** The [try] block of [createDynamicTable]. *)
Definition createDynamicTable_body (schemaName columns : value) : M envelope :=
  let* _ := lift (validateName schemaName) in
  match columns with
  | VArr (c :: cs) =>
      let* all := lift (allColumns (c :: cs)) in
      let* defs := lift (res_map columnDefinition all) in
      let columnDefinitions := String.concat ", " defs in
      let* s := lift (template schemaName) in
      let* _ := pool_query
                  ("CREATE TABLE IF NOT EXISTS " +:+ s +:+ " ("
                   +:+ columnDefinitions +:+ ")") [] in
      ret (SuccessMessage (s +:+ " table created successfully."))
  | _ => throw columns_error
  end.

Definition createDynamicTable (arg : value) : M envelope :=
  let* schemaName := lift (field arg "schemaName") in
  let* columns := lift (field arg "columns") in
  try_catch (createDynamicTable_body schemaName columns)
    (fun error =>
       let* s := lift (template schemaName) in
       ret (Failure ("Failed to create " +:+ s +:+ " table."))).

(** ** checkTableExists and getTableColumns *)

Definition checkTableExists_sql : string :=
  nl +:+ "    SELECT EXISTS (" +:+ nl
  +:+ "      SELECT 1 " +:+ nl
  +:+ "      FROM information_schema.tables " +:+ nl
  +:+ "      WHERE table_name = $1" +:+ nl
  +:+ "    ) AS exists;" +:+ nl +:+ "  ".

Definition checkTableExists (tableName : value) : M value :=
  try_catch
    (let* rows := pool_query checkTableExists_sql [tableName] in
     lift (get (nth 0 rows VUndefined) "exists"))
    (fun error =>
       (* console.error(`Error checking if table ${tableName} exists:`, error) *)
       let* _ := lift (template tableName) in
       throw (Error ("Error checking table existence: "
                     +:+ message_of error))).

Definition getTableColumns_sql : string :=
  nl +:+ "      SELECT column_name, data_type, is_nullable " +:+ nl
  +:+ "      FROM information_schema.columns " +:+ nl
  +:+ "      WHERE table_name = $1;" +:+ nl +:+ "    ".

(** The callback of [res.rows.map] *)
Definition column_of_row (row : value) : res value :=
  let? name := get row "column_name" in
  let? type := get row "data_type" in
  let? is_nullable := get row "is_nullable" in
  inr (VObj [("name", name); ("type", type);
             ("nullable", VBool (strict_eq_str is_nullable "YES"))]).

Definition getTableColumns (arg : value) : M envelope :=
  let* tableName := lift (field arg "tableName") in
  try_catch
    (let* tableExists := checkTableExists tableName in
     if negb (truthy tableExists) then
       let* s := lift (template tableName) in
       ret (Failure ("Table '" +:+ s +:+ "' does not exist."))
     else
       let* rows := pool_query getTableColumns_sql [tableName] in
       let* columns := lift (res_map column_of_row rows) in
       ret (SuccessColumns columns))
    (fun error =>
       (* console.error(`Error fetching columns for table ${tableName}:`, error) *)
       let* _ := lift (template tableName) in
       ret (Failure ("Error fetching columns: " +:+ message_of error))).

(** ** addDataToTable *)

(** [`$${i * columns.length + j + 1}`] *)
Definition placeholder (n : nat) : string := "$" +:+ pretty n.

(** The placeholder tuples, one per row. *)
Definition insert_placeholders {A B} (data : list A) (columns : list B)
  : string :=
  String.concat ", "
    (imap (fun i _ =>
             "(" +:+ String.concat ", "
                      (imap (fun j _ =>
                               placeholder (i * length columns + j + 1))
                            columns)
             +:+ ")")
          data).

(** The [try] block of [addDataToTable]. *)
Definition addDataToTable_body (tableName data : value) : M envelope :=
  let* _ := lift (validateName tableName) in
  if negb (truthy data)
     || match data with VArr [] => true | _ => false end
  then throw (Error "No data provided.")
  else
    let rows := match data with VArr xs => xs | _ => [data] end in
    let* columns := lift (keys (nth 0 rows VUndefined)) in
    let placeholders := insert_placeholders rows columns in
    let* vss := lift (res_map values rows) in
    let vals := concat vss in
    let* t := lift (template tableName) in
    let insertQuery :=
      "INSERT INTO " +:+ t +:+ " (" +:+ String.concat ", " columns
      +:+ ") VALUES " +:+ placeholders +:+ " RETURNING *" in
    let* result := pool_query insertQuery vals in
    ret (SuccessData result).

Definition addDataToTable (arg : value) : M envelope :=
  let* tableName := lift (field arg "tableName") in
  let* data := lift (field arg "data") in
  try_catch (addDataToTable_body tableName data)
    (fun error => ret (Failure "Failed to add data.")).

(** ** updateDataInTable *)

Definition update_error : exn :=
  Error ("Each update must have an " +:+ dq +:+ "id" +:+ dq
         +:+ " and non-empty " +:+ dq +:+ "data" +:+ dq +:+ ".").

Definition schema_change_error : exn :=
  Error ("Each schema change must have a " +:+ dq +:+ "column" +:+ dq
         +:+ " and either " +:+ dq +:+ "type" +:+ dq +:+ " or "
         +:+ dq +:+ "constraint" +:+ dq +:+ ".").

(** [Object.entries(data).map(([key, _], i) => `${key} = $${i + 1}`).join(", ")] *)
Definition setQuery (es : list (string * value)) : string :=
  String.concat ", "
    (imap (fun i e => fst e +:+ " = " +:+ placeholder (i + 1)) es).

(** The statement of one entry of [updates], up to the call of
    [pool.query]. *)
Definition update_statement (tableName id data : value) : res statement :=
  if negb (truthy id) || negb (truthy data) then inl update_error
  else
    let? ks := keys data in
    if Nat.eqb (length ks) 0 then inl update_error
    else
      let? es := entries data in
      let? vs := values data in
      let vals := vs ++ [id] in
      let? t := template tableName in
      (* console.log(`Updating ${tableName} - ID: ${id}, Data:`, data) *)
      let? _ := template id in
      inr (Statement
             ("UPDATE " +:+ t +:+ " SET " +:+ setQuery es
              +:+ ", updated_at = NOW() WHERE id = "
              +:+ placeholder (length vals) +:+ " RETURNING *")
             vals).

(** The callback of [updates.forEach]: the promise of the entry's query. *)
Definition update_entry (tableName entry : value) : M (res (list value)) :=
  let* id := lift (field entry "id") in
  let* data := lift (field entry "data") in
  let* st := lift (update_statement tableName id data) in
  query_promise (sql st) (params st).

(** The statements of the [switch] on [constraint.toUpperCase()]. *)
Definition constraint_queries (t c : string) (constraint : value)
  : res (list string) :=
  let constraintName := t +:+ "_" +:+ c +:+ "_constraint" in
  let? upper := call_toUpperCase constraint in
  if String.eqb upper "UNIQUE" then
    inr [ "ALTER TABLE " +:+ t +:+ " DROP CONSTRAINT IF EXISTS "
          +:+ constraintName;
          "ALTER TABLE " +:+ t +:+ " ADD CONSTRAINT " +:+ constraintName
          +:+ " UNIQUE (" +:+ c +:+ ")" ]
  else if String.eqb upper "NOT NULL" then
    inr [ "ALTER TABLE " +:+ t +:+ " ALTER COLUMN " +:+ c +:+ " SET NOT NULL" ]
  else if String.eqb upper "NULL" then
    inr [ "ALTER TABLE " +:+ t +:+ " ALTER COLUMN " +:+ c +:+ " DROP NOT NULL" ]
  else
    let? s := template constraint in
    inl (Error ("Unsupported constraint: " +:+ s)).

(** [alterQueries] of one schema change request. *)
Definition alterQueries (tableName change : value) : res (list string) :=
  let? column := field change "column" in
  let? type := field change "type" in
  let? constraint := field change "constraint" in
  if negb (truthy column) || (negb (truthy type) && negb (truthy constraint))
  then inl schema_change_error
  else
    let? t := template tableName in
    let? c := template column in
    let? typeQueries :=
      if truthy type then
        let? ty := template type in
        inr [ "ALTER TABLE " +:+ t +:+ " ALTER COLUMN " +:+ c
              +:+ " SET DATA TYPE " +:+ ty ]
      else inr [] in
    let? constraintQueries :=
      if truthy constraint then constraint_queries t c constraint
      else inr [] in
    inr (typeQueries ++ constraintQueries).

(** The reason of the first rejected promise among [promises]. *)
Fixpoint first_rejection (promises : list (res (list value))) : option exn :=
  match promises with
  | [] => None
  | inl reason :: _ => Some reason
  | inr _ :: rest => first_rejection rest
  end.

(** [await pool.query(q)] inside the loop over [schemaChanges].  The
    promises of the data updates ([pending]) were created before the loop
    and get their first handler from [Promise.all], after it.  The store
    serves the statements in the order of the calls, so these promises are
    settled before the answer to [q] arrives: if one of them is rejected, it
    is rejected while the call waits here and no handler is attached to it,
    and the process exits on the unhandled rejection. *)
Definition await_query (pending : list (res (list value))) (q : string)
  : M (list value) :=
  let* answer := query_promise q [] in
  match first_rejection pending with
  | Some reason => fun w => (inl (Exit reason), w)
  | None => lift answer
  end.

(** One iteration of the loop over [schemaChanges]: build the statements,
    then run them one after the other. *)
Definition schema_change_pending (pending : list (res (list value)))
  (tableName change : value) : M unit :=
  let* qs := lift (alterQueries tableName change) in
  let* _ := for_each (await_query pending) qs in
  ret tt.

(** The iteration when no promise is pending. *)
Definition schema_change (tableName change : value) : M unit :=
  schema_change_pending [] tableName change.

(** The values a [for ... of] visits. *)
Definition iterate (v : value) : res (list value) :=
  match v with
  | VArr xs => inr xs
  | VStr s => inr (chars s)
  | _ => inl (TypeError NotIterable)
  end.

(** [await Promise.all(queries)], reached with every promise of [queries]
    still without handler: all the rows, or the first rejection.  The store
    serves the statements in the order of the calls, so the first promise to
    reject is the first rejected one of the array; [Promise.all] attaches a
    handler to each promise, so that no rejection is left unhandled. *)
Definition promise_all (queries : list (res (list value)))
  : res (list (list value)) :=
  res_map (fun p => p) queries.

Definition no_work_error : exn :=
  Error "Either 'updates' or 'schemaChanges' must be provided.".

(** The [try] block of [updateDataInTable].  When it is left by an exception
    that an entry or a schema change raises, the promises created so far
    keep no handler; what a rejected one among them does to the process
    after the call has returned its envelope is not part of the call. *)
Definition updateDataInTable_body (tableName updates schemaChanges : value)
  : M envelope :=
  let* _ := lift (validateName tableName) in
  let* ulen := lift (get updates "length") in
  let* nothing :=
    if truthy ulen then ret false
    else
      let* slen := lift (get schemaChanges "length") in
      ret (negb (truthy slen)) in
  if nothing : bool then throw no_work_error
  else
    let* positive := lift (gt_zero ulen) in
    let* queries :=
      if positive : bool then
        match updates with
        | VArr es => for_each (update_entry tableName) es
        | _ => throw (TypeError (NotAFunction "forEach"))
        end
      else ret [] in
    let* changes := lift (iterate schemaChanges) in
    let* _ := for_each (schema_change_pending queries tableName) changes in
    let* results := lift (promise_all queries) in
    ret (SuccessData (concat results)).

Definition updateDataInTable (arg : value) : M envelope :=
  let* tableName := lift (field arg "tableName") in
  let* updates := lift (field_default arg "updates" (VArr [])) in
  let* schemaChanges := lift (field_default arg "schemaChanges" (VArr [])) in
  try_catch (updateDataInTable_body tableName updates schemaChanges)
    (fun error =>
       let m := message_of error in
       ret (Failure (if String.eqb m "" then "Failed to update data/schema."
                     else m))).

(** ** searchDataInTable *)

Definition operators : list (string * string) :=
  [ ("$lt", "<"); ("$gt", ">"); ("$lte", "<="); ("$gte", ">=");
    ("$ne", "<>") ].

(** The callback of [Object.entries(criteria).forEach], on the pair of
    [conditions] and [values] it extends. *)
Definition add_condition (acc : list string * list value)
  (entry : string * value) : res (list string * list value) :=
  let '(conditions, vals) := acc in
  let '(key, v) := entry in
  if is_non_null_object v then
    match find (fun o => has_property (fst o) v) operators with
    | Some (op, sqlOp) =>
        let? bound := get v op in
        inr (conditions
               ++ [key +:+ " " +:+ sqlOp +:+ " "
                   +:+ placeholder (length vals + 1)],
             vals ++ [bound])
    | None =>
        inl (Error ("Unsupported operator in criteria for key: " +:+ key))
    end
  else
    inr (conditions ++ [key +:+ " = " +:+ placeholder (length vals + 1)],
         vals ++ [v]).

(** The query text and the bound values of a search. *)
Definition search_statement (t : string) (criteria : value) : res statement :=
  let? es := entries criteria in
  let? acc := res_fold add_condition ([], []) es in
  let '(conditions, vals) := acc in
  inr (Statement
         ("SELECT * FROM " +:+ t
          +:+ (if Nat.eqb (length conditions) 0 then ""
               else " WHERE " +:+ String.concat " AND " conditions))
         vals).

Definition searchDataInTable (arg : value) : M envelope :=
  let* tableName := lift (field arg "tableName") in
  let* criteria := lift (field_default arg "criteria" (VObj [])) in
  try_catch
    (let* _ := lift (validateName tableName) in
     let* t := lift (template tableName) in
     let* st := lift (search_statement t criteria) in
     let* result := pool_query (sql st) (params st) in
     ret (SuccessData result))
    (fun error => ret (Failure "Failed to search data.")).

(** ** removeDataFromTable *)

(** The [try] block of [removeDataFromTable]. *)
Definition removeDataFromTable_body (tableName ids : value) : M envelope :=
  let* _ := lift (validateName tableName) in
  if negb (truthy ids)
     || match ids with VArr [] => true | _ => false end
  then throw (Error "No IDs provided.")
  else
    let idList := match ids with VArr _ => ids | _ => VArr [ids] end in
    let* t := lift (template tableName) in
    let* result := pool_query
                     ("DELETE FROM " +:+ t
                      +:+ " WHERE id = ANY($1) RETURNING *") [idList] in
    ret (SuccessData result).

Definition removeDataFromTable (arg : value) : M envelope :=
  let* tableName := lift (field arg "tableName") in
  let* ids := lift (field arg "ids") in
  try_catch (removeDataFromTable_body tableName ids)
    (fun error => ret (Failure "Failed to remove data.")).

(** ** joinTables *)

Definition allowedJoins : list string := ["INNER"; "LEFT"; "RIGHT"; "FULL"].

Definition join_condition_error : exn :=
  Error "Join condition must be provided as a valid SQL condition string.".

Definition joinTables (arg : value) : M envelope :=
  let* table1 := lift (field arg "table1") in
  let* table2 := lift (field arg "table2") in
  let* joinType := lift (field_default arg "joinType" (VStr "INNER")) in
  let* onCondition := lift (field arg "onCondition") in
  try_catch
    (let* _ := lift (validateName table1) in
     let* _ := lift (validateName table2) in
     let* upper := lift (call_toUpperCase joinType) in
     if negb (existsb (String.eqb upper) allowedJoins) then
       let* j := lift (template joinType) in
       throw (Error ("Invalid join type: " +:+ j +:+ ". Allowed: "
                     +:+ String.concat ", " allowedJoins))
     else
       if negb (truthy onCondition) || negb (is_string onCondition) then
         throw join_condition_error
       else
         let* t1 := lift (template table1) in
         let* t2 := lift (template table2) in
         let* on := lift (template onCondition) in
         let* result :=
           pool_query
             (nl +:+ "      SELECT * FROM " +:+ t1 +:+ " " +:+ nl
              +:+ "      " +:+ upper +:+ " JOIN " +:+ t2 +:+ " " +:+ nl
              +:+ "      ON " +:+ on +:+ nl +:+ "    ") [] in
         ret (SuccessData result))
    (fun error =>
       ret (Failure ("Failed to join tables: " +:+ message_of error))).

End Operations.

(** ** Sample hosts, for running the operations on concrete inputs *)

Definition quiet_engine : Engine :=
  {| engine_message := fun _ => "TypeError";
     converted_gt_zero := fun _ => inr false |}.

(** A store that answers every statement with no rows. *)
Definition empty_pool : Pool :=
  {| DB := unit; exec := fun _ d => (inr [], d) |}.


(** The world of pool [p] with store [d], after the statements [l]. *)
Definition world_of (p : Pool) (d : @DB p) (l : list statement) : @World p :=
  @Build_World p d l.

(** The world before anything was issued. *)
Definition fresh (p : Pool) (d : @DB p) : @World p := world_of p d [].

(** ** Vocabulary of the specification *)

(** [needle] occurs in [hay]. *)
Fixpoint contains (needle hay : string) : bool :=
  String.prefix needle hay
  || match hay with
     | String _ hay' => contains needle hay'
     | EmptyString => false
     end.

(** The baseline columns of every created table. *)
Definition baseline_names : list string := ["id"; "created_at"; "updated_at"].

Definition baseline_definitions : list string :=
  [ "id SERIAL PRIMARY KEY";
    "created_at TIMESTAMPTZ DEFAULT NOW()";
    "updated_at TIMESTAMPTZ DEFAULT NOW()" ].

(** The name of the column differs from all baseline names. *)
Definition differs_from_baseline (col : value) : Prop :=
  forall b, In b baseline_names -> get col "name" <> inr (VStr b).

(** The five column types of the type table. *)
Definition supported_types : list string :=
  ["integer"; "text"; "timestamp"; "boolean"; "decimal"].

Definition unsupported_type (type : value) : Prop :=
  forall s, In s supported_types -> type <> VStr s.

(** Neither null nor undefined. *)
Definition is_present (v : value) : Prop := v <> VUndefined /\ v <> VNull.

(** [ys] consists of exactly the elements of [xs] that satisfy [P], in the
    order of [xs]. *)
Inductive selects {A} (P : A -> Prop) : list A -> list A -> Prop :=
| selects_nil : selects P [] []
| selects_keep x xs ys : P x -> selects P xs ys -> selects P (x :: xs) (x :: ys)
| selects_drop x xs ys : ~ P x -> selects P xs ys -> selects P (x :: xs) ys.




(** [c1 = $1, c2 = $2, ..., ck = $k] *)
Definition set_list (columns : list string) : string :=
  String.concat ", "
    (zip_with (fun c n => c +:+ " = " +:+ placeholder n)
              columns (seq 1 (length columns))).

(** [UPDATE t SET c1 = $1, ..., ck = $k, updated_at = NOW() WHERE id = $(k+1)
    RETURNING *] *)
Definition update_sql (t : string) (columns : list string) : string :=
  "UPDATE " +:+ t +:+ " SET " +:+ set_list columns
  +:+ ", updated_at = NOW() WHERE id = "
  +:+ placeholder (length columns + 1) +:+ " RETURNING *".

(** The entry has a truthy [id] and a non-empty [data], and the statement
    the code builds for it is [st]. *)
Definition entry_statement (tableName entry : value) (st : statement) : Prop :=
  exists id data,
    field entry "id" = inr id /\ field entry "data" = inr data
    /\ update_statement tableName id data = inr st.

(** [op] is the first of [$lt], [$gt], [$lte], [$gte], [$ne], in that order,
    that the criteria value [v] has, and [sqlOp] is its comparison. *)
Inductive selects_operator (v : value) : string -> string -> Prop :=
| selects_lt :
    has_property "$lt" v = true ->
    selects_operator v "$lt" "<"
| selects_gt :
    has_property "$lt" v = false ->
    has_property "$gt" v = true ->
    selects_operator v "$gt" ">"
| selects_lte :
    has_property "$lt" v = false ->
    has_property "$gt" v = false ->
    has_property "$lte" v = true ->
    selects_operator v "$lte" "<="
| selects_gte :
    has_property "$lt" v = false ->
    has_property "$gt" v = false ->
    has_property "$lte" v = false ->
    has_property "$gte" v = true ->
    selects_operator v "$gte" ">="
| selects_ne :
    has_property "$lt" v = false ->
    has_property "$gt" v = false ->
    has_property "$lte" v = false ->
    has_property "$gte" v = false ->
    has_property "$ne" v = true ->
    selects_operator v "$ne" "<>".

(** The criteria value has none of the five operators. *)
Definition no_operator (v : value) : Prop :=
  has_property "$lt" v = false /\ has_property "$gt" v = false
  /\ has_property "$lte" v = false /\ has_property "$gte" v = false
  /\ has_property "$ne" v = false.

(** The condition of a criteria entry whose placeholder is [$n], with the
    value it binds; [None] when the entry is not supported. *)
Inductive condition_of (n : nat)
  : string * value -> option (string * value) -> Prop :=
| condition_equal key v :
    is_non_null_object v = false ->
    condition_of n (key, v) (Some (key +:+ " = " +:+ placeholder n, v))
| condition_compare key v op sqlOp bound :
    is_non_null_object v = true ->
    selects_operator v op sqlOp ->
    get v op = inr bound ->
    condition_of n (key, v)
      (Some (key +:+ " " +:+ sqlOp +:+ " " +:+ placeholder n, bound))
| condition_unsupported key v :
    is_non_null_object v = true ->
    no_operator v ->
    condition_of n (key, v) None.

(** The conditions of the entries [es], the first with placeholder [$n], each
    next one with the next number. *)
Inductive conditions_from
  : nat -> list (string * value) -> list (string * value) -> Prop :=
| conditions_nil n : conditions_from n [] []
| conditions_cons n e es c cs :
    condition_of n e (Some c) ->
    conditions_from (S n) es cs ->
    conditions_from n (e :: es) (c :: cs).

(** Nothing for no condition, otherwise [ WHERE c1 AND ... AND cm]. *)
Definition where_clause (conditions : list string) : string :=
  match conditions with
  | [] => ""
  | _ => " WHERE " +:+ String.concat " AND " conditions
  end.

(** ** The constraint catalogue of the store *)

(** [<table>_<column>_constraint] *)
Definition constraint_name (t c : string) : string :=
  t +:+ "_" +:+ c +:+ "_constraint".

Definition drop_constraint_sql (t n : string) : string :=
  "ALTER TABLE " +:+ t +:+ " DROP CONSTRAINT IF EXISTS " +:+ n.

Definition add_unique_sql (t n c : string) : string :=
  "ALTER TABLE " +:+ t +:+ " ADD CONSTRAINT " +:+ n
  +:+ " UNIQUE (" +:+ c +:+ ")".

(** A constraint of a table: UNIQUE on a column, or anything else. *)
Inductive table_constraint : Type :=
| Unique (column : string)
| OtherConstraint (definition : string).

(** The two statements about named constraints. *)
Inductive ddl : Type :=
| DropConstraintIfExists (table name : string)
| AddUnique (table name column : string).

(** The words of a statement, separated by single spaces. *)
Fixpoint words (s : string) : list string :=
  match s with
  | EmptyString => [EmptyString]
  | String c s' =>
      if Ascii.eqb c " " then EmptyString :: words s'
      else match words s' with
           | w :: ws => String c w :: ws
           | [] => [String c EmptyString]
           end
  end.

(** [s] without its final [)]. *)
Fixpoint without_closing (s : string) : option string :=
  match s with
  | EmptyString => None
  | String c EmptyString =>
      if Ascii.eqb c ")" then Some EmptyString else None
  | String c s' => option_map (String c) (without_closing s')
  end.

(** [(c)] to [c] *)
Definition unparenthesised (s : string) : option string :=
  match s with
  | String c s' => if Ascii.eqb c "(" then without_closing s' else None
  | EmptyString => None
  end.

Definition parse_ddl (q : string) : option ddl :=
  match words q with
  | [w1; w2; t; w4; w5; w6; w7; w8] =>
      if String.eqb w1 "ALTER" && String.eqb w2 "TABLE"
         && String.eqb w4 "DROP" && String.eqb w5 "CONSTRAINT"
         && String.eqb w6 "IF" && String.eqb w7 "EXISTS"
      then Some (DropConstraintIfExists t w8)
      else if String.eqb w1 "ALTER" && String.eqb w2 "TABLE"
              && String.eqb w4 "ADD" && String.eqb w5 "CONSTRAINT"
              && String.eqb w7 "UNIQUE"
      then option_map (AddUnique t w6) (unparenthesised w8)
      else None
  | _ => None
  end.

(** Modelled from the spec: the store's catalogue of named constraints, which
    lives in the database behind [pool.query] and not in this repository.
    DROP CONSTRAINT IF EXISTS removes the constraint of that name if there is
    one; ADD CONSTRAINT ... UNIQUE adds it under that name, and is rejected
    when the name is taken or when the rows of the table do not admit the
    constraint ([admits], fixed by the data, which these statements do not
    change).  Any other statement leaves the catalogue alone. *)
Definition run_ddl (admits : string -> string -> bool) (d : ddl)
  (cat : gmap (string * string) table_constraint)
  : (string + list value) * gmap (string * string) table_constraint :=
  match d with
  | DropConstraintIfExists t n => (inr [], delete (t, n) cat)
  | AddUnique t n c =>
      match cat !! (t, n) with
      | Some _ => (inl "constraint already exists", cat)
      | None =>
          if admits t c then (inr [], <[(t, n) := Unique c]> cat)
          else (inl "could not create unique index", cat)
      end
  end.

Definition catalogue_pool (admits : string -> string -> bool) : Pool :=
  {| DB := gmap (string * string) table_constraint;
     exec := fun st cat =>
               match parse_ddl (sql st) with
               | Some d => run_ddl admits d cat
               | None => (inr [], cat)
               end |}.

(** No space in [s]. *)
Definition no_space (s : string) : Prop := all_chars (fun c => c <> " "%char) s.

(** What the statement pair of a UNIQUE request does to a catalogue: the
    constraint of the generated name is dropped, and the UNIQUE constraint is
    there afterwards if the rows admit it. *)
Definition unique_effect (admits : string -> string -> bool) (t c : string)
  (cat : gmap (string * string) table_constraint)
  : gmap (string * string) table_constraint :=
  if admits t c
  then <[(t, constraint_name t c) := Unique c]>
         (delete (t, constraint_name t c) cat)
  else delete (t, constraint_name t c) cat.

(** The catalogue after the update call [arg], started on [cat]. *)
Definition catalogue_after `{Engine} (admits : string -> string -> bool)
  (arg : value) (cat : gmap (string * string) table_constraint)
  : gmap (string * string) table_constraint :=
  store (snd (@updateDataInTable (catalogue_pool admits) _ arg
                (world_of (catalogue_pool admits) cat []))).

(** ** Vocabulary for the remaining operations *)

(** A store without state whose answer is a function of the statement. *)
Definition scripted_pool (answer : statement -> string + list value) : Pool :=
  {| DB := unit; exec := fun st d => (answer st, d) |}.

(** The text of a join: the two tables, the join kind, the predicate. *)
Definition join_sql (t1 kind t2 on : string) : string :=
  nl +:+ "      SELECT * FROM " +:+ t1 +:+ " " +:+ nl
  +:+ "      " +:+ kind +:+ " JOIN " +:+ t2 +:+ " " +:+ nl
  +:+ "      ON " +:+ on +:+ nl +:+ "    ".

(** What a caller sees of an awaited [pool.query]. *)
Definition settled (r : string + list value) : res (list value) :=
  match r with
  | inl m => inl (StoreError m)
  | inr rows => inr rows
  end.

(** The statement that asks the catalogue whether the table exists, and the
    one that asks for its columns: the name is a bound value in both. *)
Definition exists_statement (tableName : value) : statement :=
  Statement checkTableExists_sql [tableName].

Definition columns_statement (tableName : value) : statement :=
  Statement getTableColumns_sql [tableName].

(** [col] is the description of the catalogue row [row]: its name, its
    declared type, and whether its nullability reads [YES]. *)
Definition describes (row col : value) : Prop :=
  exists name type is_nullable nullable,
    get row "column_name" = inr name
    /\ get row "data_type" = inr type
    /\ get row "is_nullable" = inr is_nullable
    /\ (nullable = true <-> is_nullable = VStr "YES")
    /\ col = VObj [("name", name); ("type", type);
                   ("nullable", VBool nullable)].

(** The constraints the schema-change dispatch knows, in upper case. *)
Definition supported_constraints : list string :=
  ["UNIQUE"; "NOT NULL"; "NULL"].

(** The entry of [updates] lacks a truthy [id] or a non-empty [data]. *)
Definition invalid_entry (entry : value) : Prop :=
  exists id data,
    field entry "id" = inr id /\ field entry "data" = inr data
    /\ (truthy id = false \/ truthy data = false \/ keys data = inr []).

(** A schema statement as [pool.query] receives it: no bound values. *)
Definition ddl_statement (q : string) : statement := Statement q [].

(** ** Vocabulary for the statements of an update call *)

(** The entry of [updates] has a truthy [id] that can be logged and a [data]
    with at least one column, and [st] is its statement on table [t]:
    [UPDATE t SET c1 = $1, ..., ck = $k, updated_at = NOW() WHERE id = $(k+1)
    RETURNING *], bound to the values of [data] in key order and then to
    [id]. *)
Definition entry_update (t : string) (entry : value) (st : statement) : Prop :=
  exists id data es,
    field entry "id" = inr id /\ field entry "data" = inr data
    /\ truthy id = true /\ (exists s, template id = inr s)
    /\ truthy data = true /\ entries data = inr es /\ es <> []
    /\ st = Statement (update_sql t (map fst es)) (map snd es ++ [id]).

(** The type change of a request on column [c] of table [t]: one statement
    when a type is given, none otherwise. *)
Definition type_statements (t c : string) (type : value)
  (qs : list string) : Prop :=
  (truthy type = false /\ qs = [])
  \/ (truthy type = true
      /\ exists ty, template type = inr ty
         /\ qs = ["ALTER TABLE " +:+ t +:+ " ALTER COLUMN " +:+ c
                  +:+ " SET DATA TYPE " +:+ ty]).

(** The statements of the constraint of a request: the pair that replaces
    the generated name by a UNIQUE constraint, the statement that sets or
    the one that drops NOT NULL, or none when no constraint is given.  The
    constraint is named in any letter case. *)
Definition constraint_statements (t c : string) (constraint : value)
  (qs : list string) : Prop :=
  (truthy constraint = false /\ qs = [])
  \/ (exists s,
         constraint = VStr s /\ s <> ""
         /\ ((toUpperCase s = "UNIQUE"
              /\ qs = [drop_constraint_sql t (constraint_name t c);
                       add_unique_sql t (constraint_name t c) c])
             \/ (toUpperCase s = "NOT NULL"
                 /\ qs = ["ALTER TABLE " +:+ t +:+ " ALTER COLUMN " +:+ c
                          +:+ " SET NOT NULL"])
             \/ (toUpperCase s = "NULL"
                 /\ qs = ["ALTER TABLE " +:+ t +:+ " ALTER COLUMN " +:+ c
                          +:+ " DROP NOT NULL"]))).

(** [qs] are the statements of the schema change request [change] on table
    [t], in the order in which they are issued: the type change first, then
    those of the constraint.  The request names a column and gives a type or
    a constraint. *)
Definition planned (t : string) (change : value) (qs : list string) : Prop :=
  exists column c type constraint tqs cqs,
    field change "column" = inr column /\ truthy column = true
    /\ template column = inr c
    /\ field change "type" = inr type
    /\ field change "constraint" = inr constraint
    /\ (truthy type = true \/ truthy constraint = true)
    /\ type_statements t c type tqs
    /\ constraint_statements t c constraint cqs
    /\ qs = tqs ++ cqs.

(** The answers of the store to the statements [sts], handed over one after
    the other, and the store after the last. *)
Fixpoint serve `{Pool} (sts : list statement) (d : DB)
  : list (string + list value) * DB :=
  match sts with
  | [] => ([], d)
  | st :: rest =>
      let '(answer, d1) := exec st d in
      let '(answers, d2) := serve rest d1 in
      (answer :: answers, d2)
  end.

(** The text of the first rejection among the answers. *)
Fixpoint first_error (answers : list (string + list value)) : option string :=
  match answers with
  | [] => None
  | inl m :: _ => Some m
  | inr _ :: rest => first_error rest
  end.

(** The rows of the answers, one after the other. *)
Fixpoint rows_of (answers : list (string + list value)) : list value :=
  match answers with
  | [] => []
  | inl _ :: rest => rows_of rest
  | inr rows :: rest => rows ++ rows_of rest
  end.

(** Statements issued one at a time, each after the store has accepted the
    one before: the statements that were issued, the text of the rejection
    that ended the sequence, if any, and the store afterwards. *)
Fixpoint awaited `{Pool} (sts : list statement) (d : DB)
  : list statement * option string * DB :=
  match sts with
  | [] => ([], None, d)
  | st :: rest =>
      match exec st d with
      | (inl m, d1) => ([st], Some m, d1)
      | (inr _, d1) =>
          let '(done, rejection, d2) := awaited rest d1 in
          (st :: done, rejection, d2)
      end
  end.

(** The failure envelope of an update call for an error of message [m]. *)
Definition update_failure (m : string) : envelope :=
  Failure (if String.eqb m "" then "Failed to update data/schema." else m).

(** What an update call does that issues the data statements [sts] and has
    the schema statements [qs] to issue after them.  With no data statement
    rejected, the schema statements are issued one at a time up to the first
    the store rejects, and the call returns the rows of the data statements,
    or the failure envelope of that rejection.  With a data statement
    rejected, the call returns the failure envelope of the first such
    rejection as long as there is no schema statement; when there is one,
    the process exits while the first schema statement is awaited. *)
Definition update_outcome `{Pool} (sts : list statement) (qs : list string)
  (w : World) : (stop + envelope) * World :=
  let '(answers, d1) := serve sts (store w) in
  match first_error answers, qs with
  | Some m, [] =>
      (inr (update_failure m), {| store := d1; issued := issued w ++ sts |})
  | Some m, q :: _ =>
      (inl (Exit (StoreError m)),
       {| store := snd (exec (ddl_statement q) d1);
          issued := issued w ++ sts ++ [ddl_statement q] |})
  | None, _ =>
      let '(done, rejection, d2) := awaited (map ddl_statement qs) d1 in
      (inr (match rejection with
            | Some m => update_failure m
            | None => SuccessData (rows_of answers)
            end),
       {| store := d2; issued := issued w ++ sts ++ done |})
  end.

(** * The chat component of the client (chat.component.ts)

    The component keeps the transcript, the input line, the list of
    suggestions under it and the index of the highlighted suggestion.  Its
    methods are embedded as functions on that state; the requests handed to
    the API service are logged in [posted].  The input line and a
    suggestion are [None] when they hold [undefined]; a method call on an
    undefined input line raises. *)

Module Chat.

Record state : Type := {
  messages : list (string * string);   (* role, text *)
  userInput : option string;
  isBotProcessing : bool;
  suggestions : list (option string);
  selectedSuggestionIndex : Z;
  posted : list string
}.

Definition initial : state :=
  {| messages := []; userInput := Some ""; isBotProcessing := false;
     suggestions := []; selectedSuggestionIndex := (-1)%Z; posted := [] |}.

(** [s.toLowerCase()] on 8-bit code units: the ASCII capitals and the
    capitals of the upper half, all of which have their small letter 32
    places further. *)
Definition lower_char (c : ascii) : ascii :=
  let n := N_of_ascii c in
  if ((65 <=? n) && (n <=? 90)
      || (192 <=? n) && (n <=? 222) && negb (n =? 215))%N
  then ascii_of_N (n + 32) else c.

Fixpoint toLowerCase (s : string) : string :=
  match s with
  | EmptyString => EmptyString
  | String c s' => String (lower_char c) (toLowerCase s')
  end.

(** What [trim] removes: tab, line feed, vertical tab, form feed, carriage
    return, space, no-break space. *)
Definition is_space (c : ascii) : bool :=
  let n := N_of_ascii c in
  ((9 <=? n) && (n <=? 13) || (n =? 32) || (n =? 160))%N.

Fixpoint trimStart (s : string) : string :=
  match s with
  | EmptyString => EmptyString
  | String c s' => if is_space c then trimStart s' else s
  end.

Fixpoint trimEnd (s : string) : string :=
  match s with
  | EmptyString => EmptyString
  | String c s' =>
      match trimEnd s' with
      | EmptyString => if is_space c then EmptyString
                       else String c EmptyString
      | r => String c r
      end
  end.

Definition trim (s : string) : string := trimEnd (trimStart s).

(** The [messages] table of [onUserTyping]. *)
Definition hints : list (string * string) :=
  [ ("create", "Create a table named `table_name` with columns: `col_1_name`, `col_2_name`, etc.");
    ("add", "Insert data into `table_name` with values: `col_1_value`, `col_2_value`, etc.");
    ("update", "Update `table_name` by setting `column_name = value` where `condition` applies.");
    ("remove", "Delete records from `table_name` where `condition` applies.");
    ("search", "Retrieve data from `table_name` where `column_name = value`.");
    ("join", "Perform an inner join on `table_1` and `table_2` using `table_1.col_name = table_2.col_name`.") ].

Definition aliasMap : list (string * string) :=
  [ ("insert", "add"); ("delete", "remove"); ("find", "search") ].

Fixpoint read {A} (k : string) (o : list (string * A)) : option A :=
  match o with
  | [] => None
  | (k', v) :: o' => if String.eqb k' k then Some v else read k o'
  end.

(** [o[k] = v]: an existing key keeps its place, a new one comes last. *)
Fixpoint assign {A} (k : string) (v : A) (o : list (string * A))
  : list (string * A) :=
  match o with
  | [] => [(k, v)]
  | (k', v') :: o' =>
      if String.eqb k' k then (k, v) :: o' else (k', v') :: assign k v o'
  end.

(** [templates]: a copy of the hints, to which each alias is added with the
    text of its original ([None] stands for [undefined]). *)
Definition templates : list (string * option string) :=
  fold_left (fun t entry => assign (fst entry) (read (snd entry) hints) t)
            aliasMap
            (map (fun e => (fst e, Some (snd e))) hints).

(** The suggestions for an input line. *)
Definition suggest (input : string) : list (option string) :=
  map snd
    (List.filter (fun e => String.prefix (toLowerCase input) (fst e))
                 templates).

(** [onUserTyping()] *)
Definition onUserTyping (st : state) : option state :=
  match userInput st with
  | None => None
  | Some input =>
      Some {| messages := messages st; userInput := userInput st;
              isBotProcessing := isBotProcessing st;
              suggestions := suggest input;
              selectedSuggestionIndex := (-1)%Z;
              posted := posted st |}
  end.

(** [selectSuggestion(suggestion)] *)
Definition selectSuggestion (suggestion : option string) (st : state)
  : state :=
  {| messages := messages st; userInput := suggestion;
     isBotProcessing := isBotProcessing st; suggestions := [];
     selectedSuggestionIndex := (-1)%Z; posted := posted st |}.

(** [sendMessage()], up to the request; the two callbacks of the
    subscription follow. *)
Definition sendMessage (st : state) : option state :=
  match userInput st with
  | None => None
  | Some input =>
      if String.eqb (trim input) "" then Some st
      else
        Some {| messages := messages st ++ [("user", input)];
                userInput := Some "";
                isBotProcessing := true; suggestions := [];
                selectedSuggestionIndex := (-1)%Z;
                posted := posted st ++ [input] |}
  end.

(** [next: (response) => ...] *)
Definition onResponse (output : string) (st : state) : state :=
  {| messages := messages st ++ [("assistant", output)];
     userInput := userInput st; isBotProcessing := false;
     suggestions := suggestions st;
     selectedSuggestionIndex := selectedSuggestionIndex st;
     posted := posted st |}.

(** [error: (err) => ...] *)
Definition onError (st : state) : state :=
  {| messages := messages st; userInput := userInput st;
     isBotProcessing := false; suggestions := suggestions st;
     selectedSuggestionIndex := selectedSuggestionIndex st;
     posted := posted st |}.

(** [this.suggestions[i]] *)
Definition suggestion_at (st : state) (i : Z) : option string :=
  if (i <? 0)%Z then None
  else match nth_error (suggestions st) (Z.to_nat i) with
       | Some x => x
       | None => None
       end.

Definition with_index (st : state) (i : Z) : state :=
  {| messages := messages st; userInput := userInput st;
     isBotProcessing := isBotProcessing st; suggestions := suggestions st;
     selectedSuggestionIndex := i; posted := posted st |}.

(** [handleKeyDown(event)], by [event.key]; the remainder is the one of
    JavaScript, with the sign of the dividend. *)
Definition handleKeyDown (key : string) (st : state) : state :=
  let n := Z.of_nat (length (suggestions st)) in
  let i := selectedSuggestionIndex st in
  if (n =? 0)%Z then st
  else if String.eqb key "ArrowDown" then with_index st (Z.rem (i + 1) n)
  else if String.eqb key "ArrowUp" then
    with_index st (if (i <=? 0)%Z then n - 1 else i - 1)%Z
  else if String.eqb key "Enter" && negb (i =? -1)%Z then
    selectSuggestion (suggestion_at st i) st
  else st.

(** [handleOutsideClick(event)]; [outside] tells whether the input element
    exists and does not contain the target of the click. *)
Definition handleOutsideClick (outside : bool) (st : state) : state :=
  if outside then
    {| messages := messages st; userInput := userInput st;
       isBotProcessing := isBotProcessing st; suggestions := [];
       selectedSuggestionIndex := (-1)%Z; posted := posted st |}
  else st.

(** What can happen to the component: the binding of the input line sets
    its text, and the methods are called. *)
Inductive event : Type :=
| Edit (text : string)
| Typing
| Select (suggestion : string)
| Send
| Key (key : string)
| Click (outside : bool)
| Response (output : string)
| Failed.

Definition edit (text : string) (st : state) : state :=
  {| messages := messages st; userInput := Some text;
     isBotProcessing := isBotProcessing st; suggestions := suggestions st;
     selectedSuggestionIndex := selectedSuggestionIndex st;
     posted := posted st |}.

(** One event; [None] when the method raises. *)
Definition step (st : state) (e : event) : option state :=
  match e with
  | Edit text => Some (edit text st)
  | Typing => onUserTyping st
  | Select s => Some (selectSuggestion (Some s) st)
  | Send => sendMessage st
  | Key k => Some (handleKeyDown k st)
  | Click o => Some (handleOutsideClick o st)
  | Response out => Some (onResponse out st)
  | Failed => Some (onError st)
  end.

Fixpoint run (st : state) (es : list event) : option state :=
  match es with
  | [] => Some st
  | e :: es' =>
      match step st e with
      | None => None
      | Some st' => run st' es'
      end
  end.

(** The highlighted index is -1 or the index of a suggestion, every
    suggestion is a string, and the input line holds a string. *)
Definition well_formed (st : state) : Prop :=
  (selectedSuggestionIndex st = (-1)%Z
   \/ (0 <= selectedSuggestionIndex st
       < Z.of_nat (length (suggestions st)))%Z)
  /\ Forall (fun x => x <> None) (suggestions st)
  /\ userInput st <> None.

(** The first letter of a keyword. *)
Definition first_letter (s : string) : option ascii :=
  match s with
  | EmptyString => None
  | String c _ => Some c
  end.

(** Every code unit of [s] is white space. *)
Fixpoint blank (s : string) : Prop :=
  match s with
  | EmptyString => True
  | String c s' => is_space c = true /\ blank s'
  end.

End Chat.

(** * The chat endpoint of the server (index.js)

    The handler of [POST /chat] asks the language model for its next reply,
    reads the reply as JSON and either answers the request, or runs the tool
    the reply names and reports its result back to the model, and asks
    again.  The model, [JSON.parse] and [JSON.stringify] are taken from
    outside; an error is known by its message, which is all the handler uses
    of it. *)

Module Agent.

Class Host : Type := {
  (** the text of the system prompt *)
  SYSTEM_PROMPT : string;
  (** [client.chat.completions.create] on the messages so far: the chat
      object, or the message of the error it rejects with *)
  complete : list (string * value) -> string + value;
  (** [JSON.parse]: the value, or the message of the syntax error *)
  parse : string -> string + value;
  (** [JSON.stringify] of a value other than undefined *)
  stringify : value -> string;
  (** [tools[name]] for a name that is not one of the seven own keys of
      [tools]: what the member inherited under that name does when called
      with the input, if there is one *)
  inherited : string -> option (value -> string + value)
}.

(** The answer to the request. *)
Inductive response : Type :=
| Output (text : option string)   (* 200, { output } *)
| InvalidFunction                 (* 400, { error: "Invalid function" } *)
| ServerError (message : string)  (* 500, { error: error.message } *)
| NoResponse.                     (* the process exited, nothing is sent *)

Section Handler.
Context {pool : Pool} {engine : Engine} {host : Host}.

(** [const tools = { ... }] *)
Definition tools : list (string * (value -> M envelope)) :=
  [ ("createDynamicTable", createDynamicTable);
    ("getTableColumns", getTableColumns);
    ("addDataToTable", addDataToTable);
    ("updateDataInTable", updateDataInTable);
    ("searchDataInTable", searchDataInTable);
    ("removeDataFromTable", removeDataFromTable);
    ("joinTables", joinTables) ].

Fixpoint own_tool (name : string) (ts : list (string * (value -> M envelope)))
  : option (value -> M envelope) :=
  match ts with
  | [] => None
  | (k, f) :: ts' => if String.eqb k name then Some f else own_tool name ts'
  end.

(** The object a tool resolves to. *)
Definition envelope_value (e : envelope) : value :=
  match e with
  | SuccessMessage m => VObj [("success", VBool true); ("message", VStr m)]
  | SuccessData rows => VObj [("success", VBool true); ("data", VArr rows)]
  | SuccessColumns cols =>
      VObj [("success", VBool true); ("columns", VArr cols)]
  | Failure m => VObj [("success", VBool false); ("message", VStr m)]
  end.

(** The message of what a computation of the tool layer raised. *)
Definition raised {A} (r : res A) : string + A :=
  match r with
  | inl e => inl (message_of e)
  | inr a => inr a
  end.

(** [v[0]] *)
Definition first_element (v : value) : res value :=
  match v with
  | VUndefined | VNull => inl (TypeError (CannotReadProperty "0"))
  | VArr xs => inr (nth 0 xs VUndefined)
  | VStr s => inr (nth 0 (chars s) VUndefined)
  | VObj ps => get v "0"
  | VBool _ | VNum _ => inr VUndefined
  end.

(** [v?.k] *)
Definition get_optional (v : value) (k : string) : res value :=
  match v with
  | VUndefined | VNull => inr VUndefined
  | _ => get v k
  end.

(** [chat.choices[0]?.message?.content] *)
Definition content_of (chat : value) : res value :=
  let? choices := get chat "choices" in
  let? first := first_element choices in
  let? message := get_optional first "message" in
  get_optional message "content".

(** How one round of the loop ends. *)
Inductive round : Type :=
| Respond (r : response) (messages : list (string * value)) (w : World)
| Continue (messages : list (string * value)) (w : World).

(** The reply of the model to the messages so far: the content of its
    first choice and [JSON.parse(content || "{}")]. *)
Definition reply (messages : list (string * value))
  : string + (value * value) :=
  match complete messages with
  | inl m => inl m
  | inr chat =>
      match raised (let? content := content_of chat in
                    let? text := template (if truthy content then content
                                           else VStr "{}") in
                    inr (content, text)) with
      | inl m => inl m
      | inr (content, text) =>
          match parse text with
          | inl m => inl m
          | inr result => inr (content, result)
          end
      end
  end.

(** The developer message about an observation:
    [{ type: "observation", success: observation.success,
       observation: { ...observation } }], stringified. *)
Definition report (observation : value) : res (string * value) :=
  let? success := get observation "success" in
  let? spread := entries observation in
  inr ("developer",
       VStr (stringify (VObj [("type", VStr "observation");
                              ("success", success);
                              ("observation", VObj spread)]))).

(** [tools[result.function]] and what calling it with [result.input]
    gives. *)
Definition key_and_input (result : value) : res (string * value) :=
  let? input := get result "input" in
  let? function := get result "function" in
  let? key := template function in
  inr (key, input).

(** The [action] branch. *)
Definition act (result : value) (messages : list (string * value))
  (w : World) : round :=
  match raised (key_and_input result) with
  | inl m => Respond (ServerError m) messages w
  | inr (key, input) =>
      match own_tool key tools with
      | Some fn =>
          match fn input w with
          | (inl (Raise e), w') =>
              Respond (ServerError (message_of e)) messages w'
          | (inl (Exit _), w') => Respond NoResponse messages w'
          | (inr env, w') =>
              match raised (report (envelope_value env)) with
              | inl m => Respond (ServerError m) messages w'
              | inr developer => Continue (messages ++ [developer]) w'
              end
          end
      | None =>
          match inherited key with
          | None => Respond InvalidFunction messages w
          | Some member =>
              match member input with
              | inl m => Respond (ServerError m) messages w
              | inr observation =>
                  match raised (report observation) with
                  | inl m => Respond (ServerError m) messages w
                  | inr developer => Continue (messages ++ [developer]) w
                  end
              end
          end
      end
  end.

(** [messages.push({ role: "assistant", content: content || "" })] *)
Definition with_reply (messages : list (string * value)) (content : value)
  : list (string * value) :=
  messages ++ [("assistant", if truthy content then content else VStr "")].

(** The body of [while (true)]: one reply of the model. *)
Definition one_round (messages : list (string * value)) (w : World) : round :=
  match reply messages with
  | inl m => Respond (ServerError m) messages w
  | inr (content, result) =>
      match raised (get result "type") with
      | inl m => Respond (ServerError m) (with_reply messages content) w
      | inr type =>
          if strict_eq_str type "output" then
            match raised (get result "output") with
            | inl m => Respond (ServerError m) (with_reply messages content) w
            | inr output =>
                Respond (Output (match output with
                                 | VUndefined => None
                                 | _ => Some (stringify output)
                                 end))
                        (with_reply messages content) w
            end
          else if strict_eq_str type "action" then
            act result (with_reply messages content) w
          else Continue (with_reply messages content) w
      end
  end.

(** The loop, for at most [fuel] replies of the model; [None] when the
    request is still open after that many. *)
Fixpoint loop (fuel : nat) (messages : list (string * value)) (w : World)
  : option (response * list (string * value) * World) :=
  match fuel with
  | O => None
  | S fuel' =>
      match one_round messages w with
      | Respond r messages' w' => Some (r, messages', w')
      | Continue messages' w' => loop fuel' messages' w'
      end
  end.

(** The two messages every request starts with. *)
Definition opening (userInput : value) : list (string * value) :=
  [ ("system", VStr SYSTEM_PROMPT);
    ("user", VStr (stringify (VObj [("type", VStr "user");
                                    ("user", userInput)]))) ].

(** The handler, given [req.body]. *)
Definition chat (fuel : nat) (body : value) (w : World)
  : option (response * list (string * value) * World) :=
  match raised (field body "userInput") with
  | inl m => Some (ServerError m, [], w)
  | inr userInput => loop fuel (opening userInput) w
  end.

End Handler.

(** A chat object with one choice of the given content. *)
Definition says (content : string) : value :=
  VObj [("choices",
         VArr [VObj [("message", VObj [("role", VStr "assistant");
                                       ("content", VStr content)])]])].

(** A host whose model always says [content], which parses to [result];
    nothing is inherited under any name. *)
Definition constant_host (content : string) (result : value) : Host :=
  {| SYSTEM_PROMPT := "You are a database assistant.";
     complete := fun _ => inr (says content);
     parse := fun _ => inr result;
     stringify := fun _ => "{}";
     inherited := fun _ => None |}.

(** The reply is an action that names one of the seven tools. *)
Definition names_tool `{Pool} `{Engine} (result : value) : Prop :=
  exists key input fn,
    get result "type" = inr (VStr "action") /\
    key_and_input result = inr (key, input) /\
    own_tool key tools = Some fn.

(** The role of a message. *)
Definition role (m : string * value) : string := fst m.

(** The messages of a given role. *)
Definition of_role (r : string) (ms : list (string * value))
  : list (string * value) :=
  List.filter (fun m => String.eqb (role m) r) ms.

End Agent.

(** * Properties *)

(** ** The runtime fragment *)

Lemma field_total (v : value) (k k' : string) (x : value) :
  field v k = inr x -> exists x', field v k' = inr x'.
Proof.
  destruct v; simpl; try discriminate; intros _; eauto;
    repeat case_match; eauto.
Qed.

Lemma field_default_total (v : value) (k k' : string) (x d : value) :
  field v k = inr x -> exists x', field_default v k' d = inr x'.
Proof.
  intros H. destruct (field_total v k k' x H) as [x' Hx'].
  unfold field_default. rewrite Hx'. simpl. eauto.
Qed.

(** ** The regular expression *)

Lemma N_of_ascii_eq (c d : ascii) : N_of_ascii c = N_of_ascii d -> c = d.
Proof.
  intros H. rewrite <- (ascii_N_embedding c), <- (ascii_N_embedding d).
  now rewrite H.
Qed.

Lemma in_class_start (c : ascii) :
  in_class [("a", "z"); ("A", "Z"); ("_", "_")]%char c = true
  <-> ident_start c.
Proof.
  unfold in_class, ident_start, is_letter. simpl.
  rewrite !orb_true_iff, !andb_true_iff, !N.leb_le. split.
  - intros [H | [H | [H | H]]]; try lia; try discriminate.
    right. apply N_of_ascii_eq. simpl. lia.
  - intros [[H | H] | ->]; [lia | lia | simpl; lia].
Qed.

Lemma in_class_part (c : ascii) :
  in_class [("a", "z"); ("A", "Z"); ("0", "9"); ("_", "_")]%char c = true
  <-> ident_part c.
Proof.
  unfold in_class, ident_part, is_letter, is_digit. simpl.
  rewrite !orb_true_iff, !andb_true_iff, !N.leb_le. split.
  - intros [H | [H | [H | [H | H]]]]; try lia; try discriminate.
    right; right. apply N_of_ascii_eq. simpl. lia.
  - intros [[H | H] | [H | ->]]; [lia | lia | lia | simpl; lia].
Qed.

(** The starred class followed by [$] succeeds exactly when every remaining
    code unit is in the class: giving a code unit back never helps, because
    [$] then sees a non-empty rest. *)
Lemma match_star_end (cc : char_class) (i : nat) (s : string) :
  match_star cc (match_terms [AssertEnd]) i s = true
  <-> all_chars (fun c => in_class cc c = true) s.
Proof.
  revert i. induction s as [| c s IH]; intros i; simpl.
  - tauto.
  - destruct (in_class cc c) eqn:Hc.
    + rewrite orb_false_r, IH. tauto.
    + split; [discriminate | intros [H _]; discriminate].
Qed.

Lemma all_chars_iff (P Q : ascii -> Prop) (s : string) :
  (forall c, P c <-> Q c) -> all_chars P s <-> all_chars Q s.
Proof.
  intros H. induction s as [| c s IH]; simpl; [tauto |].
  rewrite (H c), IH. tauto.
Qed.

(** Past index 0 the pattern cannot match, so the search loop adds nothing
    to the attempt at index 0. *)
Lemma regex_exec_later (i : nat) (s : string) :
  regex_exec name_pattern (S i) s = false.
Proof.
  revert i. induction s as [| c s IH]; intros i; simpl; [reflexivity |].
  apply IH.
Qed.

Lemma regex_test_name (s : string) :
  regex_test name_pattern s = true <-> is_identifier s.
Proof.
  unfold regex_test. destruct s as [| c s].
  - simpl. split; [discriminate | tauto].
  - cbn [regex_exec]. rewrite regex_exec_later, orb_false_r.
    cbn [name_pattern match_terms Nat.eqb andb is_identifier].
    rewrite andb_true_iff, in_class_start, match_star_end.
    rewrite (all_chars_iff _ ident_part) by apply in_class_part.
    tauto.
Qed.

(** ** C1: the name validator *)

Lemma validateName_string (n : string) :
  validateName (VStr n)
  = if regex_test name_pattern n then inr tt
    else inl (Error ("Invalid table/schema name: " +:+ n)).
Proof. reflexivity. Qed.

Lemma validateName_rejects (n : string) :
  ~ is_identifier n ->
  validateName (VStr n) = inl (Error ("Invalid table/schema name: " +:+ n)).
Proof.
  intros H. rewrite validateName_string.
  destruct (regex_test name_pattern n) eqn:E; [| reflexivity].
  apply regex_test_name in E. contradiction.
Qed.

Section NameValidation.
Context {pool : Pool} {engine : Engine}.

(** C1.  For every string [n], [validateName] returns without error if and
    only if [n] matches [^[A-Za-z_][A-Za-z0-9_]*$]; otherwise it throws the
    invalid-name error, and each of the six operations that validate a name
    then ends in its failure envelope with the store and the list of issued
    statements untouched.  [user_data] is accepted; [2cool], [drop;table]
    and the empty string are rejected. *)
Theorem validateName_accepts_iff_identifier (n : string) :
  (validateName (VStr n) = inr tt <-> is_identifier n)
  /\ (~ is_identifier n ->
      validateName (VStr n)
      = inl (Error ("Invalid table/schema name: " +:+ n))
      /\ forall (arg : value) (w : World),
          (field arg "schemaName" = inr (VStr n) ->
           createDynamicTable arg w
           = (inr (Failure ("Failed to create " +:+ n +:+ " table.")), w))
          /\ (field arg "tableName" = inr (VStr n) ->
              addDataToTable arg w = (inr (Failure "Failed to add data."), w)
              /\ updateDataInTable arg w
                 = (inr (Failure ("Invalid table/schema name: " +:+ n)), w)
              /\ searchDataInTable arg w
                 = (inr (Failure "Failed to search data."), w)
              /\ removeDataFromTable arg w
                 = (inr (Failure "Failed to remove data."), w))
          /\ (field arg "table1" = inr (VStr n) ->
              joinTables arg w
              = (inr (Failure ("Failed to join tables: "
                               +:+ "Invalid table/schema name: " +:+ n)), w))
          /\ (forall t1 : value,
                 field arg "table1" = inr t1 -> validateName t1 = inr tt ->
                 field arg "table2" = inr (VStr n) ->
                 joinTables arg w
                 = (inr (Failure ("Failed to join tables: "
                                  +:+ "Invalid table/schema name: " +:+ n)),
                    w)))
  /\ validateName (VStr "user_data") = inr tt
  /\ validateName (VStr "2cool") <> inr tt
  /\ validateName (VStr "drop;table") <> inr tt
  /\ validateName (VStr "") <> inr tt.
Proof.
  split; [| split].
  - rewrite validateName_string, <- regex_test_name.
    destruct (regex_test name_pattern n); split; congruence.
  - intros Hn. pose proof (validateName_rejects n Hn) as Hv.
    split; [exact Hv |]. intros arg w. repeat split.
    + intros Hf.
      destruct (field_total arg _ "columns" _ Hf) as [cols Hc].
      unfold createDynamicTable, createDynamicTable_body, bind, lift,
        try_catch.
      rewrite Hf, Hc, Hv. reflexivity.
    + destruct (field_total arg _ "data" _ H) as [d Hd].
      unfold addDataToTable, addDataToTable_body, bind, lift, try_catch.
      rewrite H, Hd, Hv. reflexivity.
    + destruct (field_default_total arg _ "updates" _ (VArr []) H)
        as [u Hu].
      destruct (field_default_total arg _ "schemaChanges" _ (VArr []) H)
        as [s Hs].
      unfold updateDataInTable, updateDataInTable_body, bind, lift,
        try_catch.
      rewrite H, Hu, Hs, Hv. reflexivity.
    + destruct (field_default_total arg _ "criteria" _ (VObj []) H)
        as [c Hc].
      unfold searchDataInTable, bind, lift, try_catch.
      rewrite H, Hc, Hv. reflexivity.
    + destruct (field_total arg _ "ids" _ H) as [i Hi].
      unfold removeDataFromTable, removeDataFromTable_body, bind, lift,
        try_catch.
      rewrite H, Hi, Hv. reflexivity.
    + intros Hf.
      destruct (field_total arg _ "table2" _ Hf) as [t2 H2].
      destruct (field_default_total arg _ "joinType" _ (VStr "INNER") Hf)
        as [j Hj].
      destruct (field_total arg _ "onCondition" _ Hf) as [o Ho].
      unfold joinTables, bind, lift, try_catch.
      rewrite Hf, H2, Hj, Ho, Hv. reflexivity.
    + intros t1 Hf Ht1 H2.
      destruct (field_default_total arg _ "joinType" _ (VStr "INNER") Hf)
        as [j Hj].
      destruct (field_total arg _ "onCondition" _ Hf) as [o Ho].
      unfold joinTables, bind, lift, try_catch.
      rewrite Hf, H2, Hj, Ho, Ht1, Hv. reflexivity.
  - split; [reflexivity |].
    repeat split; vm_compute; discriminate.
Qed.

End NameValidation.

Lemma validateName_accepts_iff_identifier_witness :
  validateName (VStr "2cool")
  = inl (Error "Invalid table/schema name: 2cool")
  /\ @removeDataFromTable empty_pool
       (VObj [("tableName", VStr "2cool"); ("ids", VArr [VNum 1])])
       (fresh empty_pool tt)
     = (inr (Failure "Failed to remove data."), fresh empty_pool tt).
Proof.
  assert (Hn : ~ is_identifier "2cool").
  { intros [[[H | H] | H] _]; simpl in H; try lia; discriminate. }
  destruct (@validateName_accepts_iff_identifier empty_pool quiet_engine
              "2cool") as (_ & H & _).
  destruct (H Hn) as [Hv Hops]. split; [exact Hv |].
  destruct (Hops (VObj [("tableName", VStr "2cool"); ("ids", VArr [VNum 1])])
              (fresh empty_pool tt)) as (_ & Ht & _).
  destruct (Ht eq_refl) as (_ & _ & _ & Hr). exact Hr.
Defined.

(** ** Computations that cannot end the process

    The process exits only where a call waits while a rejected promise has
    no handler; a computation put together from pure steps, awaited queries
    and [try] blocks never does. *)

Section NoExit.
Context {pool : Pool}.

Lemma no_exit_ret {A} (a : A) : no_exit (ret a).
Proof. intros w reason w'. discriminate. Qed.

Lemma no_exit_throw {A} (e : exn) : no_exit (@throw _ A e).
Proof. intros w reason w'. discriminate. Qed.

Lemma no_exit_lift {A} (r : res A) : no_exit (lift r).
Proof. intros w reason w'. destruct r; discriminate. Qed.

Lemma no_exit_bind {A B} (m : M A) (k : A -> M B) :
  no_exit m -> (forall a, no_exit (k a)) -> no_exit (bind m k).
Proof.
  intros Hm Hk w reason w'. unfold bind.
  destruct (m w) as [[[e | r] | a] w1] eqn:E.
  - discriminate.
  - exfalso. exact (Hm w r w1 E).
  - apply Hk.
Qed.

Lemma no_exit_query_promise (q : string) (ps : list value) :
  no_exit (query_promise q ps).
Proof.
  intros w reason w'. unfold query_promise.
  destruct (exec (Statement q ps) (store w)); discriminate.
Qed.

Lemma no_exit_pool_query (q : string) (ps : list value) :
  no_exit (pool_query q ps).
Proof.
  apply no_exit_bind; [apply no_exit_query_promise | apply no_exit_lift].
Qed.

Lemma no_exit_for_each {A B} (f : A -> M B) (xs : list A) :
  (forall x, no_exit (f x)) -> no_exit (for_each f xs).
Proof.
  intros Hf. induction xs as [| x xs IH]; cbn [for_each].
  - apply no_exit_ret.
  - apply no_exit_bind; [apply Hf |]. intros y.
    apply no_exit_bind; [exact IH |]. intros ys. apply no_exit_ret.
Qed.

Lemma no_exit_try_catch {A} (body : M A) (handler : exn -> M A) :
  no_exit body -> (forall e, no_exit (handler e)) ->
  no_exit (try_catch body handler).
Proof.
  intros Hb Hh w reason w'. unfold try_catch.
  destruct (body w) as [[[e | r] | a] w1] eqn:E.
  - apply Hh.
  - exfalso. exact (Hb w r w1 E).
  - discriminate.
Qed.

End NoExit.

Ltac never_exits :=
  repeat first
    [ apply no_exit_ret | apply no_exit_throw | apply no_exit_lift
    | apply no_exit_pool_query | apply no_exit_query_promise
    | apply no_exit_bind; [| intros ?]
    | apply no_exit_for_each; intros ?
    | apply no_exit_try_catch; [| intros ?]
    | match goal with
      | |- no_exit (if ?b then _ else _) => destruct b
      | |- no_exit (match ?x with _ => _ end) => destruct x
      end ].

Section BodiesNoExit.
Context {pool : Pool} {engine : Engine}.

Lemma createDynamicTable_body_no_exit (schemaName columns : value) :
  no_exit (createDynamicTable_body schemaName columns).
Proof. unfold createDynamicTable_body. never_exits. Qed.


Lemma removeDataFromTable_body_no_exit (tableName ids : value) :
  no_exit (removeDataFromTable_body tableName ids).
Proof. unfold removeDataFromTable_body. never_exits. Qed.


End BodiesNoExit.

(** ** Awaited queries *)

Section PoolQueries.
Context {pool : Pool}.

Lemma pool_query_run (q : string) (ps : list value) (w : World) :
  pool_query q ps w
  = lift (settled (fst (exec (Statement q ps) (store w))))
      {| store := snd (exec (Statement q ps) (store w));
         issued := issued w ++ [Statement q ps] |}.
Proof.
  unfold pool_query, bind, query_promise, lift, settled.
  destruct (exec (Statement q ps) (store w)) as [[m | rows] d]; reflexivity.
Qed.

End PoolQueries.

(** ** C5: the merged column list *)

Lemma res_map_app {A B} (f : A -> res B) (xs ys : list A) :
  res_map f (xs ++ ys)
  = (let? us := res_map f xs in
     let? vs := res_map f ys in
     inr (us ++ vs)).
Proof.
  induction xs as [| x xs IH]; simpl.
  - destruct (res_map f ys); reflexivity.
  - destruct (f x); simpl; [reflexivity |].
    rewrite IH. destruct (res_map f xs); simpl; [reflexivity |].
    destruct (res_map f ys); reflexivity.
Qed.

Lemma is_default_name_spec (name : value) :
  is_default_name name = true
  <-> exists b, In b baseline_names /\ name = VStr b.
Proof.
  unfold is_default_name, baseline_names. simpl. split.
  - destruct name; simpl; try discriminate.
    rewrite !orb_true_iff, !String.eqb_eq.
    intros [-> | [-> | [-> | H]]]; [eauto 6 .. | discriminate].
  - intros (b & [<- | [<- | [<- | []]]] & ->); reflexivity.
Qed.

Lemma get_present (col : value) (k : string) :
  is_present col -> exists x, get col k = inr x.
Proof.
  intros [H1 H2]. destruct col; simpl; try congruence; eauto;
    repeat case_match; eauto.
Qed.

Lemma baseline_definitions_first (kept : list value) :
  res_map columnDefinition (defaultColumns ++ kept)
  = (let? ds := res_map columnDefinition kept in
     inr (baseline_definitions ++ ds)).
Proof.
  rewrite res_map_app. simpl.
  destruct (res_map columnDefinition kept); reflexivity.
Qed.

Lemma allColumns_selects (columns : list value) :
  Forall is_present columns ->
  exists kept,
    allColumns columns = inr (defaultColumns ++ kept)
    /\ selects differs_from_baseline columns kept.
Proof.
  unfold allColumns. induction 1 as [| col cols Hcol _ IH].
  - exists []. split; [reflexivity | constructor].
  - destruct IH as (kept & Hk & Hsel).
    destruct (get_present col "name" Hcol) as [name Hname].
    cbn [res_filter]. rewrite Hname. cbn [res_bind].
    destruct (res_filter _ cols) as [e | ys] eqn:E; [discriminate |].
    cbn [res_bind] in Hk |- *.
    assert (ys = kept) as -> by (simpl in Hk; congruence).
    destruct (is_default_name name) eqn:Hd; cbn [negb].
    + exists kept. split; [reflexivity |]. apply selects_drop; [| exact Hsel].
      apply is_default_name_spec in Hd as (b & Hb & ->).
      intros Hdiff. exact (Hdiff b Hb Hname).
    + exists (col :: kept). split; [reflexivity |].
      apply selects_keep; [| exact Hsel].
      intros b Hb Hg. rewrite Hname in Hg. injection Hg as ->.
      assert (is_default_name (VStr b) = true) as Ht
          by (apply is_default_name_spec; eauto).
      congruence.
Qed.

Section TableCreation.
Context {pool : Pool} {engine : Engine}.

(** The operation in terms of its [try] block. *)
Lemma createDynamicTable_run (arg schemaName columns : value) (w : World) :
  field arg "schemaName" = inr schemaName ->
  field arg "columns" = inr columns ->
  createDynamicTable arg w
  = match createDynamicTable_body schemaName columns w with
    | (inl _, w') =>
        (match template schemaName with
         | inr s => inr (Failure ("Failed to create " +:+ s +:+ " table."))
         | inl e => inl e
         end, w')
    | (inr env, w') => (inr env, w')
    end.
Proof.
  intros Hs Hc. unfold createDynamicTable, bind, lift, try_catch.
  rewrite Hs, Hc.
  destruct (createDynamicTable_body schemaName columns w)
    as [[[e | r] | env] w'] eqn:E;
    [| exfalso; exact (createDynamicTable_body_no_exit _ _ _ _ _ E)
     | reflexivity].
  destruct (template schemaName); reflexivity.
Qed.

(** C5.  For a non-empty list of caller columns, the merged column list is
    the three baseline columns [id], [created_at], [updated_at] followed by
    exactly the caller columns whose names differ from all baseline names, in
    their order; the definitions of the merged list start with [id SERIAL
    PRIMARY KEY] and the two timestamps, and these are what the one CREATE
    TABLE statement carries.  A caller column [id] of type [text] is dropped:
    the statement defines [id] as the serial primary key. *)
Theorem createDynamicTable_baseline_wins (columns : list value) :
  Forall is_present columns ->
  columns <> [] ->
  (exists kept,
      allColumns columns = inr (defaultColumns ++ kept)
      /\ selects differs_from_baseline columns kept
      /\ res_map columnDefinition (defaultColumns ++ kept)
         = (let? ds := res_map columnDefinition kept in
            inr (baseline_definitions ++ ds))
      /\ forall (schemaName : value) (s : string) (ds : list string)
                (w : World),
          validateName schemaName = inr tt ->
          template schemaName = inr s ->
          res_map columnDefinition kept = inr ds ->
          createDynamicTable_body schemaName (VArr columns) w
          = (let* _ := pool_query
                         ("CREATE TABLE IF NOT EXISTS " +:+ s +:+ " ("
                          +:+ String.concat ", " (baseline_definitions ++ ds)
                          +:+ ")") [] in
             ret (SuccessMessage (s +:+ " table created successfully."))) w)
  /\ allColumns [VObj [("name", VStr "id"); ("type", VStr "text")]]
     = inr defaultColumns
  /\ res_map columnDefinition defaultColumns = inr baseline_definitions.
Proof.
  intros Hp Hne. split; [| split; reflexivity].
  destruct (allColumns_selects columns Hp) as (kept & Hall & Hsel).
  exists kept. repeat split; [exact Hall | exact Hsel | |].
  - apply baseline_definitions_first.
  - intros schemaName s ds w Hv Ht Hds.
    destruct columns as [| c cs]; [congruence |].
    unfold createDynamicTable_body, bind, lift.
    rewrite Hv, Hall, baseline_definitions_first, Hds, Ht. reflexivity.
Qed.

End TableCreation.

Lemma createDynamicTable_baseline_wins_witness :
  @createDynamicTable empty_pool
    (VObj [("schemaName", VStr "widgets");
           ("columns",
            VArr [VObj [("name", VStr "id"); ("type", VStr "text")];
                  VObj [("name", VStr "title"); ("type", VStr "text")]])])
    (fresh empty_pool tt)
  = (inr (SuccessMessage "widgets table created successfully."),
     world_of empty_pool tt
       [Statement
          ("CREATE TABLE IF NOT EXISTS widgets (id SERIAL PRIMARY KEY, "
           +:+ "created_at TIMESTAMPTZ DEFAULT NOW(), "
           +:+ "updated_at TIMESTAMPTZ DEFAULT NOW(), title TEXT NOT NULL)")
          []]).
Proof.
  set (columns := [VObj [("name", VStr "id"); ("type", VStr "text")];
                   VObj [("name", VStr "title"); ("type", VStr "text")]]).
  assert (Hp : Forall is_present columns).
  { repeat constructor; discriminate. }
  assert (Hne : columns <> []) by discriminate.
  destruct (@createDynamicTable_baseline_wins empty_pool columns Hp Hne)
    as [(kept & Hall & _ & _ & Hrun) _].
  assert (kept = [VObj [("name", VStr "title"); ("type", VStr "text")]])
    as -> by (vm_compute in Hall; congruence).
  rewrite (@createDynamicTable_run empty_pool
             (VObj [("schemaName", VStr "widgets"); ("columns", VArr columns)])
             (VStr "widgets") (VArr columns) (fresh empty_pool tt)
             eq_refl eq_refl).
  rewrite (Hrun (VStr "widgets") "widgets" ["title TEXT NOT NULL"]
             (fresh empty_pool tt) eq_refl eq_refl eq_refl).
  reflexivity.
Defined.

(** ** C8: a column of an unsupported type *)

Lemma selects_deterministic {A} (P : A -> Prop) (xs ys ys' : list A) :
  selects P xs ys -> selects P xs ys' -> ys = ys'.
Proof.
  intros H. revert ys'.
  induction H as [| x xs ys Hx _ IH | x xs ys Hx _ IH]; intros ys' H';
    inversion H'; subst; try contradiction; auto.
  f_equal. auto.
Qed.

Lemma res_map_stops {A B} (f : A -> res B) (pre post : list A) (x : A)
  (ys : list B) (e : exn) :
  res_map f pre = inr ys -> f x = inl e ->
  res_map f (pre ++ x :: post) = inl e.
Proof.
  intros Hpre Hx. rewrite res_map_app, Hpre. simpl. rewrite Hx. reflexivity.
Qed.

Lemma strict_eq_str_unsupported (type : value) (s : string) :
  unsupported_type type -> In s supported_types ->
  strict_eq_str type s = false.
Proof.
  intros Hu Hs. destruct type; simpl; try reflexivity.
  destruct (String.eqb s0 s) eqn:E; [| reflexivity].
  apply String.eqb_eq in E. subst. exfalso. exact (Hu s Hs eq_refl).
Qed.

Lemma columnDefinition_unsupported (col type : value) (ty : string) :
  get col "type" = inr type -> unsupported_type type ->
  template type = inr ty ->
  columnDefinition col = inl (Error ("Unsupported column type: " +:+ ty)).
Proof.
  intros Hg Hu Ht. unfold columnDefinition. rewrite Hg. cbn [res_bind].
  rewrite !(strict_eq_str_unsupported type) by (exact Hu || (simpl; tauto)).
  rewrite Ht. reflexivity.
Qed.

Lemma res_filter_keeps {A} (f : A -> res bool) (xs kept : list A) (x : A) :
  res_filter f xs = inr kept -> In x xs -> f x = inr true -> In x kept.
Proof.
  revert kept. induction xs as [| y xs IH]; intros kept Hf Hin Hx;
    [destruct Hin |].
  cbn [res_filter] in Hf.
  destruct (f y) as [e | b] eqn:Hy; [discriminate |]. cbn [res_bind] in Hf.
  destruct (res_filter f xs) as [e | ys]; [discriminate |].
  cbn [res_bind] in Hf. injection Hf as <-.
  destruct Hin as [-> | Hin].
  - rewrite Hx in Hy. injection Hy as <-. now left.
  - specialize (IH ys eq_refl Hin Hx). destruct b; [now right | exact IH].
Qed.

Lemma res_map_fails {A B} (f : A -> res B) (xs : list A) (x : A) (e : exn) :
  In x xs -> f x = inl e -> exists e', res_map f xs = inl e'.
Proof.
  induction xs as [| y xs IH]; intros Hin Hx; [destruct Hin |].
  cbn [res_map]. destruct (f y) as [e0 | z] eqn:Hy; [eauto |].
  cbn [res_bind]. destruct Hin as [-> | Hin]; [congruence |].
  destruct (IH Hin Hx) as [e' ->]. eauto.
Qed.

Lemma columnDefinition_refuses (col type : value) :
  get col "type" = inr type -> unsupported_type type ->
  exists e, columnDefinition col = inl e.
Proof.
  intros Hg Hu. unfold columnDefinition. rewrite Hg. cbn [res_bind].
  rewrite !(strict_eq_str_unsupported type) by (exact Hu || (simpl; tauto)).
  destruct (template type); cbn [res_bind]; eauto.
Qed.

Lemma differs_not_default (col name : value) :
  differs_from_baseline col -> get col "name" = inr name ->
  is_default_name name = false.
Proof.
  intros Hd Hn. destruct (is_default_name name) eqn:E; [| reflexivity].
  apply is_default_name_spec in E as (b & Hb & ->).
  exfalso. exact (Hd b Hb Hn).
Qed.

Section UnsupportedType.
Context {pool : Pool} {engine : Engine}.

(** C8, as the code has it.  When the column list of a call with a valid
    name holds a column whose name is not a baseline name and whose type is
    outside [integer], [text], [timestamp], [boolean], [decimal], the [try]
    block raises before any statement is issued, and the operation returns
    the generic failure envelope [Failed to create <schemaName> table.],
    whatever the other columns are.  What is raised is [Unsupported column
    type: <type>], naming the type verbatim, when no entry of the list is
    null or undefined, the surviving columns before the offending one are
    fine, and the type has a string form. *)
Theorem createDynamicTable_unsupported_type
  (arg schemaName col type : value) (s : string) (columns : list value)
  (w : World) :
  field arg "schemaName" = inr schemaName ->
  field arg "columns" = inr (VArr columns) ->
  validateName schemaName = inr tt ->
  template schemaName = inr s ->
  In col columns ->
  differs_from_baseline col ->
  get col "type" = inr type ->
  unsupported_type type ->
  createDynamicTable arg w
  = (inr (Failure ("Failed to create " +:+ s +:+ " table.")), w)
  /\ (exists e : exn,
         createDynamicTable_body schemaName (VArr columns) w = (inl e, w))
  /\ (forall pre post defs ty,
         Forall is_present columns ->
         selects differs_from_baseline columns (pre ++ col :: post) ->
         res_map columnDefinition pre = inr defs ->
         template type = inr ty ->
         createDynamicTable_body schemaName (VArr columns) w
         = (inl (Error ("Unsupported column type: " +:+ ty)), w)).
Proof.
  intros Hs Hc Hv Ht Hin Hdiff Hg Hu.
  assert (Hbody : exists e : exn,
             createDynamicTable_body schemaName (VArr columns) w
             = (inl e, w)).
  { destruct columns as [| c cs]; [destruct Hin |].
    unfold createDynamicTable_body, bind, lift. rewrite Hv.
    destruct (allColumns (c :: cs)) as [e | all] eqn:Hall; [eauto |].
    unfold allColumns in Hall.
    destruct (res_filter _ (c :: cs)) as [e | kept] eqn:Hkept;
      [discriminate |].
    assert (Hall' : all = defaultColumns ++ kept)
      by (cbn [res_bind] in Hall; congruence).
    subst all. clear Hall.
    assert (Hpresent : is_present col)
      by (split; intros ->; discriminate).
    destruct (get_present col "name" Hpresent) as [name Hname].
    assert (Hk : In col kept).
    { apply (res_filter_keeps _ _ _ _ Hkept Hin).
      rewrite Hname. cbn [res_bind].
      now rewrite (differs_not_default col name Hdiff Hname). }
    destruct (columnDefinition_refuses col type Hg Hu) as [e He].
    destruct (res_map_fails columnDefinition (defaultColumns ++ kept) col e
                ltac:(apply in_or_app; now right) He) as [e' ->].
    eauto. }
  split; [| split; [exact Hbody |]].
  - destruct Hbody as [e Hb].
    rewrite (createDynamicTable_run arg schemaName (VArr columns) w Hs Hc).
    rewrite Hb, Ht. reflexivity.
  - intros pre post defs ty Hp Hsel Hpre Hty.
    destruct (allColumns_selects columns Hp) as (kept & Hall & Hsel').
    rewrite (selects_deterministic _ _ _ _ Hsel' Hsel) in Hall.
    destruct columns as [| c cs]; [destruct Hin |].
    unfold createDynamicTable_body, bind, lift.
    rewrite Hv, Hall, baseline_definitions_first.
    rewrite (res_map_stops _ pre post col defs _ Hpre
               (columnDefinition_unsupported col type ty Hg Hu Hty)).
    reflexivity.
Qed.

End UnsupportedType.

Lemma createDynamicTable_unsupported_type_witness :
  @createDynamicTable empty_pool
    (VObj [("schemaName", VStr "t");
           ("columns",
            VArr [VObj [("name", VStr "x"); ("type", VStr "blob")];
                  VNull])])
    (fresh empty_pool tt)
  = (inr (Failure "Failed to create t table."), fresh empty_pool tt).
Proof.
  set (col := VObj [("name", VStr "x"); ("type", VStr "blob")]).
  refine (proj1 (@createDynamicTable_unsupported_type empty_pool
                   (VObj [("schemaName", VStr "t");
                          ("columns", VArr [col; VNull])])
                   (VStr "t") col (VStr "blob") "t" [col; VNull]
                   (fresh empty_pool tt)
                   eq_refl eq_refl eq_refl eq_refl _ _ eq_refl _)).
  - now left.
  - intros b [<- | [<- | [<- | []]]]; discriminate.
  - intros t [<- | [<- | [<- | [<- | [<- | []]]]]]; discriminate.
Defined.

(** The claim of C8 fails on the code in both of its parts.  A surviving
    column of type [blob] gives a failure envelope whose message does not
    contain [blob]; and a column named [id] of type [blob] is dropped by the
    merge, so that the call succeeds and issues its statement. *)
Lemma createDynamicTable_type_name_not_reported :
  (exists message,
      @createDynamicTable empty_pool
        (VObj [("schemaName", VStr "t");
               ("columns",
                VArr [VObj [("name", VStr "x"); ("type", VStr "blob")]])])
        (fresh empty_pool tt)
      = (inr (Failure message), fresh empty_pool tt)
      /\ contains "blob" message = false)
  /\ @createDynamicTable empty_pool
       (VObj [("schemaName", VStr "t");
              ("columns",
               VArr [VObj [("name", VStr "id"); ("type", VStr "blob")]])])
       (fresh empty_pool tt)
     = (inr (SuccessMessage "t table created successfully."),
        world_of empty_pool tt
          [Statement
             ("CREATE TABLE IF NOT EXISTS t (id SERIAL PRIMARY KEY, "
              +:+ "created_at TIMESTAMPTZ DEFAULT NOW(), "
              +:+ "updated_at TIMESTAMPTZ DEFAULT NOW())")
             []]).
Proof.
  split; [| reflexivity].
  exists "Failed to create t table.". split; reflexivity.
Qed.

(** ** The operations in terms of their [try] blocks *)

Section TryBlocks.
Context {pool : Pool} {engine : Engine}.


Lemma removeDataFromTable_run (arg tableName ids : value) (w : World) :
  field arg "tableName" = inr tableName ->
  field arg "ids" = inr ids ->
  removeDataFromTable arg w
  = match removeDataFromTable_body tableName ids w with
    | (inl _, w') => (inr (Failure "Failed to remove data."), w')
    | (inr env, w') => (inr env, w')
    end.
Proof.
  intros Ht Hi. unfold removeDataFromTable, bind, lift, try_catch.
  rewrite Ht, Hi.
  destruct (removeDataFromTable_body tableName ids w)
    as [[[e | r] | env] w'] eqn:E; try reflexivity.
  exfalso. exact (removeDataFromTable_body_no_exit _ _ _ _ _ E).
Qed.

Lemma updateDataInTable_run (arg tableName updates schemaChanges : value)
  (w : World) :
  field arg "tableName" = inr tableName ->
  field_default arg "updates" (VArr []) = inr updates ->
  field_default arg "schemaChanges" (VArr []) = inr schemaChanges ->
  updateDataInTable arg w
  = match updateDataInTable_body tableName updates schemaChanges w with
    | (inl (Raise error), w') =>
        (inr (Failure (if String.eqb (message_of error) ""
                       then "Failed to update data/schema."
                       else message_of error)), w')
    | (inl (Exit reason), w') => (inl (Exit reason), w')
    | (inr env, w') => (inr env, w')
    end.
Proof.
  intros Ht Hu Hs. unfold updateDataInTable, bind, lift, try_catch.
  rewrite Ht, Hu, Hs.
  destruct (updateDataInTable_body tableName updates schemaChanges w)
    as [[[e | r] | env] w']; reflexivity.
Qed.

End TryBlocks.

(** ** C10: removing with a falsy scalar *)

Section Removal.
Context {pool : Pool} {engine : Engine}.

(** C10.  When [ids] is falsy (the number 0, the empty string, null, ...)
    the [try] block of [removeDataFromTable] throws [No IDs provided.] as soon
    as the table name is validated, and whatever the table name is, the
    operation returns its failure envelope without issuing any statement: in
    particular [ids = 0] does not delete the row with id 0, whereas [ids = 1]
    issues the DELETE for [[1]]. *)
Theorem removeDataFromTable_falsy_ids (arg tableName ids : value) (w : World) :
  field arg "tableName" = inr tableName ->
  field arg "ids" = inr ids ->
  truthy ids = false ->
  removeDataFromTable arg w = (inr (Failure "Failed to remove data."), w)
  /\ (validateName tableName = inr tt ->
      removeDataFromTable_body tableName ids w
      = (inl (Error "No IDs provided."), w))
  /\ truthy (VNum 0) = false /\ truthy (VStr "") = false
  /\ truthy VNull = false
  /\ (validateName tableName = inr tt ->
      forall t, template tableName = inr t ->
      removeDataFromTable_body tableName (VNum 1) w
      = (let* result := pool_query
                          ("DELETE FROM " +:+ t
                           +:+ " WHERE id = ANY($1) RETURNING *")
                          [VArr [VNum 1]] in
         ret (SuccessData result)) w).
Proof.
  intros Ht Hi Hf.
  assert (Hbody : exists e, removeDataFromTable_body tableName ids w
                            = (inl e, w)
                            /\ (validateName tableName = inr tt ->
                                e = Error "No IDs provided.")).
  { unfold removeDataFromTable_body, bind, lift.
    destruct (validateName tableName) as [e | []].
    - exists e. split; [reflexivity | discriminate].
    - rewrite Hf. exists (Error "No IDs provided."). split; reflexivity. }
  destruct Hbody as (e & Hb & He).
  split; [| split; [| repeat split]].
  - rewrite (removeDataFromTable_run arg tableName ids w Ht Hi), Hb.
    reflexivity.
  - intros Hv. rewrite Hb, (He Hv). reflexivity.
  - intros Hv t Htt. unfold removeDataFromTable_body, bind, lift.
    rewrite Hv, Htt. reflexivity.
Qed.

End Removal.

Lemma removeDataFromTable_falsy_ids_witness :
  @removeDataFromTable empty_pool
    (VObj [("tableName", VStr "widgets"); ("ids", VNum 0)])
    (fresh empty_pool tt)
  = (inr (Failure "Failed to remove data."), fresh empty_pool tt).
Proof.
  exact (proj1 (@removeDataFromTable_falsy_ids empty_pool
                  (VObj [("tableName", VStr "widgets"); ("ids", VNum 0)])
                  (VStr "widgets") (VNum 0) (fresh empty_pool tt)
                  eq_refl eq_refl eq_refl)).
Defined.

(** ** C2: the INSERT statement *)





Lemma values_of_keys (r : value) (ks : list string) :
  keys r = inr ks ->
  exists vs, values r = inr vs /\ length vs = length ks.
Proof.
  unfold keys, values. destruct (entries r) as [e | es]; simpl;
    [discriminate |].
  intros [= <-]. exists (map snd es). split; [reflexivity |].
  now rewrite !length_map.
Qed.

Lemma res_map_values (rows : list value) (columns : list string) :
  Forall (fun r => exists ks, keys r = inr ks /\ Permutation ks columns) rows ->
  exists vss,
    res_map values rows = inr vss
    /\ length (concat vss) = length rows * length columns.
Proof.
  induction 1 as [| r rows (ks & Hk & Hperm) _ (vss & Hvss & Hlen)].
  - exists []. split; reflexivity.
  - destruct (values_of_keys r ks Hk) as (vs & Hvs & Hl).
    exists (vs :: vss). cbn [res_map]. rewrite Hvs, Hvss. split;
      [reflexivity |].
    cbn [concat length]. rewrite length_app, Hlen, Hl.
    rewrite (Permutation_length Hperm). lia.
Qed.






Section Insertion.
Context {pool : Pool} {engine : Engine}.


End Insertion.



(** ** The statement of an entry of [updates] *)

Lemma imap_zip_seq {A B C} (g : A -> C) (f : C -> nat -> B) (a : nat)
  (l : list A) :
  imap (fun i x => f (g x) (a + i)) l
  = zip_with f (map g l) (seq a (length l)).
Proof.
  revert a. induction l as [| x l IH]; intros a; [reflexivity |].
  cbn [imap length seq zip_with map]. rewrite Nat.add_0_r. f_equal.
  rewrite <- (IH (S a)). apply imap_ext. intros i y _. simpl.
  f_equal. lia.
Qed.

Lemma setQuery_set_list (es : list (string * value)) :
  setQuery es = set_list (map fst es).
Proof.
  unfold setQuery, set_list. f_equal. rewrite length_map.
  rewrite <- (imap_zip_seq fst
                (fun c n => c +:+ " = " +:+ placeholder n) 1 es).
  apply imap_ext. intros i e _. simpl. do 3 f_equal. lia.
Qed.

Section UpdateEntries.
Context {pool : Pool} {engine : Engine}.

Lemma update_entry_run (tableName entry id data : value) (w : World) :
  field entry "id" = inr id ->
  field entry "data" = inr data ->
  update_entry tableName entry w
  = match update_statement tableName id data with
    | inl e => (inl e, w)
    | inr st => query_promise (sql st) (params st) w
    end.
Proof.
  intros Hi Hd. unfold update_entry, bind, lift. rewrite Hi, Hd.
  destruct (update_statement tableName id data); reflexivity.
Qed.

Lemma query_promise_issued (q : string) (ps : list value) (w : World) :
  exists p w',
    query_promise q ps w = (inr p, w')
    /\ issued w' = issued w ++ [Statement q ps].
Proof.
  unfold query_promise. destruct (exec (Statement q ps) (store w)) as [r d].
  eauto.
Qed.

(** A batch of well-formed entries issues the statement of each entry, in
    the order of the entries. *)
Lemma for_each_update_entry (tableName : value) (entries : list value)
  (sts : list statement) (w : World) :
  Forall2 (entry_statement tableName) entries sts ->
  exists ps w',
    for_each (update_entry tableName) entries w = (inr ps, w')
    /\ issued w' = issued w ++ sts
    /\ length ps = length entries.
Proof.
  intros H. revert w.
  induction H as [| entry st entries sts (id & data & Hi & Hd & Hst) _ IH];
    intros w.
  - exists [], w. rewrite app_nil_r. repeat split.
  - destruct st as [q qs].
    destruct (query_promise_issued q qs w) as (p & w1 & Hq & Hw1).
    destruct (IH w1) as (ps & w2 & Hrest & Hw2 & Hlen).
    exists (p :: ps), w2. cbn [for_each]. unfold bind at 1.
    rewrite (update_entry_run tableName entry id data w Hi Hd), Hst.
    cbn [sql params]. rewrite Hq. unfold bind at 1. rewrite Hrest.
    split; [reflexivity |]. split; [| simpl; congruence].
    rewrite Hw2, Hw1, <- app_assoc. reflexivity.
Qed.

(** With a valid table name, a non-empty batch of well-formed entries and no
    schema change, the [try] block issues exactly the statements of the
    entries. *)
Lemma updateDataInTable_body_issues (tableName : value)
  (entries : list value) (sts : list statement) (w : World) :
  validateName tableName = inr tt ->
  entries <> [] ->
  Forall2 (entry_statement tableName) entries sts ->
  issued (snd (updateDataInTable_body tableName (VArr entries) (VArr []) w))
  = issued w ++ sts.
Proof.
  intros Hv Hne H.
  destruct (for_each_update_entry tableName entries sts w H)
    as (ps & w' & Hrun & Hw & _).
  unfold updateDataInTable_body.
  unfold bind at 1. unfold lift at 1. rewrite Hv.
  unfold bind at 1. unfold lift at 1. cbn [get String.eqb Ascii.eqb Bool.eqb].
  assert (Hlen : (0 < Z.of_nat (length entries))%Z)
    by (destruct entries; [congruence | simpl; lia]).
  cbn [truthy].
  destruct (Z.eqb_spec (Z.of_nat (length entries)) 0) as [E | _]; [lia |].
  cbn [negb]. unfold bind at 1. unfold ret at 1.
  unfold bind at 1. unfold lift at 1. cbn [gt_zero].
  destruct (Z.ltb_spec 0 (Z.of_nat (length entries))) as [_ | E]; [| lia].
  unfold bind at 1. rewrite Hrun.
  unfold bind, lift, ret. cbn [iterate for_each].
  destruct (promise_all ps); simpl; exact Hw.
Qed.

End UpdateEntries.

(** ** C4: the WHERE clause of a search *)

Lemma add_condition_supported (conditions : list string) (vals : list value)
  (e c : string * value) :
  condition_of (length vals + 1) e (Some c) ->
  add_condition (conditions, vals) e
  = inr (conditions ++ [fst c], vals ++ [snd c]).
Proof.
  intros H. inversion H as [key v Hv | key v op sqlOp bound Hv Hop Hb |];
    subst; unfold add_condition; rewrite Hv.
  - reflexivity.
  - unfold operators. cbn [find fst].
    destruct Hop as [H1 | H1 H2 | H1 H2 H3 | H1 H2 H3 H4 | H1 H2 H3 H4 H5];
      repeat match goal with
             | E : has_property _ v = _ |- _ => rewrite E; clear E
             end;
      rewrite Hb; reflexivity.
Qed.

Lemma add_condition_unsupported (acc : list string * list value)
  (n : nat) (key : string) (v : value) :
  condition_of n (key, v) None ->
  add_condition acc (key, v)
  = inl (Error ("Unsupported operator in criteria for key: " +:+ key)).
Proof.
  intros H. inversion H as [| | key' v' Hv Hnone]; subst.
  destruct acc as [conditions vals]. unfold add_condition. rewrite Hv.
  destruct Hnone as (H1 & H2 & H3 & H4 & H5).
  unfold operators. cbn [find fst]. now rewrite H1, H2, H3, H4, H5.
Qed.

Lemma res_fold_app {A S} (f : S -> A -> res S) (s : S) (xs ys : list A) :
  res_fold f s (xs ++ ys)
  = (let? s' := res_fold f s xs in res_fold f s' ys).
Proof.
  revert s. induction xs as [| x xs IH]; intros s; simpl; [reflexivity |].
  destruct (f s x); simpl; [reflexivity | apply IH].
Qed.

(** The fold keeps one value per condition, so that the next placeholder is
    always one more than the number of conditions so far. *)
Lemma res_fold_conditions (n : nat) (es cs : list (string * value)) :
  conditions_from n es cs ->
  forall conditions vals,
    n = length vals + 1 ->
    res_fold add_condition (conditions, vals) es
    = inr (conditions ++ map fst cs, vals ++ map snd cs).
Proof.
  induction 1 as [n | n e es c cs Hc _ IH]; intros conditions vals Hn.
  - simpl. now rewrite !app_nil_r.
  - subst n. cbn [res_fold]. rewrite (add_condition_supported _ _ _ _ Hc).
    cbn [res_bind]. rewrite IH by (rewrite length_app; simpl; lia).
    cbn [map]. now rewrite <- !app_assoc.
Qed.

Lemma append_empty_r (s : string) : s +:+ "" = s.
Proof.
  induction s as [| c s IH]; [reflexivity |].
  change (String c (s +:+ "") = String c s). now rewrite IH.
Qed.

Lemma conditions_from_length (n : nat) (es cs : list (string * value)) :
  conditions_from n es cs -> length cs = length es.
Proof. induction 1; simpl; congruence. Qed.

Lemma search_statement_conditions (t : string) (criteria : value)
  (es cs : list (string * value)) :
  entries criteria = inr es ->
  conditions_from 1 es cs ->
  search_statement t criteria
  = inr (Statement ("SELECT * FROM " +:+ t +:+ where_clause (map fst cs))
                   (map snd cs)).
Proof.
  intros Hes Hcs. unfold search_statement. rewrite Hes. cbn [res_bind].
  rewrite (res_fold_conditions 1 es cs Hcs [] []) by reflexivity.
  cbn [res_bind app]. f_equal. f_equal.
  destruct cs; [| reflexivity]. cbn. now rewrite append_empty_r.
Qed.

Lemma search_statement_unsupported (t : string) (criteria : value)
  (pre post cs : list (string * value)) (key : string) (v : value) :
  entries criteria = inr (pre ++ (key, v) :: post) ->
  conditions_from 1 pre cs ->
  condition_of (length pre + 1) (key, v) None ->
  search_statement t criteria
  = inl (Error ("Unsupported operator in criteria for key: " +:+ key)).
Proof.
  intros Hes Hpre Hbad. unfold search_statement. rewrite Hes.
  cbn [res_bind]. rewrite res_fold_app.
  rewrite (res_fold_conditions 1 pre cs Hpre [] []) by reflexivity.
  cbn [res_bind res_fold].
  rewrite (add_condition_unsupported _ _ key v Hbad). reflexivity.
Qed.

(** Members with distinct keys, none of which is an array index, are listed
    as they were written. *)
Lemma set_prop_fresh (k : string) (v : value) (ps : list (string * value)) :
  ~ In k (map fst ps) -> set_prop k v ps = ps ++ [(k, v)].
Proof.
  induction ps as [| [k' v'] ps IH]; intros Hk; [reflexivity |].
  cbn [set_prop]. destruct (String.eqb_spec k' k) as [-> | _].
  - exfalso. apply Hk. now left.
  - cbn [app]. rewrite IH; [reflexivity |]. intros H. apply Hk. now right.
Qed.

Lemma declared_fold (members acc : list (string * value)) :
  List.NoDup (map fst (acc ++ members)) ->
  fold_left (fun ps m => set_prop (fst m) (snd m) ps) members acc
  = acc ++ members.
Proof.
  revert acc. induction members as [| [k v] members IH]; intros acc Hnd.
  - now rewrite app_nil_r.
  - cbn [fold_left fst snd]. rewrite set_prop_fresh.
    + rewrite IH; rewrite <- app_assoc; [reflexivity | exact Hnd].
    + rewrite map_app in Hnd. cbn [map fst] in Hnd.
      apply List.NoDup_remove_2 in Hnd. intros H. apply Hnd.
      apply in_or_app. now left.
Qed.

Lemma declared_as_written (members : list (string * value)) :
  List.NoDup (map fst members) ->
  Forall (fun m => array_index (fst m) = None) members ->
  declared members = members.
Proof.
  intros Hnd Hidx. unfold declared.
  rewrite (declared_fold members [] Hnd). cbn [app].
  assert (Hnone : forall acc,
             fold_left (fun acc p =>
                          match array_index (fst p) with
                          | Some n => insert_index n p acc
                          | None => acc
                          end) members acc = acc).
  { induction Hidx as [| m members Hm _ IH]; intros acc; [reflexivity |].
    cbn [fold_left]. rewrite Hm. apply IH.
    now apply List.NoDup_cons_iff in Hnd. }
  rewrite Hnone. cbn [map app].
  clear Hnone Hnd. induction Hidx as [| m members Hm _ IH]; [reflexivity |].
  cbn [List.filter]. rewrite Hm. now rewrite IH.
Qed.

Section Search.
Context {pool : Pool} {engine : Engine}.

(** C4, as the code has it.  With a valid table name, a search issues
    exactly one statement and returns its rows, or [Failed to search data.]
    when the store rejects it.  Without criteria the statement is [SELECT *
    FROM t], with no WHERE clause.  An entry with a value that is not an
    object gives [key = $n]; an entry with an object value gives the
    comparison of the first of [$lt], [$gt], [$lte], [$gte], [$ne] the value
    has, whatever other operators it has; when it has none of the five the
    search fails and nothing is issued.  The conditions are joined with AND,
    the first with [$1] and each next one with the next number, and the
    values are bound in the same order: the order in which [Object.entries]
    lists the criteria, which is the order in which they were written when
    the keys are distinct and none is an array index. *)
Theorem search_statement_shape (arg tableName : value) (t : string)
  (w : World) :
  field arg "tableName" = inr tableName ->
  validateName tableName = inr tt ->
  template tableName = inr t ->
  let run st : (stop + envelope) * World :=
    (inr (match fst (exec st (store w)) with
          | inl _ => Failure "Failed to search data."
          | inr rows => SuccessData rows
          end),
     {| store := snd (exec st (store w)); issued := issued w ++ [st] |}) in
  (forall criteria,
      field arg "criteria" = inr criteria ->
      criteria = VUndefined \/ criteria = VObj [] ->
      searchDataInTable arg w = run (Statement ("SELECT * FROM " +:+ t) []))
  /\ (forall criteria es cs,
         field_default arg "criteria" (VObj []) = inr criteria ->
         entries criteria = inr es ->
         conditions_from 1 es cs ->
         searchDataInTable arg w
         = run (Statement
                  ("SELECT * FROM " +:+ t +:+ where_clause (map fst cs))
                  (map snd cs))
         /\ length cs = length es)
  /\ (forall criteria pre post cs key v,
         field_default arg "criteria" (VObj []) = inr criteria ->
         entries criteria = inr (pre ++ (key, v) :: post) ->
         conditions_from 1 pre cs ->
         condition_of (length pre + 1) (key, v) None ->
         searchDataInTable arg w = (inr (Failure "Failed to search data."), w)
         /\ search_statement t criteria
            = inl (Error ("Unsupported operator in criteria for key: "
                          +:+ key)))
  /\ (forall members,
         List.NoDup (map fst members) ->
         Forall (fun m => array_index (fst m) = None) members ->
         declared members = members).
Proof.
  intros Hf Hv Ht run.
  assert (Hrun : forall criteria st,
             field_default arg "criteria" (VObj []) = inr criteria ->
             search_statement t criteria = inr st ->
             searchDataInTable arg w = run st).
  { intros criteria st Hc Hst.
    unfold searchDataInTable, bind, lift, try_catch.
    rewrite Hf, Hc, Hv, Ht, Hst. destruct st as [q ps]. cbn [sql params].
    unfold pool_query, bind, query_promise, lift, run.
    destruct (exec (Statement q ps) (store w)) as [[m | rows] d];
      reflexivity. }
  split; [| split; [| split]].
  - intros criteria Hc Hempty.
    apply (Hrun (VObj [])).
    + unfold field_default. rewrite Hc.
      destruct Hempty as [-> | ->]; reflexivity.
    + unfold search_statement. cbn. now rewrite append_empty_r.
  - intros criteria es cs Hc Hes Hcs.
    split; [| exact (conditions_from_length _ _ _ Hcs)].
    apply (Hrun criteria); [exact Hc |].
    exact (search_statement_conditions t criteria es cs Hes Hcs).
  - intros criteria pre post cs key v Hc Hes Hpre Hbad.
    pose proof (search_statement_unsupported t criteria pre post cs key v
                  Hes Hpre Hbad) as Hst.
    split; [| exact Hst].
    unfold searchDataInTable, bind, lift, try_catch.
    rewrite Hf, Hc, Hv, Ht, Hst. reflexivity.
  - exact declared_as_written.
Qed.

End Search.

Lemma search_statement_shape_witness :
  @searchDataInTable empty_pool
    (VObj [("tableName", VStr "widgets");
           ("criteria",
            VObj [("id", VObj [("$gte", VNum 1); ("$gt", VNum 5)]);
                  ("name", VStr "x")])])
    (fresh empty_pool tt)
  = (inr (SuccessData []),
     world_of empty_pool tt
       [Statement "SELECT * FROM widgets WHERE id > $1 AND name = $2"
          [VNum 5; VStr "x"]]).
Proof.
  destruct (@search_statement_shape empty_pool
              (VObj [("tableName", VStr "widgets");
                     ("criteria",
                      VObj [("id", VObj [("$gte", VNum 1); ("$gt", VNum 5)]);
                            ("name", VStr "x")])])
              (VStr "widgets") "widgets" (fresh empty_pool tt)
              eq_refl eq_refl eq_refl) as (_ & Hok & _).
  destruct (Hok (VObj [("id", VObj [("$gte", VNum 1); ("$gt", VNum 5)]);
                       ("name", VStr "x")])
              [("id", VObj [("$gte", VNum 1); ("$gt", VNum 5)]);
               ("name", VStr "x")]
              [("id > " +:+ placeholder 1, VNum 5);
               ("name = " +:+ placeholder 2, VStr "x")] eq_refl eq_refl)
    as [Hst _].
  - apply conditions_cons.
    + apply (condition_compare 1 "id"
               (VObj [("$gte", VNum 1); ("$gt", VNum 5)]) "$gt" ">"
               (VNum 5) eq_refl); [| reflexivity].
      apply selects_gt; reflexivity.
    + apply conditions_cons; [| constructor].
      apply (condition_equal 2 "name" (VStr "x") eq_refl).
  - rewrite Hst. reflexivity.
Defined.

(** The claim of C4 fails on the code for criteria with a key that is an
    array index: the object lists such a key before the others, so that the
    conditions and their placeholders do not follow the order in which the
    criteria were written. *)
Lemma searchDataInTable_index_keys_first :
  declared [("name", VStr "x"); ("1", VNum 5)]
  = [("1", VNum 5); ("name", VStr "x")]
  /\ @searchDataInTable empty_pool
       (VObj [("tableName", VStr "widgets");
              ("criteria",
               VObj (declared [("name", VStr "x"); ("1", VNum 5)]))])
       (fresh empty_pool tt)
     = (inr (SuccessData []),
        world_of empty_pool tt
          [Statement "SELECT * FROM widgets WHERE 1 = $1 AND name = $2"
             [VNum 5; VStr "x"]]).
Proof. split; reflexivity. Qed.

(** ** updateDataInTable: the statements of a call *)

Lemma world_eta `{Pool} (w : World) :
  {| store := store w; issued := issued w |} = w.
Proof. destruct w; reflexivity. Qed.

Lemma first_rejection_settled (answers : list (string + list value)) :
  first_rejection (map settled answers)
  = option_map StoreError (first_error answers).
Proof.
  induction answers as [| [m | rows] answers IH]; cbn; congruence.
Qed.

Lemma promise_all_settled (answers : list (string + list value)) :
  match first_error answers with
  | Some m => promise_all (map settled answers) = inl (StoreError m)
  | None =>
      exists results,
        promise_all (map settled answers) = inr results
        /\ concat results = rows_of answers
  end.
Proof.
  unfold promise_all.
  induction answers as [| [m | rows] answers IH]; cbn [map res_map settled
    first_error rows_of res_bind].
  - exists []. split; reflexivity.
  - reflexivity.
  - destruct (first_error answers) as [m |].
    + rewrite IH. reflexivity.
    + destruct IH as (results & -> & Hc). exists (rows :: results).
      split; [reflexivity |]. cbn [concat]. now rewrite Hc.
Qed.

Lemma awaited_prefix `{Pool} (qs : list string) (d : DB) :
  exists done,
    fst (fst (awaited (map ddl_statement qs) d)) = map ddl_statement done
    /\ done `prefix_of` qs
    /\ (snd (fst (awaited (map ddl_statement qs) d)) = None -> done = qs).
Proof.
  revert d. induction qs as [| q qs IH]; intros d; cbn [map awaited].
  - exists []. repeat split. apply prefix_nil.
  - destruct (exec (ddl_statement q) d) as [[m | rows] d1].
    + exists [q]. cbn. split; [reflexivity |].
      split; [apply prefix_cons, prefix_nil | discriminate].
    + destruct (IH d1) as (done & Hd & Hp & Hall).
      destruct (awaited (map ddl_statement qs) d1) as [[done' rej] d2].
      cbn [fst snd] in *. exists (q :: done). cbn [map]. rewrite Hd.
      split; [reflexivity |]. split; [now apply prefix_cons |].
      intros Hr. f_equal. auto.
Qed.

Section UpdateRun.
Context {pool : Pool} {engine : Engine}.

Lemma for_each_cons {A B} (f : A -> M B) (x : A) (xs : list A) (w : World) :
  for_each f (x :: xs) w
  = match f x w with
    | (inl e, w1) => (inl e, w1)
    | (inr y, w1) =>
        match for_each f xs w1 with
        | (inl e, w2) => (inl e, w2)
        | (inr ys, w2) => (inr (y :: ys), w2)
        end
    end.
Proof.
  cbn [for_each]. unfold bind, ret.
  destruct (f x w) as [[e | y] w1]; [reflexivity |].
  destruct (for_each f xs w1) as [[e | ys] w2]; reflexivity.
Qed.

(** A traversal ends at the first callback that raises. *)
Lemma for_each_stops {A B} (f : A -> M B) (pre post : list A) (x : A)
  (ys : list B) (e : stop) (w w1 w2 : World) :
  for_each f pre w = (inr ys, w1) ->
  f x w1 = (inl e, w2) ->
  for_each f (pre ++ x :: post) w = (inl e, w2).
Proof.
  revert ys w. induction pre as [| a pre IH]; intros ys w Hpre Hx.
  - cbn in Hpre. injection Hpre as _ <-. cbn [app].
    rewrite for_each_cons. now rewrite Hx.
  - cbn [app] in *. rewrite for_each_cons in Hpre |- *.
    destruct (f a w) as [[e0 | y] w0]; [discriminate |].
    destruct (for_each f pre w0) as [[e1 | ys0] w3] eqn:E; [discriminate |].
    injection Hpre as _ <-.
    now rewrite (IH ys0 w0 E Hx).
Qed.

(** The statement of a well-formed entry, as the code builds it. *)
Lemma entry_update_statement (tableName entry : value) (t : string)
  (st : statement) :
  template tableName = inr t ->
  entry_update t entry st -> entry_statement tableName entry st.
Proof.
  intros Ht (id & data & es & Hi & Hd & Hid & [ids Hids] & Hdata & Hes & Hne
             & ->).
  exists id, data. split; [exact Hi |]. split; [exact Hd |].
  unfold update_statement, keys, values. rewrite Hid, Hdata, Hes.
  cbn [negb orb res_bind]. rewrite length_map.
  destruct es as [| e es']; [congruence |].
  cbn [length Nat.eqb]. rewrite Ht, Hids. cbn [res_bind].
  unfold update_sql. rewrite setQuery_set_list.
  rewrite length_app, !length_map. reflexivity.
Qed.

(** The promises of a batch of well-formed entries are the answers of the
    store to their statements. *)
Lemma for_each_update_serve (tableName : value) (entries : list value)
  (sts : list statement) (w : World) :
  Forall2 (entry_statement tableName) entries sts ->
  for_each (update_entry tableName) entries w
  = (inr (map settled (fst (serve sts (store w)))),
     {| store := snd (serve sts (store w)); issued := issued w ++ sts |}).
Proof.
  intros H. revert w.
  induction H as [| entry st entries sts (id & data & Hi & Hd & Hst) _ IH];
    intros w.
  - cbn. unfold ret. now rewrite app_nil_r, world_eta.
  - rewrite for_each_cons.
    rewrite (update_entry_run tableName entry id data w Hi Hd), Hst.
    unfold query_promise. cbn [serve].
    destruct st as [q ps]. cbn [sql params].
    destruct (exec (Statement q ps) (store w)) as [r d].
    rewrite IH. cbn [store issued].
    destruct (serve sts d) as [answers d2]. cbn [fst snd map].
    rewrite <- app_assoc. reflexivity.
Qed.


(** The statements of a request, as the code builds them. *)
Lemma planned_alterQueries (tableName change : value) (t : string)
  (qs : list string) :
  template tableName = inr t ->
  planned t change qs ->
  alterQueries tableName change = inr qs /\ qs <> [].
Proof.
  intros Ht (column & c & type & constraint & tqs & cqs & Hcol & Hct & Hc
             & Hty & Hcon & Hsome & Htq & Hcq & ->).
  assert (Ht1 : forall s, s <> "" -> truthy (VStr s) = true).
  { intros s Hs. cbn. now destruct (String.eqb_spec s ""). }
  assert (Hcons : (truthy constraint = false /\ cqs = [])
                  \/ (truthy constraint = true /\ cqs <> []
                      /\ constraint_queries t c constraint = inr cqs)).
  { destruct Hcq as [[Hf ->] | (s & -> & Hs & Hk)]; [now left |].
    right. split; [exact (Ht1 s Hs) |].
    unfold constraint_queries. cbn [call_toUpperCase res_bind].
    destruct Hk as [[Hu ->] | [[Hu ->] | [Hu ->]]]; rewrite Hu;
      split; (discriminate || reflexivity). }
  assert (Htype : (truthy type = false /\ tqs = [])
                  \/ (truthy type = true /\ tqs <> []
                      /\ exists ty, template type = inr ty
                         /\ tqs = ["ALTER TABLE " +:+ t +:+ " ALTER COLUMN "
                                   +:+ c +:+ " SET DATA TYPE " +:+ ty])).
  { destruct Htq as [[Hf ->] | (Htr & ty & Hty' & ->)]; [now left |].
    right. split; [exact Htr |]. split; [discriminate | eauto]. }
  unfold alterQueries. rewrite Hcol, Hty, Hcon. cbn [res_bind].
  rewrite Hct, Ht, Hc. cbn [negb orb res_bind].
  destruct Htype as [[Htf ->] | (Htt & Htne & ty & Hty' & ->)];
    destruct Hcons as [[Hcf ->] | (Hctt & Hcne & Hq)];
    rewrite ?Htf, ?Htt, ?Hcf, ?Hctt, ?Hty', ?Hq; cbn [negb andb res_bind app].
  - destruct Hsome; congruence.
  - split; [reflexivity | exact Hcne].
  - split; [reflexivity | discriminate].
  - split; [reflexivity | discriminate].
Qed.

(** Without a rejected promise pending, the statements of the loop are
    awaited one after the other. *)
Lemma for_each_await_none (pending : list (res (list value)))
  (qs : list string) (w : World) :
  first_rejection pending = None ->
  exists rows,
    for_each (await_query pending) qs w
    = (match snd (fst (awaited (map ddl_statement qs) (store w))) with
       | Some m => inl (Raise (StoreError m))
       | None => inr rows
       end,
       {| store := snd (awaited (map ddl_statement qs) (store w));
          issued := issued w
                    ++ fst (fst (awaited (map ddl_statement qs) (store w))) |}).
Proof.
  intros Hnone. revert w. induction qs as [| q qs IH]; intros w.
  - exists []. cbn. unfold ret. now rewrite app_nil_r, world_eta.
  - rewrite for_each_cons. cbn [map awaited].
    unfold await_query at 1, bind, query_promise. rewrite Hnone.
    fold (ddl_statement q).
    destruct (exec (ddl_statement q) (store w)) as [[m | rows] d1];
      cbn [lift].
    + exists []. reflexivity.
    + set (w1 := {| store := d1; issued := issued w ++ [ddl_statement q] |}).
      destruct (IH w1) as (rest & ->). cbn [store issued w1].
      destruct (awaited (map ddl_statement qs) d1) as [[done rej] d2].
      cbn [fst snd]. exists (rows :: rest).
      rewrite <- app_assoc. destruct rej; reflexivity.
Qed.

Lemma awaited_app (a b : list statement) (d : DB) :
  awaited (a ++ b) d
  = match awaited a d with
    | (done, Some m, d1) => (done, Some m, d1)
    | (done, None, d1) =>
        let '(done', rejection, d2) := awaited b d1 in
        (done ++ done', rejection, d2)
    end.
Proof.
  revert d. induction a as [| st a IH]; intros d; cbn [app awaited].
  - destruct (awaited b d) as [[done rej] d2]. reflexivity.
  - destruct (exec st d) as [[m | rows] d1]; [reflexivity |].
    rewrite IH. destruct (awaited a d1) as [[done [m |]] d2];
      [reflexivity |].
    destruct (awaited b d2) as [[done' rej] d3]. reflexivity.
Qed.

Lemma for_each_changes_none (pending : list (res (list value)))
  (tableName : value) (changes : list value) (qss : list (list string))
  (w : World) :
  first_rejection pending = None ->
  Forall2 (fun change qs => alterQueries tableName change = inr qs)
          changes qss ->
  exists us,
    for_each (schema_change_pending pending tableName) changes w
    = (match snd (fst (awaited (map ddl_statement (concat qss)) (store w)))
       with
       | Some m => inl (Raise (StoreError m))
       | None => inr us
       end,
       {| store := snd (awaited (map ddl_statement (concat qss)) (store w));
          issued := issued w
                    ++ fst (fst (awaited (map ddl_statement (concat qss))
                                   (store w))) |}).
Proof.
  intros Hnone H. revert w.
  induction H as [| change qs changes qss Hq _ IH]; intros w.
  - exists []. cbn. unfold ret. now rewrite app_nil_r, world_eta.
  - rewrite for_each_cons. unfold schema_change_pending at 1.
    unfold bind at 1. unfold lift at 1. rewrite Hq.
    unfold bind at 1.
    destruct (for_each_await_none pending qs w Hnone) as (rows & ->).
    cbn [concat]. rewrite map_app, awaited_app.
    destruct (awaited (map ddl_statement qs) (store w))
      as [[done [m |]] d1]; cbn [fst snd].
    + exists []. reflexivity.
    + unfold ret at 1.
      set (w1 := {| store := d1; issued := issued w ++ done |}).
      destruct (IH w1) as (us & ->). cbn [store issued w1].
      destruct (awaited (map ddl_statement (concat qss)) d1)
        as [[done' rej] d2]. cbn [fst snd].
      exists (tt :: us). rewrite <- app_assoc. destruct rej; reflexivity.
Qed.

(** With a rejected promise pending, the process exits while the first
    statement of the loop is awaited. *)
Lemma for_each_changes_exit (pending : list (res (list value)))
  (reason : exn) (tableName change : value) (changes : list value)
  (q : string) (qs : list string) (w : World) :
  first_rejection pending = Some reason ->
  alterQueries tableName change = inr (q :: qs) ->
  for_each (schema_change_pending pending tableName) (change :: changes) w
  = (inl (Exit reason),
     {| store := snd (exec (ddl_statement q) (store w));
        issued := issued w ++ [ddl_statement q] |}).
Proof.
  intros Hsome Hq. rewrite for_each_cons.
  unfold schema_change_pending, bind, lift. rewrite Hq.
  rewrite for_each_cons. unfold await_query, bind, query_promise.
  rewrite Hsome. fold (ddl_statement q).
  destruct (exec (ddl_statement q) (store w)) as [r d]. reflexivity.
Qed.

(** The [try] block on arrays that are not both empty. *)
Lemma updateDataInTable_body_arrays (tableName : value)
  (entries changes : list value) (w : World) :
  validateName tableName = inr tt ->
  entries <> [] \/ changes <> [] ->
  updateDataInTable_body tableName (VArr entries) (VArr changes) w
  = (let* queries := for_each (update_entry tableName) entries in
     let* _ := for_each (schema_change_pending queries tableName) changes in
     let* results := lift (promise_all queries) in
     ret (SuccessData (concat results))) w.
Proof.
  intros Hv Hwork. unfold updateDataInTable_body.
  unfold bind at 1. unfold lift at 1. rewrite Hv.
  unfold bind at 1. unfold lift at 1.
  cbn [get String.eqb Ascii.eqb Bool.eqb truthy].
  destruct entries as [| entry entries].
  - destruct changes as [| change changes]; [destruct Hwork; congruence |].
    reflexivity.
  - assert (Hlen : (0 < Z.of_nat (length (entry :: entries)))%Z)
      by (simpl; lia).
    destruct (Z.eqb_spec (Z.of_nat (length (entry :: entries))) 0)
      as [E | _]; [lia |].
    cbn [negb]. unfold bind at 1. unfold ret at 1.
    unfold bind at 1. unfold lift at 1. cbn [gt_zero].
    destruct (Z.ltb_spec 0 (Z.of_nat (length (entry :: entries))))
      as [_ | E]; [| lia].
    reflexivity.
Qed.

(** An update call with well-formed entries and schema change requests. *)
Lemma updateDataInTable_valid (arg tableName : value) (t : string)
  (entries changes : list value) (sts : list statement)
  (qss : list (list string)) (w : World) :
  field arg "tableName" = inr tableName ->
  validateName tableName = inr tt ->
  template tableName = inr t ->
  field_default arg "updates" (VArr []) = inr (VArr entries) ->
  field_default arg "schemaChanges" (VArr []) = inr (VArr changes) ->
  entries <> [] \/ changes <> [] ->
  Forall2 (entry_update t) entries sts ->
  Forall2 (planned t) changes qss ->
  updateDataInTable arg w = update_outcome sts (concat qss) w.
Proof.
  intros Hf Hv Ht Hu Hs Hwork Hentries Hchanges.
  assert (Hsts : Forall2 (entry_statement tableName) entries sts).
  { eapply Forall2_impl; [exact Hentries |].
    intros entry st. now apply entry_update_statement. }
  assert (Hqss : Forall2 (fun change qs =>
                            alterQueries tableName change = inr qs)
                         changes qss).
  { eapply Forall2_impl; [exact Hchanges |].
    intros change qs Hp. exact (proj1 (planned_alterQueries _ _ _ _ Ht Hp)). }
  rewrite (updateDataInTable_run arg tableName (VArr entries) (VArr changes)
             w Hf Hu Hs).
  rewrite (updateDataInTable_body_arrays tableName entries changes w Hv
             Hwork).
  unfold bind at 1. rewrite (for_each_update_serve tableName entries sts w
                               Hsts).
  unfold update_outcome.
  destruct (serve sts (store w)) as [answers d1]. cbn [fst snd].
  set (w1 := {| store := d1; issued := issued w ++ sts |}).
  pose proof (first_rejection_settled answers) as Hrej.
  pose proof (promise_all_settled answers) as Hall.
  destruct (first_error answers) as [m |]; cbn [option_map] in Hrej.
  - (* a data statement is rejected *)
    destruct Hchanges as [| change qs changes qss Hp _].
    + cbn [concat for_each]. unfold bind, ret, lift. rewrite Hall.
      reflexivity.
    + destruct (planned_alterQueries _ _ _ _ Ht Hp) as [Hq Hne].
      destruct qs as [| q qs]; [congruence |]. cbn [concat app].
      unfold bind at 1.
      rewrite (for_each_changes_exit _ _ tableName change changes q qs w1
                 Hrej Hq).
      cbn [store issued w1]. now rewrite <- app_assoc.
  - destruct Hall as (results & Hres & Hrows).
    unfold bind at 1.
    destruct (for_each_changes_none _ tableName changes qss w1 Hrej Hqss)
      as (us & ->).
    cbn [store issued w1].
    destruct (awaited (map ddl_statement (concat qss)) d1)
      as [[done [m |]] d2]; cbn [fst snd].
    + rewrite <- app_assoc. reflexivity.
    + unfold bind, lift, ret. rewrite Hres, Hrows, <- app_assoc.
      reflexivity.
Qed.

End UpdateRun.

(** ** C3: the UPDATE statements of a call *)


Lemma update_outcome_issued `{Pool} (sts : list statement)
  (qs : list string) (w : World) :
  exists done,
    done `prefix_of` qs
    /\ issued (snd (update_outcome sts qs w))
       = issued w ++ sts ++ map ddl_statement done
    /\ (forall env,
           fst (update_outcome sts qs w) = inr env -> success env = true ->
           done = qs).
Proof.
  unfold update_outcome. destruct (serve sts (store w)) as [answers d1].
  destruct (first_error answers) as [m |].
  - destruct qs as [| q qs].
    + exists []. cbn. rewrite app_nil_r.
      split; [apply prefix_nil | split; [reflexivity | reflexivity]].
    + exists [q]. cbn [fst snd issued map].
      split; [apply prefix_cons, prefix_nil |].
      split; [reflexivity | discriminate].
  - destruct (awaited_prefix qs d1) as (done & Hd & Hp & Hall).
    destruct (awaited (map ddl_statement qs) d1) as [[done' rej] d2].
    cbn [fst snd issued] in *. exists done. split; [exact Hp |].
    split; [now rewrite Hd |].
    destruct rej as [m |]; [| auto].
    unfold update_failure. intros env [= <-]. discriminate.
Qed.

Section Updates.
Context {pool : Pool} {engine : Engine}.



End Updates.


(** ** C9: the UNIQUE schema change *)

Lemma append_cons (c : ascii) (s t : string) :
  String c s +:+ t = String c (s +:+ t).
Proof. reflexivity. Qed.

Lemma no_space_append (a b : string) :
  no_space a -> no_space b -> no_space (a +:+ b).
Proof.
  unfold no_space. induction a as [| c a IH]; intros Ha Hb; [exact Hb |].
  rewrite append_cons. destruct Ha as [Hc Ha]. split; [exact Hc | auto].
Qed.

Lemma words_single (a : string) : no_space a -> words a = [a].
Proof.
  unfold no_space. induction a as [| c a IH]; [reflexivity |].
  intros [Hc Ha]. cbn [words]. rewrite (IH Ha).
  destruct (Ascii.eqb_spec c " "); [contradiction | reflexivity].
Qed.

Lemma words_first (a rest : string) :
  no_space a -> words (a +:+ " " +:+ rest) = a :: words rest.
Proof.
  unfold no_space. induction a as [| c a IH]; [reflexivity |].
  intros [Hc Ha]. rewrite append_cons. cbn [words]. rewrite (IH Ha).
  destruct (Ascii.eqb_spec c " "); [contradiction | reflexivity].
Qed.

Lemma identifier_no_space (s : string) : is_identifier s -> no_space s.
Proof.
  assert (Hpart : forall c, ident_part c -> c <> " "%char).
  { intros c Hp Hc. subst c.
    destruct Hp as [[H | H] | [H | H]]; unfold is_digit in *; simpl in H;
      try lia; discriminate. }
  destruct s as [| c s]; [intros [] |]. intros [Hc Hs]. split.
  - apply Hpart. destruct Hc as [H | H]; [left; exact H | right; right; exact H].
  - clear Hc. induction s as [| d s IH]; [exact I |].
    destruct Hs as [Hd Hs]. split; [apply Hpart, Hd | apply IH, Hs].
Qed.

Lemma without_closing_append (c : string) :
  without_closing (c +:+ ")") = Some c.
Proof.
  induction c as [| ch c IH]; [reflexivity |].
  rewrite append_cons. cbn [without_closing]. rewrite IH.
  destruct c; reflexivity.
Qed.

Ltac literal_no_space :=
  unfold no_space; cbn [all_chars]; repeat split; discriminate.

Lemma parse_drop_constraint (t n : string) :
  no_space t -> no_space n ->
  parse_ddl (drop_constraint_sql t n) = Some (DropConstraintIfExists t n).
Proof.
  intros Ht Hn. unfold parse_ddl, drop_constraint_sql.
  change ("ALTER TABLE " +:+ t +:+ " DROP CONSTRAINT IF EXISTS " +:+ n)
    with ("ALTER" +:+ " " +:+ "TABLE" +:+ " " +:+ t +:+ " " +:+ "DROP"
          +:+ " " +:+ "CONSTRAINT" +:+ " " +:+ "IF" +:+ " " +:+ "EXISTS"
          +:+ " " +:+ n).
  rewrite !words_first by (exact Ht || literal_no_space).
  rewrite (words_single n Hn). reflexivity.
Qed.

Lemma parse_add_unique (t n c : string) :
  no_space t -> no_space n -> no_space c ->
  parse_ddl (add_unique_sql t n c) = Some (AddUnique t n c).
Proof.
  intros Ht Hn Hc. unfold parse_ddl, add_unique_sql.
  change ("ALTER TABLE " +:+ t +:+ " ADD CONSTRAINT " +:+ n
          +:+ " UNIQUE (" +:+ c +:+ ")")
    with ("ALTER" +:+ " " +:+ "TABLE" +:+ " " +:+ t +:+ " " +:+ "ADD"
          +:+ " " +:+ "CONSTRAINT" +:+ " " +:+ n +:+ " " +:+ "UNIQUE"
          +:+ " " +:+ "(" +:+ c +:+ ")").
  rewrite !words_first by (exact Ht || exact Hn || literal_no_space).
  rewrite words_single.
  - cbn [String.eqb Ascii.eqb Bool.eqb andb].
    change ("(" +:+ c +:+ ")") with (String "(" (c +:+ ")")).
    cbn [unparenthesised Ascii.eqb Bool.eqb]. rewrite without_closing_append.
    reflexivity.
  - apply (no_space_append "("); [literal_no_space |].
    apply no_space_append; [exact Hc | literal_no_space].
Qed.

Lemma toUpperCase_nonempty (s : string) :
  toUpperCase s = "UNIQUE" -> String.eqb s "" = false.
Proof. destruct s; [discriminate | reflexivity]. Qed.

Lemma unique_is_truthy (constraint : value) :
  call_toUpperCase constraint = inr "UNIQUE" -> truthy constraint = true.
Proof.
  destruct constraint; simpl; try discriminate.
  intros [= H]. now rewrite (toUpperCase_nonempty s H).
Qed.

Lemma constraint_queries_unique (t c : string) (constraint : value) :
  call_toUpperCase constraint = inr "UNIQUE" ->
  constraint_queries t c constraint
  = inr [ drop_constraint_sql t (constraint_name t c);
          add_unique_sql t (constraint_name t c) c ].
Proof. intros H. unfold constraint_queries. rewrite H. reflexivity. Qed.

Lemma unique_effect_idempotent (admits : string -> string -> bool)
  (t c : string) (cat : gmap (string * string) table_constraint) :
  unique_effect admits t c (unique_effect admits t c cat)
  = unique_effect admits t c cat.
Proof.
  unfold unique_effect. destruct (admits t c).
  - now rewrite delete_insert_eq, delete_delete_eq.
  - now rewrite delete_delete_eq.
Qed.

Lemma validateName_identifier (v : value) (t : string) :
  validateName v = inr tt -> template v = inr t -> is_identifier t.
Proof.
  unfold validateName. intros Hv Ht. rewrite Ht in Hv. cbn [res_bind] in Hv.
  destruct (regex_test name_pattern t) eqn:E; [| discriminate].
  now apply regex_test_name.
Qed.

Lemma unique_constraint_string (constraint : value) :
  call_toUpperCase constraint = inr "UNIQUE" ->
  exists s, constraint = VStr s /\ s <> "" /\ toUpperCase s = "UNIQUE".
Proof.
  destruct constraint; cbn; try discriminate.
  intros [= H]. exists s. split; [reflexivity |]. split; [| exact H].
  intros ->. discriminate.
Qed.

(** The pair of a UNIQUE request on the catalogue. *)
Lemma awaited_unique_pair (admits : string -> string -> bool) (t c : string)
  (cat : gmap (string * string) table_constraint) :
  no_space t -> no_space c ->
  @awaited (catalogue_pool admits)
    [ddl_statement (drop_constraint_sql t (constraint_name t c));
     ddl_statement (add_unique_sql t (constraint_name t c) c)] cat
  = ([ddl_statement (drop_constraint_sql t (constraint_name t c));
      ddl_statement (add_unique_sql t (constraint_name t c) c)],
     if admits t c then None else Some "could not create unique index",
     unique_effect admits t c cat).
Proof.
  intros Ht Hc.
  assert (Hn : no_space (constraint_name t c)).
  { unfold constraint_name.
    repeat apply no_space_append; try assumption; literal_no_space. }
  unfold unique_effect. cbn [awaited exec catalogue_pool sql ddl_statement].
  rewrite (parse_drop_constraint t _ Ht Hn). cbn [run_ddl].
  rewrite (parse_add_unique t _ c Ht Hn Hc). cbn [run_ddl].
  rewrite lookup_delete_eq. destruct (admits t c); reflexivity.
Qed.

Section UniqueRequest.
Context {pool : Pool} {engine : Engine}.

(** C9.  An update call whose one schema change request has the constraint
    UNIQUE (in any letter case) and no type issues exactly the pair: drop
    the constraint named [<table>_<column>_constraint] if it exists, then,
    once the store has accepted that, add a UNIQUE constraint on the column
    under the same name; with a type, the type change is issued before the
    pair.  On the store's catalogue of constraints, making the call twice
    leaves the same catalogue as making it once, and whatever constraint
    bore the generated name before is gone: the name then holds the UNIQUE
    constraint, or nothing if the rows do not admit it. *)
Theorem unique_request_statements
  (arg tableName change column type constraint : value) (t c : string)
  (w : World) :
  field arg "tableName" = inr tableName ->
  validateName tableName = inr tt ->
  template tableName = inr t ->
  field_default arg "updates" (VArr []) = inr (VArr []) ->
  field_default arg "schemaChanges" (VArr []) = inr (VArr [change]) ->
  field change "column" = inr column ->
  truthy column = true ->
  template column = inr c ->
  field change "type" = inr type ->
  field change "constraint" = inr constraint ->
  call_toUpperCase constraint = inr "UNIQUE" ->
  let drop := ddl_statement (drop_constraint_sql t (constraint_name t c)) in
  let add := ddl_statement (add_unique_sql t (constraint_name t c) c) in
  (truthy type = false ->
   updateDataInTable arg w
   = match exec drop (store w) with
     | (inl m, d1) =>
         (inr (update_failure m),
          {| store := d1; issued := issued w ++ [drop] |})
     | (inr _, d1) =>
         (inr (match fst (exec add d1) with
               | inl m => update_failure m
               | inr _ => SuccessData []
               end),
          {| store := snd (exec add d1); issued := issued w ++ [drop; add] |})
     end)
  /\ (forall ty,
         truthy type = true -> template type = inr ty ->
         exists done,
           done `prefix_of`
             [ddl_statement ("ALTER TABLE " +:+ t +:+ " ALTER COLUMN " +:+ c
                             +:+ " SET DATA TYPE " +:+ ty); drop; add]
           /\ issued (snd (updateDataInTable arg w)) = issued w ++ done
           /\ (forall env,
                  fst (updateDataInTable arg w) = inr env ->
                  success env = true ->
                  done = [ddl_statement ("ALTER TABLE " +:+ t
                                         +:+ " ALTER COLUMN " +:+ c
                                         +:+ " SET DATA TYPE " +:+ ty);
                          drop; add]))
  /\ (truthy type = false -> is_identifier c ->
      forall admits cat,
        catalogue_after admits arg cat = unique_effect admits t c cat
        /\ catalogue_after admits arg (catalogue_after admits arg cat)
           = catalogue_after admits arg cat
        /\ catalogue_after admits arg cat !! (t, constraint_name t c)
           = (if admits t c then Some (Unique c) else None)).
Proof.
  intros Hf Hv Ht Hu Hs Hcol Hct Hc Hty Hcon Hup drop add.
  destruct (unique_constraint_string constraint Hup) as (s & -> & Hs0 & Hsu).
  assert (Hplan : forall tqs,
             type_statements t c type tqs ->
             planned t change
               (tqs ++ [drop_constraint_sql t (constraint_name t c);
                        add_unique_sql t (constraint_name t c) c])).
  { intros tqs Htq.
    exists column, c, type, (VStr s), tqs,
      [drop_constraint_sql t (constraint_name t c);
       add_unique_sql t (constraint_name t c) c].
    split; [exact Hcol |]. split; [exact Hct |]. split; [exact Hc |].
    split; [exact Hty |]. split; [exact Hcon |].
    split; [right; cbn; now destruct (String.eqb_spec s "") |].
    split; [exact Htq |]. split; [| reflexivity].
    right. exists s. split; [reflexivity |]. split; [exact Hs0 |].
    left. split; [exact Hsu | reflexivity]. }
  assert (Hrun : forall (p : Pool) (w0 : @World p) tqs,
             type_statements t c type tqs ->
             @updateDataInTable p engine arg w0
             = @update_outcome p []
                 (tqs ++ [drop_constraint_sql t (constraint_name t c);
                          add_unique_sql t (constraint_name t c) c]) w0).
  { intros p w0 tqs Htq.
    assert (Hwork : @nil value <> [] \/ [change] <> [])
      by (right; discriminate).
    pose proof (@updateDataInTable_valid p engine arg tableName t [] [change]
                  []
                  [tqs ++ [drop_constraint_sql t (constraint_name t c);
                           add_unique_sql t (constraint_name t c) c]]
                  w0 Hf Hv Ht Hu Hs Hwork (List.Forall2_nil _)
                  (List.Forall2_cons _ _ (Hplan tqs Htq)
                     (List.Forall2_nil _))) as H.
    cbn [concat] in H. rewrite app_nil_r in H. exact H. }
  split; [| split].
  - intros Hfalsy.
    rewrite (Hrun pool w [] (or_introl (conj Hfalsy eq_refl))).
    unfold update_outcome.
    cbn [serve first_error app map awaited rows_of].
    fold drop. fold add.
    destruct (exec drop (store w)) as [[m | rows] d1]; [reflexivity |].
    destruct (exec add d1) as [[m | rows'] d2]; reflexivity.
  - intros ty Htruthy Htemplate.
    rewrite (Hrun pool w _
               (or_intror (conj Htruthy
                             (ex_intro _ ty (conj Htemplate eq_refl))))).
    destruct (update_outcome_issued []
                (["ALTER TABLE " +:+ t +:+ " ALTER COLUMN " +:+ c
                  +:+ " SET DATA TYPE " +:+ ty]
                 ++ [drop_constraint_sql t (constraint_name t c);
                     add_unique_sql t (constraint_name t c) c]) w)
      as (done & Hp & Hiss & Hall).
    exists (map ddl_statement done).
    split; [| split].
    + destruct Hp as [k Hk]. exists (map ddl_statement k).
      rewrite <- map_app, <- Hk. reflexivity.
    + exact Hiss.
    + intros env Hfst Hsucc. now rewrite (Hall env Hfst Hsucc).
  - intros Hfalsy Hic admits cat.
    pose proof (identifier_no_space t (validateName_identifier _ _ Hv Ht))
      as Hnt.
    pose proof (identifier_no_space c Hic) as Hnc.
    assert (Hafter : forall d,
               catalogue_after admits arg d = unique_effect admits t c d).
    { intros d. unfold catalogue_after.
      rewrite (Hrun (catalogue_pool admits) _ []
                 (or_introl (conj Hfalsy eq_refl))).
      unfold update_outcome.
      cbn [serve first_error app map world_of store].
      rewrite (awaited_unique_pair admits t c d Hnt Hnc).
      destruct (admits t c); reflexivity. }
    rewrite !Hafter. split; [reflexivity |].
    split; [apply unique_effect_idempotent |].
    unfold unique_effect. destruct (admits t c).
    + apply lookup_insert_eq.
    + apply lookup_delete_eq.
Qed.

End UniqueRequest.

Lemma unique_request_statements_witness :
  let arg := VObj [("tableName", VStr "widgets");
                   ("schemaChanges",
                    VArr [VObj [("column", VStr "email");
                                ("constraint", VStr "unique")]])] in
  @updateDataInTable empty_pool quiet_engine arg (fresh empty_pool tt)
  = (inr (SuccessData []),
     world_of empty_pool tt
       [ddl_statement
          ("ALTER TABLE widgets DROP CONSTRAINT IF EXISTS "
           +:+ "widgets_email_constraint");
        ddl_statement
          ("ALTER TABLE widgets ADD CONSTRAINT widgets_email_constraint "
           +:+ "UNIQUE (email)")])
  /\ @catalogue_after quiet_engine (fun _ _ => true) arg
       {[ ("widgets", "widgets_email_constraint")
          := OtherConstraint "CHECK (email <> '')" ]}
     !! ("widgets", "widgets_email_constraint")
     = Some (Unique "email").
Proof.
  intros arg.
  destruct (@unique_request_statements empty_pool quiet_engine arg
              (VStr "widgets")
              (VObj [("column", VStr "email"); ("constraint", VStr "unique")])
              (VStr "email") VUndefined (VStr "unique") "widgets" "email"
              (fresh empty_pool tt)
              eq_refl eq_refl eq_refl eq_refl eq_refl eq_refl eq_refl eq_refl
              eq_refl eq_refl eq_refl) as (Hrun & _ & Hcat).
  split; [exact (Hrun eq_refl) |].
  assert (Hc : is_identifier "email") by (apply regex_test_name; reflexivity).
  destruct (Hcat eq_refl Hc (fun _ _ => true)
              {[ ("widgets", "widgets_email_constraint")
                 := OtherConstraint "CHECK (email <> '')" ]})
    as (_ & _ & Hlookup).
  exact Hlookup.
Defined.

(** ** C7: store errors in the data-mutation paths *)

Section StoreErrors.
Context {pool : Pool} {engine : Engine}.




End StoreErrors.



(** ** C6: envelopes and propagated exceptions *)


Section Envelopes.
Context {pool : Pool} {engine : Engine}.









End Envelopes.



(** * Further properties of the operations *)


(** ** joinTables *)

Lemma existsb_eqb_In (u : string) (l : list string) :
  existsb (String.eqb u) l = true <-> In u l.
Proof.
  rewrite existsb_exists. split.
  - intros (x & Hx & E). apply String.eqb_eq in E. now subst.
  - intros H. exists u. split; [exact H | apply String.eqb_refl].
Qed.

Section Joins.
Context {pool : Pool} {engine : Engine}.

Lemma joinTables_fields (arg v1 v2 jv on : value) (w : World) :
  field arg "table1" = inr v1 ->
  field arg "table2" = inr v2 ->
  field_default arg "joinType" (VStr "INNER") = inr jv ->
  field arg "onCondition" = inr on ->
  validateName v1 = inr tt ->
  validateName v2 = inr tt ->
  joinTables arg w
  = try_catch
      (let* upper := lift (call_toUpperCase jv) in
       if negb (existsb (String.eqb upper) allowedJoins) then
         let* j := lift (template jv) in
         throw (Error ("Invalid join type: " +:+ j +:+ ". Allowed: "
                       +:+ String.concat ", " allowedJoins))
       else
         if negb (truthy on) || negb (is_string on) then
           throw join_condition_error
         else
           let* t1 := lift (template v1) in
           let* t2 := lift (template v2) in
           let* c := lift (template on) in
           let* result := pool_query (join_sql t1 upper t2 c) [] in
           ret (SuccessData result))
      (fun error =>
         ret (Failure ("Failed to join tables: " +:+ message_of error))) w.
Proof.
  intros H1 H2 Hj Ho Hv1 Hv2. unfold joinTables.
  unfold bind at 1. unfold lift at 1. rewrite H1.
  unfold bind at 1. unfold lift at 1. rewrite H2.
  unfold bind at 1. unfold lift at 1. rewrite Hj.
  unfold bind at 1. unfold lift at 1. rewrite Ho.
  unfold try_catch.
  unfold bind at 1. unfold lift at 1. rewrite Hv1.
  unfold bind at 1. unfold lift at 1. rewrite Hv2.
  reflexivity.
Qed.

(** With two valid table names, a join is refused without any statement:
    when the join type, upper-cased, is not INNER, LEFT, RIGHT or FULL (the
    message repeats the type as given and lists the allowed ones); when the
    join type is not a string (the runtime's error text is passed on); and
    when the join condition is missing, empty or not a string. *)
Theorem joinTables_refusals (arg v1 v2 jv on : value) (w : World) :
  field arg "table1" = inr v1 ->
  field arg "table2" = inr v2 ->
  field_default arg "joinType" (VStr "INNER") = inr jv ->
  field arg "onCondition" = inr on ->
  validateName v1 = inr tt ->
  validateName v2 = inr tt ->
  (forall j,
      jv = VStr j -> ~ In (toUpperCase j) allowedJoins ->
      joinTables arg w
      = (inr (Failure ("Failed to join tables: Invalid join type: " +:+ j
                       +:+ ". Allowed: INNER, LEFT, RIGHT, FULL")), w))
  /\ (forall e,
         call_toUpperCase jv = inl e ->
         joinTables arg w
         = (inr (Failure ("Failed to join tables: " +:+ message_of e)), w))
  /\ (forall j,
         jv = VStr j -> In (toUpperCase j) allowedJoins ->
         truthy on = false \/ is_string on = false ->
         joinTables arg w
         = (inr (Failure
                   ("Failed to join tables: Join condition must be provided "
                    +:+ "as a valid SQL condition string.")), w)).
Proof.
  intros H1 H2 Hj Ho Hv1 Hv2.
  rewrite (joinTables_fields arg v1 v2 jv on w H1 H2 Hj Ho Hv1 Hv2).
  unfold try_catch, bind, lift. repeat split.
  - intros j -> Hnot. cbn [call_toUpperCase template to_string].
    destruct (existsb (String.eqb (toUpperCase j)) allowedJoins) eqn:E.
    + apply existsb_eqb_In in E. contradiction.
    + reflexivity.
  - intros e He. rewrite He. reflexivity.
  - intros j -> Hin Hbad. cbn [call_toUpperCase].
    apply existsb_eqb_In in Hin. rewrite Hin. cbn [negb].
    assert (negb (truthy on) || negb (is_string on) = true) as ->.
    { destruct Hbad as [-> | ->]; [reflexivity | apply orb_true_r]. }
    reflexivity.
Qed.

(** With two valid table names, a join type that is one of INNER, LEFT,
    RIGHT, FULL in any letter case, and a non-empty condition string, the
    operation issues exactly one statement: the join of the two tables with
    the join type in upper case and the condition as it was given.  It
    returns the rows of the store, or a failure that carries the store's
    error text. *)
Theorem joinTables_statement (arg v1 v2 : value) (t1 t2 j on : string)
  (w : World) :
  field arg "table1" = inr v1 ->
  field arg "table2" = inr v2 ->
  field_default arg "joinType" (VStr "INNER") = inr (VStr j) ->
  field arg "onCondition" = inr (VStr on) ->
  validateName v1 = inr tt -> template v1 = inr t1 ->
  validateName v2 = inr tt -> template v2 = inr t2 ->
  In (toUpperCase j) allowedJoins ->
  on <> "" ->
  let st := Statement (join_sql t1 (toUpperCase j) t2 on) [] in
  joinTables arg w
  = (inr (match fst (exec st (store w)) with
          | inl m => Failure ("Failed to join tables: " +:+ m)
          | inr rows => SuccessData rows
          end),
     {| store := snd (exec st (store w)); issued := issued w ++ [st] |}).
Proof.
  intros H1 H2 Hj Ho Hv1 Ht1 Hv2 Ht2 Hin Hon st.
  rewrite (joinTables_fields arg v1 v2 (VStr j) (VStr on) w
             H1 H2 Hj Ho Hv1 Hv2).
  unfold try_catch. unfold bind at 1. unfold lift at 1.
  cbn [call_toUpperCase].
  apply existsb_eqb_In in Hin. rewrite Hin. cbn [negb truthy is_string].
  destruct (String.eqb_spec on "") as [E | _]; [contradiction |].
  cbn [negb orb].
  unfold bind at 1. unfold lift at 1. rewrite Ht1.
  unfold bind at 1. unfold lift at 1. rewrite Ht2.
  unfold bind at 1. unfold lift at 1. cbn [template to_string].
  unfold bind at 1. rewrite pool_query_run. fold st.
  destruct (exec st (store w)) as [[m | rows] d]; reflexivity.
Qed.

End Joins.

Lemma joinTables_refusals_witness :
  @joinTables empty_pool quiet_engine
    (VObj [("table1", VStr "users"); ("table2", VStr "orders");
           ("joinType", VStr "cross");
           ("onCondition", VStr "users.id = orders.user_id")])
    (fresh empty_pool tt)
  = (inr (Failure ("Failed to join tables: Invalid join type: cross. "
                   +:+ "Allowed: INNER, LEFT, RIGHT, FULL")),
     fresh empty_pool tt).
Proof.
  refine (proj1 (@joinTables_refusals empty_pool quiet_engine
                   (VObj [("table1", VStr "users"); ("table2", VStr "orders");
                          ("joinType", VStr "cross");
                          ("onCondition", VStr "users.id = orders.user_id")])
                   (VStr "users") (VStr "orders") (VStr "cross")
                   (VStr "users.id = orders.user_id") (fresh empty_pool tt)
                   eq_refl eq_refl eq_refl eq_refl eq_refl eq_refl)
            "cross" eq_refl _).
  cbn. intros [H | [H | [H | [H | []]]]]; discriminate H.
Defined.

Lemma joinTables_statement_witness :
  @joinTables empty_pool quiet_engine
    (VObj [("table1", VStr "users"); ("table2", VStr "orders");
           ("joinType", VStr "left");
           ("onCondition", VStr "users.id = orders.user_id")])
    (fresh empty_pool tt)
  = (inr (SuccessData []),
     world_of empty_pool tt
       [Statement (join_sql "users" "LEFT" "orders"
                            "users.id = orders.user_id") []]).
Proof.
  refine (@joinTables_statement empty_pool quiet_engine
            (VObj [("table1", VStr "users"); ("table2", VStr "orders");
                   ("joinType", VStr "left");
                   ("onCondition", VStr "users.id = orders.user_id")])
            (VStr "users") (VStr "orders") "users" "orders" "left"
            "users.id = orders.user_id" (fresh empty_pool tt)
            eq_refl eq_refl eq_refl eq_refl eq_refl eq_refl eq_refl eq_refl
            _ _).
  - cbn. auto.
  - discriminate.
Defined.

(** ** checkTableExists and getTableColumns *)

Lemma strict_eq_str_iff (v : value) (s : string) :
  strict_eq_str v s = true <-> v = VStr s.
Proof.
  destruct v; simpl; try (split; [discriminate | congruence]).
  rewrite String.eqb_eq. split; congruence.
Qed.

Lemma column_of_row_describes (rows : list value) :
  Forall is_present rows ->
  exists cols,
    res_map column_of_row rows = inr cols /\ Forall2 describes rows cols.
Proof.
  induction 1 as [| row rows Hrow _ (cols & Hcols & Hall)].
  - exists []. split; [reflexivity | constructor].
  - destruct (get_present row "column_name" Hrow) as [n Hn].
    destruct (get_present row "data_type" Hrow) as [t Ht].
    destruct (get_present row "is_nullable" Hrow) as [u Hu].
    exists (VObj [("name", n); ("type", t);
                  ("nullable", VBool (strict_eq_str u "YES"))] :: cols).
    cbn [res_map]. unfold column_of_row at 1. rewrite Hn, Ht, Hu, Hcols.
    split; [reflexivity |]. constructor; [| exact Hall].
    exists n, t, u, (strict_eq_str u "YES").
    repeat split; try assumption; apply strict_eq_str_iff.
Qed.

Section Columns.
Context {pool : Pool} {engine : Engine}.

(** The helper, in terms of the answer of the store. *)
Lemma checkTableExists_run (tableName : value) (w : World) :
  checkTableExists tableName w
  = (let rethrown (e : exn) : stop + value :=
       match template tableName with
       | inl e' => inl (Raise e')
       | inr _ =>
           inl (Raise (Error ("Error checking table existence: "
                              +:+ message_of e)))
       end in
     match settled (fst (exec (exists_statement tableName) (store w))) with
     | inl e => rethrown e
     | inr rows =>
         match get (nth 0 rows VUndefined) "exists" with
         | inl e => rethrown e
         | inr found => inr found
         end
     end,
     {| store := snd (exec (exists_statement tableName) (store w));
        issued := issued w ++ [exists_statement tableName] |}).
Proof.
  unfold checkTableExists, try_catch. unfold bind at 1.
  rewrite pool_query_run. fold (exists_statement tableName).
  destruct (settled _) as [e | rows]; cbn [lift].
  - unfold bind, lift, throw. destruct (template tableName); reflexivity.
  - destruct (get (nth 0 rows VUndefined) "exists") as [e | found];
      [| reflexivity].
    unfold bind, lift, throw. destruct (template tableName); reflexivity.
Qed.

(** Whatever the table name, the store and the runtime are, getTableColumns
    issues the existence query, possibly followed by the column query, and
    nothing else; both have a fixed text and carry the table name as their
    one bound value, so that the name never becomes part of a statement
    text. *)
Theorem getTableColumns_binds_the_name (arg tableName : value) (w : World) :
  field arg "tableName" = inr tableName ->
  issued (snd (getTableColumns arg w))
  = issued w ++ [exists_statement tableName]
  \/ issued (snd (getTableColumns arg w))
     = issued w ++ [exists_statement tableName; columns_statement tableName].
Proof.
  intros Hf.
  cut (exists tail,
          issued (snd (getTableColumns arg w))
          = issued w ++ exists_statement tableName :: tail
          /\ (tail = [] \/ tail = [columns_statement tableName])).
  { intros (tail & -> & [-> | ->]); [left | right]; reflexivity. }
  unfold getTableColumns.
  unfold bind at 1. unfold lift at 1. rewrite Hf.
  unfold try_catch. unfold bind at 1. rewrite checkTableExists_run.
  cbv zeta.
  set (w1 := {| store := snd (exec (exists_statement tableName) (store w));
                issued := issued w ++ [exists_statement tableName] |}).
  assert (Hhandler : forall e w2,
             issued (snd ((let* _ := lift (template tableName) in
                           ret (Failure ("Error fetching columns: "
                                         +:+ message_of e))) w2))
             = issued w2).
  { intros e w2. unfold bind, lift, ret.
    destruct (template tableName); reflexivity. }
  assert (Hw1 : issued w1 = issued w ++ [exists_statement tableName])
    by reflexivity.
  destruct (settled _) as [e | rows].
  - exists []. split; [| now left].
    destruct (template tableName); rewrite Hhandler; exact Hw1.
  - destruct (get (nth 0 rows VUndefined) "exists") as [e | found].
    + exists []. split; [| now left].
      destruct (template tableName); rewrite Hhandler; exact Hw1.
    + destruct (truthy found); cbn [negb].
      * exists [columns_statement tableName]. split; [| now right].
        unfold bind at 1. rewrite pool_query_run.
        fold (columns_statement tableName).
        destruct (settled _) as [e | rows2]; cbn [lift].
        -- rewrite Hhandler. cbn [issued]. rewrite Hw1.
           now rewrite <- app_assoc.
        -- unfold bind at 1. unfold lift at 1.
           destruct (res_map column_of_row rows2) as [e | cols].
           ++ rewrite Hhandler. cbn [issued]. rewrite Hw1.
              now rewrite <- app_assoc.
           ++ cbn [ret snd issued]. rewrite Hw1. now rewrite <- app_assoc.
      * exists []. split; [| now left].
        unfold bind at 1. unfold lift at 1.
        destruct (template tableName); [rewrite Hhandler |]; exact Hw1.
Qed.

(** When the existence query answers with a falsy [exists], the operation
    reports [Table '<name>' does not exist.] and does not ask for the
    columns.  When the store rejects the existence query, or answers it with
    no row at all, the failure message is [Error fetching columns: Error
    checking table existence: ] followed by the store's error text,
    respectively the runtime's; the column query is not issued either. *)
Theorem getTableColumns_without_table (arg tableName : value) (s : string)
  (w : World) :
  field arg "tableName" = inr tableName ->
  template tableName = inr s ->
  let answer := fst (exec (exists_statement tableName) (store w)) in
  let w1 := {| store := snd (exec (exists_statement tableName) (store w));
               issued := issued w ++ [exists_statement tableName] |} in
  (forall rows found,
      answer = inr rows ->
      get (nth 0 rows VUndefined) "exists" = inr found ->
      truthy found = false ->
      getTableColumns arg w
      = (inr (Failure ("Table '" +:+ s +:+ "' does not exist.")), w1))
  /\ (forall text,
         answer = inl text ->
         getTableColumns arg w
         = (inr (Failure ("Error fetching columns: "
                          +:+ "Error checking table existence: " +:+ text)),
            w1))
  /\ (answer = inr [] ->
      getTableColumns arg w
      = (inr (Failure ("Error fetching columns: "
                       +:+ "Error checking table existence: "
                       +:+ engine_message (CannotReadProperty "exists"))),
         w1)).
Proof.
  intros Hf Ht answer w1.
  assert (Hrun : getTableColumns arg w
                 = try_catch
                     (let* tableExists := checkTableExists tableName in
                      if negb (truthy tableExists) then
                        ret (Failure ("Table '" +:+ s
                                      +:+ "' does not exist."))
                      else
                        let* rows :=
                          pool_query getTableColumns_sql [tableName] in
                        let* columns := lift (res_map column_of_row rows) in
                        ret (SuccessColumns columns))
                     (fun error =>
                        ret (Failure ("Error fetching columns: "
                                      +:+ message_of error))) w).
  { unfold getTableColumns. unfold bind at 1. unfold lift at 1.
    rewrite Hf, Ht. reflexivity. }
  assert (Hcheck : checkTableExists tableName w
                   = (match settled answer with
                      | inl e =>
                          inl (Error ("Error checking table existence: "
                                      +:+ message_of e))
                      | inr rows =>
                          match get (nth 0 rows VUndefined) "exists" with
                          | inl e =>
                              inl (Error ("Error checking table existence: "
                                          +:+ message_of e))
                          | inr found => inr found
                          end
                      end, w1)).
  { rewrite checkTableExists_run. cbv zeta. rewrite Ht. reflexivity. }
  rewrite Hrun. unfold try_catch, bind. rewrite Hcheck. clear Hrun Hcheck.
  split; [| split].
  - intros rows found Ha Hget Hfalsy. rewrite Ha. cbn [settled].
    rewrite Hget, Hfalsy. reflexivity.
  - intros text Ha. rewrite Ha. reflexivity.
  - intros Ha. rewrite Ha. reflexivity.
Qed.

(** When the existence query answers with a truthy [exists] and the column
    query answers with rows, the operation returns one description per row,
    in the order of the rows: the column name, the declared type, and
    [nullable], which is true exactly for the rows whose nullability reads
    [YES]. *)
Theorem getTableColumns_describes_rows (arg tableName : value)
  (rows0 rows : list value) (found : value) (w : World) :
  field arg "tableName" = inr tableName ->
  let r1 := exec (exists_statement tableName) (store w) in
  let r2 := exec (columns_statement tableName) (snd r1) in
  fst r1 = inr rows0 ->
  get (nth 0 rows0 VUndefined) "exists" = inr found ->
  truthy found = true ->
  fst r2 = inr rows ->
  Forall is_present rows ->
  exists cols,
    getTableColumns arg w
    = (inr (SuccessColumns cols),
       {| store := snd r2;
          issued := issued w ++ [exists_statement tableName;
                                 columns_statement tableName] |})
    /\ Forall2 describes rows cols.
Proof.
  intros Hf r1 r2 H1 Hget Htruthy H2 Hrows.
  destruct (column_of_row_describes rows Hrows) as (cols & Hcols & Hdesc).
  exists cols. split; [| exact Hdesc].
  unfold getTableColumns. unfold bind at 1. unfold lift at 1. rewrite Hf.
  unfold try_catch. unfold bind at 1. rewrite checkTableExists_run.
  cbv zeta. fold r1. rewrite H1. cbn [settled]. rewrite Hget, Htruthy.
  cbn [negb]. unfold bind at 1. rewrite pool_query_run.
  fold (columns_statement tableName). cbn [store]. fold r2. rewrite H2.
  cbn [settled lift]. unfold bind, lift, ret. rewrite Hcols.
  cbn [issued]. now rewrite <- app_assoc.
Qed.

End Columns.

Lemma getTableColumns_binds_the_name_witness :
  issued (snd (@getTableColumns empty_pool quiet_engine
                 (VObj [("tableName", VStr "widgets")])
                 (fresh empty_pool tt)))
  = issued (fresh empty_pool tt) ++ [exists_statement (VStr "widgets")]
  \/ issued (snd (@getTableColumns empty_pool quiet_engine
                    (VObj [("tableName", VStr "widgets")])
                    (fresh empty_pool tt)))
     = issued (fresh empty_pool tt)
       ++ [exists_statement (VStr "widgets");
           columns_statement (VStr "widgets")].
Proof.
  exact (@getTableColumns_binds_the_name empty_pool quiet_engine
           (VObj [("tableName", VStr "widgets")]) (VStr "widgets")
           (fresh empty_pool tt) eq_refl).
Defined.

Lemma getTableColumns_without_table_witness :
  let p := scripted_pool (fun _ => inr [VObj [("exists", VBool false)]]) in
  @getTableColumns p quiet_engine (VObj [("tableName", VStr "widgets")])
    (fresh p tt)
  = (inr (Failure "Table 'widgets' does not exist."),
     world_of p tt [exists_statement (VStr "widgets")]).
Proof.
  intros p.
  exact (proj1 (@getTableColumns_without_table p quiet_engine
                  (VObj [("tableName", VStr "widgets")]) (VStr "widgets")
                  "widgets" (fresh p tt) eq_refl eq_refl)
           [VObj [("exists", VBool false)]] (VBool false)
           eq_refl eq_refl eq_refl).
Defined.

Lemma getTableColumns_describes_rows_witness :
  let row := VObj [("column_name", VStr "id"); ("data_type", VStr "integer");
                   ("is_nullable", VStr "NO")] in
  let p := scripted_pool
             (fun st => if String.eqb (sql st) checkTableExists_sql
                        then inr [VObj [("exists", VBool true)]]
                        else inr [row]) in
  exists cols,
    @getTableColumns p quiet_engine (VObj [("tableName", VStr "widgets")])
      (fresh p tt)
    = (inr (SuccessColumns cols),
       world_of p tt [exists_statement (VStr "widgets");
                      columns_statement (VStr "widgets")])
    /\ Forall2 describes [row] cols.
Proof.
  intros row p.
  refine (@getTableColumns_describes_rows p quiet_engine
            (VObj [("tableName", VStr "widgets")]) (VStr "widgets")
            [VObj [("exists", VBool true)]] [row] (VBool true) (fresh p tt)
            eq_refl eq_refl eq_refl eq_refl eq_refl _).
  repeat constructor; discriminate.
Defined.

(** ** updateDataInTable: batches and schema changes *)

Section Batches.
Context {pool : Pool} {engine : Engine}.

Lemma schema_change_refused (tableName change : value) (e : exn) (w : World) :
  alterQueries tableName change = inl e ->
  schema_change tableName change w = (inl e, w).
Proof.
  intros H. unfold schema_change, schema_change_pending, bind, lift.
  now rewrite H.
Qed.

(** The [try] block when there is no data update: only the loop over the
    schema changes runs. *)
Lemma updateDataInTable_body_schema_only (tableName updates : value)
  (changes : list value) (w : World) :
  validateName tableName = inr tt ->
  updates = VArr [] ->
  changes <> [] ->
  updateDataInTable_body tableName updates (VArr changes) w
  = (let* _ := for_each (schema_change tableName) changes in
     ret (SuccessData [])) w.
Proof.
  intros Hv -> Hne.
  rewrite (updateDataInTable_body_arrays tableName [] changes w Hv)
    by (right; exact Hne).
  cbn [for_each]. unfold bind at 1. unfold ret at 1.
  change (schema_change_pending [] tableName) with (schema_change tableName).
  unfold bind, lift, ret.
  destruct (for_each (schema_change tableName) changes w) as [[e | us] w'];
    reflexivity.
Qed.

End Batches.

Lemma update_statement_invalid (tableName id data : value) :
  truthy id = false \/ truthy data = false \/ keys data = inr [] ->
  update_statement tableName id data = inl update_error.
Proof.
  intros H. unfold update_statement.
  destruct (truthy id); [| reflexivity].
  destruct (truthy data); [| reflexivity].
  destruct H as [H | [H | H]]; try discriminate.
  rewrite H. reflexivity.
Qed.

Lemma constraint_queries_unsupported (t c s : string) :
  ~ In (toUpperCase s) supported_constraints ->
  constraint_queries t c (VStr s)
  = inl (Error ("Unsupported constraint: " +:+ s)).
Proof.
  intros H. unfold constraint_queries. cbn [call_toUpperCase res_bind].
  destruct (String.eqb_spec (toUpperCase s) "UNIQUE") as [E | _].
  { exfalso. apply H. rewrite E. simpl. tauto. }
  destruct (String.eqb_spec (toUpperCase s) "NOT NULL") as [E | _].
  { exfalso. apply H. rewrite E. simpl. tauto. }
  destruct (String.eqb_spec (toUpperCase s) "NULL") as [E | _].
  { exfalso. apply H. rewrite E. simpl. tauto. }
  reflexivity.
Qed.

Section BatchProperties.
Context {pool : Pool} {engine : Engine}.

(** With a valid table name, an update call in which [updates] and
    [schemaChanges] are each absent or an empty array is refused with
    [Either 'updates' or 'schemaChanges' must be provided.], and nothing is
    issued. *)
Theorem updateDataInTable_nothing_to_do (arg tableName u s : value)
  (w : World) :
  field arg "tableName" = inr tableName ->
  validateName tableName = inr tt ->
  field arg "updates" = inr u -> u = VUndefined \/ u = VArr [] ->
  field arg "schemaChanges" = inr s -> s = VUndefined \/ s = VArr [] ->
  updateDataInTable arg w
  = (inr (Failure "Either 'updates' or 'schemaChanges' must be provided."),
     w).
Proof.
  intros Ht Hv Hu Hu' Hs Hs'.
  assert (Hud : field_default arg "updates" (VArr []) = inr (VArr [])).
  { unfold field_default. rewrite Hu. destruct Hu' as [-> | ->]; reflexivity. }
  assert (Hsd : field_default arg "schemaChanges" (VArr []) = inr (VArr [])).
  { unfold field_default. rewrite Hs. destruct Hs' as [-> | ->]; reflexivity. }
  rewrite (updateDataInTable_run arg tableName (VArr []) (VArr []) w
             Ht Hud Hsd).
  unfold updateDataInTable_body, bind, lift. rewrite Hv. reflexivity.
Qed.

(** A schema change request whose constraint is none of UNIQUE, NOT NULL,
    NULL (in any letter case) is refused as a whole: none of its statements
    is issued, not even its type change, and the failure envelope names the
    constraint as it was given.  The statements of the requests before it
    stay issued. *)
Theorem updateDataInTable_unsupported_constraint
  (arg tableName bad column type : value) (t c s : string)
  (good rest : list value) (us : list unit) (w w1 : World) :
  field arg "tableName" = inr tableName ->
  validateName tableName = inr tt ->
  template tableName = inr t ->
  field_default arg "updates" (VArr []) = inr (VArr []) ->
  field_default arg "schemaChanges" (VArr [])
  = inr (VArr (good ++ bad :: rest)) ->
  for_each (schema_change tableName) good w = (inr us, w1) ->
  field bad "column" = inr column -> truthy column = true ->
  template column = inr c ->
  field bad "type" = inr type ->
  (truthy type = true -> exists ty, template type = inr ty) ->
  field bad "constraint" = inr (VStr s) -> s <> "" ->
  ~ In (toUpperCase s) supported_constraints ->
  alterQueries tableName bad = inl (Error ("Unsupported constraint: " +:+ s))
  /\ updateDataInTable arg w
     = (inr (Failure ("Unsupported constraint: " +:+ s)), w1).
Proof.
  intros Hf Hv Ht Hu Hs Hgood Hcol Hct Hc Hty Htype Hcon Hne Hbad.
  assert (Hq : alterQueries tableName bad
               = inl (Error ("Unsupported constraint: " +:+ s))).
  { unfold alterQueries. rewrite Hcol, Hty, Hcon. cbn [res_bind].
    rewrite Hct. cbn [truthy].
    destruct (String.eqb_spec s "") as [E | _]; [contradiction |].
    cbn [negb orb andb]. rewrite andb_false_r, Ht, Hc. cbn [res_bind].
    rewrite (constraint_queries_unsupported t c s Hbad).
    destruct (truthy type) eqn:E; [| reflexivity].
    destruct (Htype eq_refl) as [ty ->]. reflexivity. }
  split; [exact Hq |].
  rewrite (updateDataInTable_run arg tableName (VArr [])
             (VArr (good ++ bad :: rest)) w Hf Hu Hs).
  rewrite (updateDataInTable_body_schema_only tableName (VArr [])
             (good ++ bad :: rest) w Hv eq_refl)
    by (destruct good; discriminate).
  unfold bind at 1.
  rewrite (for_each_stops (schema_change tableName) good rest bad us _
             w w1 w1 Hgood (schema_change_refused tableName bad _ w1 Hq)).
  reflexivity.
Qed.

(** A batch of updates is not atomic.  When the entries before the first
    invalid one are well-formed, their statements have been issued by the
    time the invalid entry makes the call fail; the entries after it are
    never looked at, and the failure envelope carries the invalid-update
    message. *)
Theorem updateDataInTable_batch_not_atomic
  (arg tableName schemaChanges bad : value) (pre post : list value)
  (sts : list statement) (w : World) :
  field arg "tableName" = inr tableName ->
  validateName tableName = inr tt ->
  field_default arg "updates" (VArr []) = inr (VArr (pre ++ bad :: post)) ->
  field_default arg "schemaChanges" (VArr []) = inr schemaChanges ->
  Forall2 (entry_statement tableName) pre sts ->
  invalid_entry bad ->
  exists w',
    updateDataInTable arg w
    = (inr (Failure ("Each update must have an " +:+ dq +:+ "id" +:+ dq
                     +:+ " and non-empty " +:+ dq +:+ "data" +:+ dq
                     +:+ ".")), w')
    /\ issued w' = issued w ++ sts.
Proof.
  intros Hf Hv Hu Hs Hpre (id & data & Hid & Hdata & Hbad).
  destruct (for_each_update_entry tableName pre sts w Hpre)
    as (ps & w1 & Hrun & Hw1 & _).
  exists w1. split; [| exact Hw1].
  rewrite (updateDataInTable_run arg tableName (VArr (pre ++ bad :: post))
             schemaChanges w Hf Hu Hs).
  assert (Hentry : update_entry tableName bad w1 = (inl update_error, w1)).
  { rewrite (update_entry_run tableName bad id data w1 Hid Hdata).
    now rewrite (update_statement_invalid tableName id data Hbad). }
  assert (Hbody : updateDataInTable_body tableName
                    (VArr (pre ++ bad :: post)) schemaChanges w
                  = (inl update_error, w1)).
  { unfold updateDataInTable_body, bind, lift, ret. rewrite Hv.
    cbn [get String.eqb Ascii.eqb Bool.eqb truthy gt_zero].
    assert (Hlen : (0 < Z.of_nat (length (pre ++ bad :: post)))%Z)
      by (rewrite length_app; simpl; lia).
    destruct (Z.eqb_spec (Z.of_nat (length (pre ++ bad :: post))) 0)
      as [E | _]; [lia |].
    cbn [negb].
    destruct (Z.ltb_spec 0 (Z.of_nat (length (pre ++ bad :: post))))
      as [_ | E]; [| lia].
    now rewrite (for_each_stops (update_entry tableName) pre post bad ps _
                   w w1 w1 Hrun Hentry). }
  rewrite Hbody. reflexivity.
Qed.

End BatchProperties.

Lemma updateDataInTable_nothing_to_do_witness :
  @updateDataInTable empty_pool quiet_engine
    (VObj [("tableName", VStr "widgets")]) (fresh empty_pool tt)
  = (inr (Failure "Either 'updates' or 'schemaChanges' must be provided."),
     fresh empty_pool tt).
Proof.
  refine (@updateDataInTable_nothing_to_do empty_pool quiet_engine
            (VObj [("tableName", VStr "widgets")]) (VStr "widgets")
            VUndefined VUndefined (fresh empty_pool tt)
            eq_refl eq_refl eq_refl _ eq_refl _); now left.
Defined.

Lemma updateDataInTable_unsupported_constraint_witness :
  let change := VObj [("column", VStr "title");
                      ("constraint", VStr "primary key")] in
  alterQueries (VStr "widgets") change
  = inl (Error "Unsupported constraint: primary key")
  /\ @updateDataInTable empty_pool quiet_engine
       (VObj [("tableName", VStr "widgets");
              ("schemaChanges", VArr [change])])
       (fresh empty_pool tt)
     = (inr (Failure "Unsupported constraint: primary key"),
        fresh empty_pool tt).
Proof.
  intros change.
  refine (@updateDataInTable_unsupported_constraint empty_pool quiet_engine
            (VObj [("tableName", VStr "widgets");
                   ("schemaChanges", VArr [change])])
            (VStr "widgets") change (VStr "title") VUndefined
            "widgets" "title" "primary key" [] [] []
            (fresh empty_pool tt) (fresh empty_pool tt)
            eq_refl eq_refl eq_refl eq_refl eq_refl eq_refl eq_refl eq_refl
            eq_refl eq_refl _ eq_refl _ _).
  - discriminate.
  - discriminate.
  - cbn. intros [H | [H | [H | []]]]; discriminate H.
Defined.

Lemma updateDataInTable_batch_not_atomic_witness :
  let good := VObj [("id", VNum 1); ("data", VObj [("title", VStr "x")])] in
  let bad := VObj [("id", VNum 2); ("data", VObj [])] in
  exists w',
    @updateDataInTable empty_pool quiet_engine
      (VObj [("tableName", VStr "widgets"); ("updates", VArr [good; bad])])
      (fresh empty_pool tt)
    = (inr (Failure ("Each update must have an " +:+ dq +:+ "id" +:+ dq
                     +:+ " and non-empty " +:+ dq +:+ "data" +:+ dq
                     +:+ ".")), w')
    /\ issued w'
       = issued (fresh empty_pool tt)
         ++ [Statement
               ("UPDATE widgets SET title = $1, updated_at = NOW() "
                +:+ "WHERE id = $2 RETURNING *")
               [VStr "x"; VNum 1]].
Proof.
  intros good bad.
  refine (@updateDataInTable_batch_not_atomic empty_pool quiet_engine
            (VObj [("tableName", VStr "widgets");
                   ("updates", VArr [good; bad])])
            (VStr "widgets") (VArr []) bad [good] [] _ (fresh empty_pool tt)
            eq_refl eq_refl eq_refl eq_refl _ _).
  - constructor; [| constructor].
    exists (VNum 1), (VObj [("title", VStr "x")]).
    split; [reflexivity |]. split; reflexivity.
  - exists (VNum 2), (VObj []).
    split; [reflexivity |]. split; [reflexivity |]. right. right. reflexivity.
Defined.

Section StatementOrder.
Context {pool : Pool} {engine : Engine}.


End StatementOrder.


(** ** removeDataFromTable and createDynamicTable: what reaches the store *)

Lemma prefix_append (p rest : string) : String.prefix p (p +:+ rest) = true.
Proof.
  induction p as [| a p IH]; [now destruct rest |].
  rewrite append_cons. cbn [String.prefix].
  destruct (ascii_dec a a); [exact IH | contradiction].
Qed.

Section SingleStatements.
Context {pool : Pool} {engine : Engine}.

(** With a valid table name and ids that are a non-empty list or a truthy
    scalar, removeDataFromTable issues exactly one statement, the DELETE by
    [id = ANY($1)], whose one bound value is the list of ids; a scalar id is
    bound as the list of that one id, so that removing [x] and removing
    [[x]] are the same call.  The rows of the store come back as data; a
    store error comes back as the fixed failure message. *)
Theorem removeDataFromTable_one_statement (arg tableName ids : value)
  (t : string) (w : World) :
  field arg "tableName" = inr tableName ->
  field arg "ids" = inr ids ->
  validateName tableName = inr tt ->
  template tableName = inr t ->
  let run list :=
    let st := Statement ("DELETE FROM " +:+ t
                         +:+ " WHERE id = ANY($1) RETURNING *") [VArr list] in
    (inr (match fst (exec st (store w)) with
          | inl _ => Failure "Failed to remove data."
          | inr rows => SuccessData rows
          end) : stop + envelope,
     {| store := snd (exec st (store w)); issued := issued w ++ [st] |}) in
  (forall x xs, ids = VArr (x :: xs) ->
                removeDataFromTable arg w = run (x :: xs))
  /\ (truthy ids = true -> isArray ids = false ->
      removeDataFromTable arg w = run [ids]
      /\ removeDataFromTable_body tableName ids w
         = removeDataFromTable_body tableName (VArr [ids]) w).
Proof.
  intros Hf Hi Hv Ht run.
  rewrite (removeDataFromTable_run arg tableName ids w Hf Hi).
  split.
  - intros x xs ->. unfold removeDataFromTable_body, bind, lift, ret.
    rewrite Hv, Ht. cbn [truthy negb orb]. rewrite pool_query_run.
    unfold run. destruct (exec _ (store w)) as [[m | rows] d]; reflexivity.
  - intros Htr Harr.
    assert (Hbody : removeDataFromTable_body tableName ids w
                    = removeDataFromTable_body tableName (VArr [ids]) w).
    { unfold removeDataFromTable_body, bind, lift. rewrite Hv, Htr.
      destruct ids; try discriminate; reflexivity. }
    split; [| exact Hbody]. rewrite Hbody.
    unfold removeDataFromTable_body, bind, lift, ret.
    rewrite Hv, Ht. cbn [truthy negb orb]. rewrite pool_query_run.
    unfold run. destruct (exec _ (store w)) as [[m | rows] d]; reflexivity.
Qed.

(** Whatever its input, createDynamicTable either fails with [Failed to
    create <name> table.] without issuing anything, or issues exactly one
    statement, which starts with [CREATE TABLE IF NOT EXISTS]; it reports
    success exactly when the store accepts that statement, and a rejection
    by the store gives the same fixed failure message, without the store's
    error text.  When [columns] is not a non-empty array, nothing is
    issued. *)
Theorem createDynamicTable_outcomes (arg schemaName : value) (s : string)
  (w : World) :
  field arg "schemaName" = inr schemaName ->
  template schemaName = inr s ->
  let failed := Failure ("Failed to create " +:+ s +:+ " table.") in
  (createDynamicTable arg w = (inr failed, w)
   \/ exists q,
       String.prefix "CREATE TABLE IF NOT EXISTS " q = true
       /\ createDynamicTable arg w
          = (inr (match fst (exec (ddl_statement q) (store w)) with
                  | inl _ => failed
                  | inr _ =>
                      SuccessMessage (s +:+ " table created successfully.")
                  end),
             {| store := snd (exec (ddl_statement q) (store w));
                issued := issued w ++ [ddl_statement q] |}))
  /\ (forall columns,
         field arg "columns" = inr columns ->
         (forall c cs, columns <> VArr (c :: cs)) ->
         createDynamicTable arg w = (inr failed, w)).
Proof.
  intros Hf Ht failed.
  destruct (field_total arg "schemaName" "columns" schemaName Hf)
    as [columns Hc].
  rewrite (createDynamicTable_run arg schemaName columns w Hf Hc), Ht.
  assert (Hnone : (forall c cs, columns <> VArr (c :: cs)) ->
                  exists e, createDynamicTable_body schemaName columns w
                            = (inl e, w)).
  { intros Hno. unfold createDynamicTable_body, bind, lift, throw.
    destruct (validateName schemaName) as [e | []]; [eauto |].
    destruct columns as [| | | | | [| c cs] |]; eauto.
    exfalso. exact (Hno c cs eq_refl). }
  split.
  - destruct columns as [| | | | | [| c cs] |];
      try (left; destruct Hnone as [e ->]; [discriminate | reflexivity]).
    unfold createDynamicTable_body, bind, lift, ret.
    destruct (validateName schemaName) as [e | []]; [left; reflexivity |].
    destruct (allColumns (c :: cs)) as [e | all]; [left; reflexivity |].
    destruct (res_map columnDefinition all) as [e | defs];
      [left; reflexivity |].
    rewrite Ht. right.
    exists ("CREATE TABLE IF NOT EXISTS " +:+ s +:+ " ("
            +:+ String.concat ", " defs +:+ ")").
    split; [apply prefix_append |].
    rewrite pool_query_run. fold (ddl_statement ("CREATE TABLE IF NOT EXISTS "
      +:+ s +:+ " (" +:+ String.concat ", " defs +:+ ")")).
    destruct (exec _ (store w)) as [[m | rows] d]; reflexivity.
  - intros columns' Hc' Hno. rewrite Hc in Hc'. injection Hc' as <-.
    destruct (Hnone Hno) as [e ->]. reflexivity.
Qed.

End SingleStatements.

Lemma removeDataFromTable_one_statement_witness :
  @removeDataFromTable empty_pool
    (VObj [("tableName", VStr "widgets"); ("ids", VNum 7)])
    (fresh empty_pool tt)
  = (inr (SuccessData []),
     world_of empty_pool tt
       [Statement "DELETE FROM widgets WHERE id = ANY($1) RETURNING *"
          [VArr [VNum 7]]]).
Proof.
  exact (proj1 (proj2 (@removeDataFromTable_one_statement empty_pool
                         (VObj [("tableName", VStr "widgets");
                                ("ids", VNum 7)])
                         (VStr "widgets") (VNum 7) "widgets"
                         (fresh empty_pool tt)
                         eq_refl eq_refl eq_refl eq_refl)
                 eq_refl eq_refl)).
Defined.

Lemma createDynamicTable_outcomes_witness :
  @createDynamicTable empty_pool
    (VObj [("schemaName", VStr "widgets"); ("columns", VArr [])])
    (fresh empty_pool tt)
  = (inr (Failure "Failed to create widgets table."), fresh empty_pool tt).
Proof.
  refine (proj2 (@createDynamicTable_outcomes empty_pool
                   (VObj [("schemaName", VStr "widgets");
                          ("columns", VArr [])])
                   (VStr "widgets") "widgets" (fresh empty_pool tt)
                   eq_refl eq_refl)
            (VArr []) eq_refl _).
  discriminate.
Defined.

(** ** validateName on values that are not strings *)

Lemma pretty_N_char_digit (x : N) : is_digit (pretty_N_char x).
Proof.
  unfold pretty_N_char, is_digit. repeat case_match; simpl; lia.
Qed.

Lemma pretty_N_go_head (x : N) (s : string) :
  (0 < x)%N ->
  exists c rest, pretty_N_go x s = String c rest /\ is_digit c.
Proof.
  revert s. induction (N.lt_wf_0 x) as [x _ IH]; intros s Hx.
  rewrite pretty_N_go_step by exact Hx.
  destruct (N.eq_dec (N.div x 10) 0%N) as [E | E].
  - rewrite E, pretty_N_go_0. eauto using pretty_N_char_digit.
  - apply IH; [apply N.div_lt; lia | now apply N.neq_0_lt_0].
Qed.

(** A decimal numeral starts with a digit or with the minus sign. *)
Lemma pretty_Z_head (n : Z) :
  exists c rest,
    pretty n = String c rest /\ (is_digit c \/ c = "-"%char).
Proof.
  destruct n as [| p | p].
  - exists "0"%char, "". split; [reflexivity |]. left.
    unfold is_digit. simpl. lia.
  - change (pretty (Z.pos p)) with (pretty_N_go (N.pos p) "").
    destruct (pretty_N_go_head (N.pos p) "") as (c & rest & -> & Hc);
      [lia | eauto].
  - change (pretty (Z.neg p)) with ("-" +:+ pretty_N_go (N.pos p) "").
    rewrite append_cons. eauto.
Qed.

Lemma numeral_not_identifier (c : ascii) (rest : string) :
  is_digit c \/ c = "-"%char -> ~ is_identifier (String c rest).
Proof.
  intros [Hc | ->] [[[H | H] | H] _]; unfold is_digit in *;
    try subst c; simpl in *; try lia; discriminate.
Qed.

Lemma pretty_Z_not_identifier (n : Z) : ~ is_identifier (pretty n).
Proof.
  destruct (pretty_Z_head n) as (c & rest & -> & Hc).
  now apply numeral_not_identifier.
Qed.

(** The string of a finite number is not an identifier. *)
Lemma positive_to_string_finite (x : Z) :
  (x < overflow_threshold)%Z -> ~ is_identifier (positive_to_string x).
Proof.
  intros Hx. unfold positive_to_string, nearest_double.
  destruct (Z.leb_spec overflow_threshold x) as [H | _]; [lia |].
  cbv zeta.
  destruct (_ <? 10 ^ 21)%Z; [apply pretty_Z_not_identifier |].
  destruct (pretty_Z_head
              (without_trailing_zeros
                 (String.length
                    (pretty (shortest_digits (round_to_double x)
                               (String.length
                                  (pretty (round_to_double x))))))
                 (shortest_digits (round_to_double x)
                    (String.length (pretty (round_to_double x))))))
    as (c & rest & -> & Hc).
  destruct rest; now apply numeral_not_identifier.
Qed.

Lemma positive_to_string_infinity (x : Z) :
  (overflow_threshold <= x)%Z -> positive_to_string x = "Infinity".
Proof.
  intros Hx. unfold positive_to_string, nearest_double.
  destruct (Z.leb_spec overflow_threshold x) as [_ | H]; [reflexivity | lia].
Qed.

Lemma overflow_threshold_positive : (2 ^ 53 < overflow_threshold)%Z.
Proof. reflexivity. Qed.

Lemma number_to_string_identifier (n : Z) :
  is_identifier (number_to_string n) <-> (overflow_threshold <= n)%Z.
Proof.
  pose proof overflow_threshold_positive as Hpos.
  assert (H53 : (0 < 2 ^ 53)%Z) by reflexivity.
  split.
  - intros Hid. destruct (Z.le_gt_cases overflow_threshold n) as [H | H];
      [exact H | exfalso].
    destruct n as [| p | p]; cbn [number_to_string] in Hid.
    + now apply (numeral_not_identifier "0" "") in Hid;
        [| left; unfold is_digit; simpl; lia].
    + now apply positive_to_string_finite in Hid.
    + rewrite append_cons in Hid.
      now apply numeral_not_identifier in Hid; [| right].
  - intros Hn. destruct n as [| p | p]; try lia.
    cbn [number_to_string]. rewrite positive_to_string_infinity by exact Hn.
    apply regex_test_name. reflexivity.
Qed.

(** Integers below 2^53 are doubles, and print in decimal. *)
Lemma round_to_double_safe (y : Z) :
  (0 <= y < 2 ^ 53)%Z -> round_to_double y = y.
Proof.
  intros Hy. unfold round_to_double.
  destruct (Z.leb_spec (Z.log2 y + 1) 53) as [_ | H]; [reflexivity |].
  exfalso. destruct (Z.eq_dec y 0%Z) as [-> | Hne]; [simpl in H; lia |].
  assert (Z.log2 y < 53)%Z by (apply Z.log2_lt_pow2; lia). lia.
Qed.

Lemma round_to_double_large (y : Z) :
  (2 ^ 53 <= y)%Z -> (2 ^ 53 <= round_to_double y)%Z.
Proof.
  intros Hy. assert (H53 : (0 < 2 ^ 53)%Z) by reflexivity.
  unfold round_to_double.
  destruct (Z.leb_spec (Z.log2 y + 1) 53) as [_ | Hbits]; [exact Hy |].
  cbv zeta.
  set (shift := (Z.log2 y + 1 - 53)%Z).
  assert (Hshift : (0 < shift)%Z) by (unfold shift; lia).
  set (q := Z.shiftr y shift).
  assert (Hq : (2 ^ 52 <= q)%Z).
  { unfold q. rewrite Z.shiftr_div_pow2 by lia.
    apply Z.div_le_lower_bound; [apply Z.pow_pos_nonneg; lia |].
    rewrite <- Z.pow_add_r by lia.
    replace (shift + 52)%Z with (Z.log2 y) by (unfold shift; lia).
    apply Z.log2_spec. lia. }
  assert (Hq' : forall q', (q <= q')%Z -> (2 ^ 53 <= Z.shiftl q' shift)%Z).
  { intros q' Hle. rewrite Z.shiftl_mul_pow2 by lia.
    assert (H2 : (2 ^ 1 <= 2 ^ shift)%Z)
      by (apply Z.pow_le_mono_r; lia).
    change (2 ^ 53)%Z with (2 ^ 52 * 2 ^ 1)%Z.
    apply Z.mul_le_mono_nonneg; lia. }
  repeat case_match; apply Hq'; lia.
Qed.

Lemma shortest_digits_safe (m : Z) (j : nat) :
  (0 < m < 2 ^ 53)%Z -> shortest_digits m j = m.
Proof.
  intros Hm. pose proof overflow_threshold_positive as Hpos.
  assert (Hread : forall y, (0 <= y)%Z -> reads_as m y = true -> y = m).
  { intros y Hy. unfold reads_as, nearest_double.
    destruct (Z.leb_spec overflow_threshold y) as [_ | Hfin]; [discriminate |].
    intros H. apply Z.eqb_eq in H.
    destruct (Z.lt_ge_cases y (2 ^ 53)) as [Hs | Hl].
    - rewrite round_to_double_safe in H by lia. exact H.
    - apply round_to_double_large in Hl. lia. }
  induction j as [| j IH]; cbn [shortest_digits]; cbv zeta.
  - change (10 ^ Z.of_nat 0)%Z with 1%Z.
    rewrite Z.div_1_r, Z.mul_1_r.
    destruct (reads_as m m) eqn:E1, (reads_as m (m + 1)) eqn:E2;
      try reflexivity; apply Hread in E2; lia.
  - set (p := (10 ^ Z.of_nat (S j))%Z).
    assert (Hp : (0 < p)%Z) by (apply Z.pow_pos_nonneg; lia).
    pose proof (Z.mul_div_le m p Hp) as Hlo.
    pose proof (Z.mod_pos_bound m p Hp) as Hmod.
    pose proof (Z.div_mod m p ltac:(lia)) as Hdm.
    assert (Hlo0 : (0 <= m / p * p)%Z).
    { apply Z.mul_nonneg_nonneg; [apply Z.div_pos |]; lia. }
    destruct (reads_as m (m / p * p)) eqn:E1,
             (reads_as m (m / p * p + p)) eqn:E2.
    + apply Hread in E2; lia.
    + apply Hread in E1; lia.
    + apply Hread in E2; lia.
    + exact IH.
Qed.

Lemma number_to_string_safe (n : Z) :
  (- 2 ^ 53 < n < 2 ^ 53)%Z -> number_to_string n = pretty n.
Proof.
  pose proof overflow_threshold_positive as Hpos.
  assert (H21 : (2 ^ 53 < 10 ^ 21)%Z) by reflexivity.
  assert (Hp : forall p, (Z.pos p < 2 ^ 53)%Z ->
                         positive_to_string (Z.pos p) = pretty (Z.pos p)).
  { intros p Hlt. unfold positive_to_string, nearest_double.
    destruct (Z.leb_spec overflow_threshold (Z.pos p)) as [H | _]; [lia |].
    rewrite round_to_double_safe by lia. cbv zeta.
    rewrite shortest_digits_safe by lia.
    destruct (Z.ltb_spec (Z.pos p) (10 ^ 21)) as [_ | H]; [reflexivity | lia]. }
  intros Hn. destruct n as [| p | p]; cbn [number_to_string].
  - reflexivity.
  - apply Hp. lia.
  - rewrite Hp by lia. reflexivity.
Qed.

(** validateName judges the string conversion of what it is given.  A
    missing name ([undefined]), [null] and the booleans are therefore
    accepted, under the names [undefined], [null], [true] and [false].  A
    number given as an integer is refused, with its string in the message,
    unless it is so large, from 2^1024 - 2^970 on, that it reads as
    [Infinity], which is accepted as a name; up to 2^53 the string is the
    decimal numeral, and 10^21 is reported as [1e+21].  A plain object is
    always refused.  An array is judged by the comma-separated strings of
    its elements: the array holding one identifier is accepted, the empty
    array and every array of two or more elements are never accepted. *)
Theorem validateName_by_kind :
  (forall v,
      validateName v = inr tt
      <-> exists s, to_string v = Some s /\ is_identifier s)
  /\ validateName VUndefined = inr tt
  /\ validateName VNull = inr tt
  /\ (forall b, validateName (VBool b) = inr tt)
  /\ (forall n,
         validateName (VNum n) = inr tt <-> (2 ^ 1024 - 2 ^ 970 <= n)%Z)
  /\ (forall n,
         (n < 2 ^ 1024 - 2 ^ 970)%Z ->
         validateName (VNum n)
         = inl (Error ("Invalid table/schema name: " +:+ number_to_string n)))
  /\ (forall n,
         (- 2 ^ 53 < n < 2 ^ 53)%Z ->
         validateName (VNum n)
         = inl (Error ("Invalid table/schema name: " +:+ pretty n)))
  /\ validateName (VNum (10 ^ 21))
     = inl (Error "Invalid table/schema name: 1e+21")
  /\ (forall ps, validateName (VObj ps) <> inr tt)
  /\ (forall s, is_identifier s -> validateName (VArr [VStr s]) = inr tt)
  /\ validateName (VArr []) <> inr tt
  /\ (forall x y xs, validateName (VArr (x :: y :: xs)) <> inr tt).
Proof.
  assert (Hiff : forall v,
             validateName v = inr tt
             <-> exists s, to_string v = Some s /\ is_identifier s).
  { intros v. unfold validateName, template.
    destruct (to_string v) as [s |]; cbn [res_bind].
    - destruct (regex_test name_pattern s) eqn:E.
      + split; [| reflexivity]. intros _. exists s.
        split; [reflexivity | now apply regex_test_name].
      + split; [discriminate |]. intros (s' & [= <-] & Hs).
        apply regex_test_name in Hs. congruence.
    - split; [discriminate | intros (s' & H & _); discriminate]. }
  assert (Hnum : forall n,
             validateName (VNum n) = inr tt <-> (overflow_threshold <= n)%Z).
  { intros n. rewrite Hiff, <- number_to_string_identifier.
    cbn [to_string]. split; [intros (s & [= <-] & H); exact H | eauto]. }
  assert (Hrefused : forall n,
             (n < overflow_threshold)%Z ->
             validateName (VNum n)
             = inl (Error ("Invalid table/schema name: "
                           +:+ number_to_string n))).
  { intros n Hn. unfold validateName. cbn [template to_string res_bind].
    destruct (regex_test name_pattern (number_to_string n)) eqn:E;
      [| reflexivity].
    apply regex_test_name, number_to_string_identifier in E. lia. }
  pose proof overflow_threshold_positive as Hpos.
  split; [exact Hiff |].
  split; [reflexivity |]. split; [reflexivity |].
  split; [intros []; reflexivity |].
  split; [exact Hnum |]. split; [exact Hrefused |].
  split.
  { intros n Hn. rewrite <- (number_to_string_safe n Hn).
    apply Hrefused. lia. }
  split; [reflexivity |].
  split.
  { intros ps H. apply Hiff in H as (s & Hs & Hid).
    cbn [to_string] in Hs. destruct (has_prop "toString" ps);
      [discriminate |].
    injection Hs as <-. apply regex_test_name in Hid. discriminate. }
  split.
  { intros s Hs. apply Hiff. exists s. split; [| exact Hs].
    cbn. now destruct s. }
  split.
  { intros H. apply Hiff in H as (s & [= <-] & Hid). exact Hid. }
  intros x y xs H. apply Hiff in H as (s & Hs & Hid).
  assert (Hcomma : forall a b, ~ is_identifier (a +:+ "," +:+ b)).
  { intros a b. destruct a as [| c a].
    - change ("" +:+ "," +:+ b) with (String "," b).
      intros [[[H | H] | H] _]; simpl in *; try lia; discriminate.
    - rewrite append_cons. intros [_ H]. induction a as [| c' a IH].
      + change ("" +:+ "," +:+ b) with (String "," b) in H.
        destruct H as [[[H | H] | [H | H]] _]; unfold is_digit in *;
          simpl in *; try lia; discriminate.
      + rewrite append_cons in H. destruct H as [_ H]. now apply IH. }
  cbn [to_string option_map] in Hs.
  destruct (match x with
            | VUndefined | VNull => Some ""
            | _ => to_string x
            end) as [sx |]; [| discriminate].
  destruct (match y with
            | VUndefined | VNull => Some ""
            | _ => to_string y
            end) as [sy |]; [| discriminate].
  destruct ((fix items (l : list value) : option (list string) := _) xs)
    as [ss |]; [| discriminate].
  injection Hs as <-. cbn [String.concat] in Hid.
  destruct ss as [| s1 ss]; exact (Hcomma _ _ Hid).
Qed.

Lemma validateName_by_kind_witness :
  validateName (VNum 42) = inl (Error "Invalid table/schema name: 42")
  /\ validateName (VArr [VStr "users"]) = inr tt.
Proof.
  split.
  - apply (proj1 (proj2 (proj2 (proj2 (proj2 (proj2 (proj2
             validateName_by_kind))))))). lia.
  - apply (proj1 (proj2 (proj2 (proj2 (proj2 (proj2 (proj2 (proj2 (proj2
             (proj2 validateName_by_kind)))))))))).
    apply regex_test_name. reflexivity.
Defined.

(** * Properties of the chat component *)

(** ** Suggestions *)

Lemma chat_templates_table :
  Chat.templates
  = map (fun e => (fst e, Some (snd e))) Chat.hints
    ++ [ ("insert", Chat.read "add" Chat.hints);
         ("delete", Chat.read "remove" Chat.hints);
         ("find", Chat.read "search" Chat.hints) ].
Proof. reflexivity. Qed.

Lemma chat_templates_defined (e : string * option string) :
  In e Chat.templates ->
  exists key text, snd e = Some text /\ In (key, text) Chat.hints.
Proof.
  rewrite chat_templates_table. cbn [Chat.hints map app Chat.read fst snd].
  cbn [String.eqb Ascii.eqb Bool.eqb].
  intros H.
  repeat (destruct H as [<- | H];
          [cbn [snd]; eexists _, _; split;
           [reflexivity |
            unfold Chat.hints; cbn [In];
            repeat (first [left; reflexivity | right])] |]).
  destruct H.
Qed.

Lemma chat_suggest_defined (input : string) :
  Forall (fun x => exists key text, x = Some text /\ In (key, text) Chat.hints)
         (Chat.suggest input).
Proof.
  unfold Chat.suggest. apply List.Forall_forall. intros x Hx.
  apply in_map_iff in Hx as (e & <- & He).
  apply filter_In in He as [He _].
  now apply chat_templates_defined.
Qed.

Lemma chat_prefix_head (c : ascii) (rest key : string) :
  String.prefix (String c rest) key = true -> Chat.first_letter key = Some c.
Proof.
  destruct key as [| k key]; cbn [String.prefix]; [discriminate |].
  destruct (ascii_dec c k) as [-> | _]; [reflexivity | discriminate].
Qed.

Lemma chat_filter_none {A} (p : A -> bool) (l : list A) :
  (forall e, In e l -> p e = false) -> List.filter p l = [].
Proof.
  induction l as [| e l IH]; intros H; [reflexivity |].
  cbn [List.filter]. rewrite (H e) by (left; reflexivity).
  apply IH. intros x Hx. apply H. now right.
Qed.

Lemma chat_filter_at_most_one {A B} (h : A -> B) (b : B) (p : A -> bool)
  (l : list A) :
  (forall e, p e = true -> h e = b) ->
  List.NoDup (map h l) ->
  length (List.filter p l) <= 1.
Proof.
  intros Hp. induction l as [| e l IH]; intros Hnd; [simpl; lia |].
  cbn [map] in Hnd. inversion Hnd as [| x l' Hnot Hnd']; subst.
  cbn [List.filter]. destruct (p e) eqn:E; [| now apply IH].
  rewrite (chat_filter_none p l); [simpl; lia |].
  intros x Hx. destruct (p x) eqn:Ex; [| reflexivity].
  exfalso. apply Hnot. rewrite (Hp e E), <- (Hp x Ex).
  now apply in_map.
Qed.

(** The nine keywords start with nine different letters: a non-empty input
    is a prefix of at most one of them. *)
Lemma chat_suggest_at_most_one (input : string) :
  input <> "" -> length (Chat.suggest input) <= 1.
Proof.
  destruct input as [| c rest]; [congruence |]. intros _.
  unfold Chat.suggest. rewrite length_map.
  apply (chat_filter_at_most_one (fun e => Chat.first_letter (fst e))
           (Some (Chat.lower_char c))).
  - intros e. apply chat_prefix_head.
  - rewrite chat_templates_table. cbn.
    repeat (apply List.NoDup_cons; [cbn; intuition discriminate |]).
    apply List.NoDup_nil.
Qed.

(** The suggestions under the input line are the texts of the keywords of
    which the input, in lower case, is a prefix; each is the text of one of
    the six hints, an alias carrying the text of its original.  As soon as
    the input is not empty there is at most one suggestion; for the empty
    input all nine keywords match, so that the texts of the three aliased
    hints are suggested twice. *)
Theorem chat_suggestions (input : string) :
  Forall (fun x => exists key text, x = Some text /\ In (key, text) Chat.hints)
         (Chat.suggest input)
  /\ (forall x,
         In x (Chat.suggest input)
         <-> exists key,
             In (key, x) Chat.templates
             /\ String.prefix (Chat.toLowerCase input) key = true)
  /\ (input <> "" -> length (Chat.suggest input) <= 1)
  /\ (forall alias original,
         In (alias, original) Chat.aliasMap ->
         Chat.read alias Chat.templates = Some (Chat.read original Chat.hints)
         /\ Chat.read original Chat.hints <> None)
  /\ length (Chat.suggest "") = 9
  /\ ~ List.NoDup (Chat.suggest "").
Proof.
  split; [apply chat_suggest_defined |].
  split.
  { intros x. unfold Chat.suggest. rewrite in_map_iff. split.
    - intros ([key y] & Hy & He). cbn [snd] in Hy. subst y.
      apply filter_In in He as [He Hp]. exists key. now split.
    - intros (key & He & Hp). exists (key, x). split; [reflexivity |].
      apply filter_In. now split. }
  split; [apply chat_suggest_at_most_one |].
  split.
  { intros alias original H.
    repeat (destruct H as [[= <- <-] | H]; [split; [reflexivity | discriminate] |]).
    destruct H. }
  split; [reflexivity |].
  intros H. apply List.NoDup_cons_iff in H as [_ H].
  apply List.NoDup_cons_iff in H as [H _]. apply H.
  vm_compute. repeat (first [left; reflexivity | right]).
Qed.

Lemma chat_suggestions_witness :
  length (Chat.suggest "Ins") <= 1
  /\ Chat.read "insert" Chat.templates = Some (Chat.read "add" Chat.hints).
Proof.
  destruct (chat_suggestions "Ins") as (_ & _ & Hone & Halias & _).
  split; [apply Hone; discriminate |].
  apply (Halias "insert" "add"). left. reflexivity.
Defined.

(** ** The highlighted suggestion *)

Lemma chat_step_well_formed (st : Chat.state) (e : Chat.event) :
  Chat.well_formed st ->
  exists st', Chat.step st e = Some st' /\ Chat.well_formed st'.
Proof.
  intros (Hidx & Hall & Hin).
  destruct (Chat.userInput st) as [input |] eqn:Hu; [clear Hin | congruence].
  assert (Hreset : forall m u b p,
             u <> None ->
             Chat.well_formed
               {| Chat.messages := m; Chat.userInput := u;
                  Chat.isBotProcessing := b; Chat.suggestions := [];
                  Chat.selectedSuggestionIndex := (-1)%Z;
                  Chat.posted := p |}).
  { intros m u b p Hne. repeat split; [now left | constructor | exact Hne]. }
  destruct e as [text | | s | | key | outside | output |]; cbn [Chat.step].
  - eexists. split; [reflexivity |].
    repeat split; [exact Hidx | exact Hall | discriminate].
  - unfold Chat.onUserTyping. rewrite Hu. eexists. split; [reflexivity |].
    repeat split; cbn; [now left | | discriminate].
    eapply Forall_impl; [apply chat_suggest_defined |].
    intros x (key & text & -> & _). discriminate.
  - eexists. split; [reflexivity |]. now apply Hreset.
  - unfold Chat.sendMessage. rewrite Hu.
    destruct (String.eqb (Chat.trim input) "").
    + eexists. split; [reflexivity |].
      repeat split; [exact Hidx | exact Hall | congruence].
    + eexists. split; [reflexivity |]. now apply Hreset.
  - eexists. split; [reflexivity |]. unfold Chat.handleKeyDown.
    set (n := Z.of_nat (length (Chat.suggestions st))).
    set (i := Chat.selectedSuggestionIndex st).
    fold n i in Hidx.
    assert (Hst : Chat.well_formed st)
      by (repeat split; [exact Hidx | exact Hall | congruence]).
    destruct (Z.eqb_spec n 0) as [_ | Hn]; [exact Hst |].
    assert (Hpos : (0 < n)%Z) by lia.
    destruct (String.eqb key "ArrowDown").
    { repeat split; cbn; [right | exact Hall | congruence]. fold n.
      destruct Hidx as [-> | Hi].
      - change (-1 + 1)%Z with 0%Z. rewrite Z.rem_0_l by lia. lia.
      - apply Z.rem_bound_pos; lia. }
    destruct (String.eqb key "ArrowUp").
    { repeat split; cbn; [right | exact Hall | congruence]. fold n.
      destruct (Z.leb_spec i 0); lia. }
    destruct (String.eqb key "Enter"); cbn [andb]; [| exact Hst].
    destruct (Z.eqb_spec i (-1)) as [_ | Hi]; cbn [negb]; [exact Hst |].
    apply Hreset. unfold Chat.suggestion_at. fold i.
    destruct Hidx as [? | Hi']; [contradiction |].
    destruct (Z.ltb_spec i 0) as [? | _]; [lia |].
    destruct (nth_error (Chat.suggestions st) (Z.to_nat i)) as [x |] eqn:E.
    + rewrite List.Forall_forall in Hall. apply Hall.
      eapply nth_error_In, E.
    + apply nth_error_None in E. unfold n in Hi'. lia.
  - destruct outside; cbn [Chat.handleOutsideClick];
      eexists; (split; [reflexivity |]).
    + apply Hreset. congruence.
    + repeat split; [exact Hidx | exact Hall | congruence].
  - eexists. split; [reflexivity |].
    repeat split; cbn; [exact Hidx | exact Hall | congruence].
  - eexists. split; [reflexivity |].
    repeat split; cbn; [exact Hidx | exact Hall | congruence].
Qed.

(** Whatever sequence of edits, method calls, key presses, clicks and
    responses the component goes through from its initial state, no method
    raises, the input line always holds a string, every suggestion is a
    string, and the highlighted index is -1 or the index of a suggestion
    that exists: Enter never selects a suggestion that is not there. *)
Theorem chat_selection_in_range (es : list Chat.event) :
  exists st, Chat.run Chat.initial es = Some st /\ Chat.well_formed st.
Proof.
  assert (Hrun : forall es st,
             Chat.well_formed st ->
             exists st', Chat.run st es = Some st' /\ Chat.well_formed st').
  { clear es. induction es as [| e es IH]; intros st Hst.
    - exists st. now split.
    - destruct (chat_step_well_formed st e Hst) as (st1 & Hstep & H1).
      cbn [Chat.run]. rewrite Hstep. now apply IH. }
  apply Hrun. repeat split; [now left | constructor | discriminate].
Qed.

Lemma chat_arrow_down (st : Chat.state) :
  Chat.suggestions st <> [] ->
  Chat.handleKeyDown "ArrowDown" st
  = Chat.with_index st
      (Z.rem (Chat.selectedSuggestionIndex st + 1)
             (Z.of_nat (length (Chat.suggestions st)))).
Proof.
  intros H. unfold Chat.handleKeyDown.
  destruct (Z.eqb_spec (Z.of_nat (length (Chat.suggestions st))) 0)
    as [E | _]; [| reflexivity].
  destruct (Chat.suggestions st); [congruence | simpl in E; lia].
Qed.

Lemma chat_arrow_up (st : Chat.state) :
  Chat.suggestions st <> [] ->
  Chat.handleKeyDown "ArrowUp" st
  = Chat.with_index st
      (if (Chat.selectedSuggestionIndex st <=? 0)%Z
       then Z.of_nat (length (Chat.suggestions st)) - 1
       else Chat.selectedSuggestionIndex st - 1)%Z.
Proof.
  intros H. unfold Chat.handleKeyDown.
  destruct (Z.eqb_spec (Z.of_nat (length (Chat.suggestions st))) 0)
    as [E | _]; [| reflexivity].
  destruct (Chat.suggestions st); [congruence | simpl in E; lia].
Qed.

Lemma chat_arrow_down_iter (st : Chat.state) (k : nat) :
  Chat.suggestions st <> [] ->
  (0 <= Chat.selectedSuggestionIndex st)%Z ->
  Nat.iter k (Chat.handleKeyDown "ArrowDown") st
  = Chat.with_index st
      ((Chat.selectedSuggestionIndex st + Z.of_nat k)
       mod Z.of_nat (length (Chat.suggestions st)))%Z
  \/ k = 0.
Proof.
  intros Hne Hi. destruct k as [| k]; [now right |]. left.
  set (n := Z.of_nat (length (Chat.suggestions st))).
  assert (Hn : (0 < n)%Z)
    by (unfold n; destruct (Chat.suggestions st); [congruence | simpl; lia]).
  induction k as [| k IH].
  - cbn [Nat.iter nat_rect]. rewrite chat_arrow_down by exact Hne. fold n.
    rewrite Z.rem_mod_nonneg by lia. reflexivity.
  - change (Nat.iter (S (S k)) (Chat.handleKeyDown "ArrowDown") st)
      with (Chat.handleKeyDown "ArrowDown"
              (Nat.iter (S k) (Chat.handleKeyDown "ArrowDown") st)).
    rewrite IH. rewrite chat_arrow_down by exact Hne.
    cbn [Chat.with_index Chat.selectedSuggestionIndex Chat.suggestions].
    fold n. unfold Chat.with_index. cbn. f_equal.
    rewrite Z.rem_mod_nonneg
      by (try lia; pose proof (Z.mod_pos_bound
                                 (Chat.selectedSuggestionIndex st
                                  + Z.of_nat (S k)) n Hn); lia).
    rewrite Zplus_mod_idemp_l. f_equal. lia.
Qed.

(** With suggestions on display, ArrowDown from no selection highlights the
    first suggestion and ArrowUp the last; on a highlighted suggestion
    ArrowDown and ArrowUp undo each other, wrapping around at both ends; and
    pressing ArrowDown as many times as there are suggestions comes back to
    the same one.  The arrows change nothing but the highlighted index. *)
Theorem chat_arrow_keys (st : Chat.state) :
  Chat.suggestions st <> [] ->
  let n := Z.of_nat (length (Chat.suggestions st)) in
  let i := Chat.selectedSuggestionIndex st in
  let down := Chat.handleKeyDown "ArrowDown" in
  let up := Chat.handleKeyDown "ArrowUp" in
  (i = (-1)%Z -> down st = Chat.with_index st 0
                 /\ up st = Chat.with_index st (n - 1))
  /\ ((0 <= i < n)%Z ->
      up (down st) = st /\ down (up st) = st
      /\ Nat.iter (length (Chat.suggestions st)) down st = st).
Proof.
  intros Hne n i down up.
  assert (Hn : (0 < n)%Z)
    by (unfold n; destruct (Chat.suggestions st); [congruence | simpl; lia]).
  assert (Hsame : forall j, Chat.suggestions (Chat.with_index st j) <> [])
    by (intros j; exact Hne).
  assert (Hid : forall j, j = i -> Chat.with_index st j = st)
    by (intros j ->; destruct st; reflexivity).
  assert (Hagain : forall j k,
             Chat.with_index (Chat.with_index st j) k = Chat.with_index st k)
    by reflexivity.
  split.
  - intros Hi. unfold down, up.
    rewrite chat_arrow_down, chat_arrow_up by exact Hne. fold n i.
    rewrite Hi. split; reflexivity.
  - intros Hi. unfold down, up. split; [| split].
    + rewrite (chat_arrow_down st Hne). fold n i.
      rewrite chat_arrow_up by apply Hsame.
      cbn [Chat.with_index Chat.selectedSuggestionIndex Chat.suggestions].
      fold n. fold (Chat.with_index st (Z.rem (i + 1) n)).
      rewrite Hagain. apply Hid.
      rewrite Z.rem_mod_nonneg by lia.
      destruct (Z.eq_dec i (n - 1)%Z) as [E | E].
      * replace (i + 1)%Z with n by lia. rewrite Z_mod_same_full.
        cbn. lia.
      * rewrite Z.mod_small by lia.
        destruct (Z.leb_spec (i + 1) 0); lia.
    + rewrite (chat_arrow_up st Hne). fold n i.
      rewrite chat_arrow_down by apply Hsame.
      cbn [Chat.with_index Chat.selectedSuggestionIndex Chat.suggestions].
      fold n.
      fold (Chat.with_index st (if (i <=? 0)%Z then n - 1 else i - 1)%Z).
      rewrite Hagain. apply Hid.
      destruct (Z.leb_spec i 0).
      * replace (n - 1 + 1)%Z with n by lia.
        rewrite Z.rem_mod_nonneg by lia. rewrite Z_mod_same_full. lia.
      * replace (i - 1 + 1)%Z with i by lia.
        rewrite Z.rem_mod_nonneg by lia. apply Z.mod_small. lia.
    + destruct (chat_arrow_down_iter st (length (Chat.suggestions st)) Hne)
        as [E | E]; [fold i; lia | | ].
      * rewrite E. fold n i. apply Hid.
        rewrite <- (Z.mul_1_l n) at 1. rewrite Z_mod_plus_full.
        apply Z.mod_small. lia.
      * destruct (Chat.suggestions st); [congruence | discriminate].
Qed.

(** ** Sending and the transcript *)

Lemma chat_trimEnd_empty (s : string) :
  Chat.trimEnd s = "" <-> Chat.blank s.
Proof.
  induction s as [| c s IH]; cbn [Chat.trimEnd Chat.blank]; [tauto |].
  destruct (Chat.trimEnd s) as [| d r].
  - destruct (Chat.is_space c).
    + split; [| reflexivity]. intros _. split; [reflexivity | now apply IH].
    + split; [discriminate |]. intros [H _]. discriminate.
  - split; [discriminate |]. intros [_ H]. apply IH in H. discriminate.
Qed.

Lemma chat_trimStart_blank (s : string) :
  Chat.blank (Chat.trimStart s) <-> Chat.blank s.
Proof.
  induction s as [| c s IH]; cbn [Chat.trimStart Chat.blank]; [tauto |].
  destruct (Chat.is_space c) eqn:E.
  - rewrite IH. tauto.
  - cbn [Chat.blank]. rewrite E. tauto.
Qed.

Lemma chat_trim_empty (s : string) : Chat.trim s = "" <-> Chat.blank s.
Proof.
  unfold Chat.trim. rewrite chat_trimEnd_empty. apply chat_trimStart_blank.
Qed.

(** sendMessage does nothing at all when the input line holds only white
    space.  Otherwise it appends the input line to the transcript as a user
    message, exactly as typed (not trimmed), hands the same text to the API
    service, empties the input line, removes the suggestions and marks the
    bot as processing. *)
Theorem chat_sendMessage (st : Chat.state) (input : string) :
  Chat.userInput st = Some input ->
  (Chat.blank input -> Chat.sendMessage st = Some st)
  /\ (~ Chat.blank input ->
      Chat.sendMessage st
      = Some {| Chat.messages := Chat.messages st ++ [("user", input)];
                Chat.userInput := Some "";
                Chat.isBotProcessing := true;
                Chat.suggestions := [];
                Chat.selectedSuggestionIndex := (-1)%Z;
                Chat.posted := Chat.posted st ++ [input] |}).
Proof.
  intros Hu. unfold Chat.sendMessage. rewrite Hu.
  destruct (String.eqb_spec (Chat.trim input) "") as [E | E].
  - apply chat_trim_empty in E. split; [reflexivity | contradiction].
  - split; [| reflexivity]. intros H. apply chat_trim_empty in H.
    contradiction.
Qed.

Lemma chat_sendMessage_witness :
  Chat.sendMessage (Chat.edit "  add row " Chat.initial)
  = Some {| Chat.messages := [("user", "  add row ")];
            Chat.userInput := Some "";
            Chat.isBotProcessing := true;
            Chat.suggestions := [];
            Chat.selectedSuggestionIndex := (-1)%Z;
            Chat.posted := ["  add row "] |}.
Proof.
  refine (proj2 (chat_sendMessage (Chat.edit "  add row " Chat.initial)
                   "  add row " eq_refl) _).
  intros (_ & _ & H & _). discriminate.
Defined.

(** One event extends the transcript, and what it adds for the user is what
    it posts. *)
Lemma chat_step_transcript (st st' : Chat.state) (e : Chat.event) :
  Chat.step st e = Some st' ->
  exists new,
    Chat.messages st' = Chat.messages st ++ new
    /\ Chat.posted st'
       = Chat.posted st
         ++ map snd (List.filter (fun m => String.eqb (fst m) "user") new).
Proof.
  destruct e as [text | | s | | key | outside | output |]; cbn [Chat.step].
  - intros [= <-]. exists []. cbn. now rewrite !app_nil_r.
  - unfold Chat.onUserTyping. destruct (Chat.userInput st); [| discriminate].
    intros [= <-]. exists []. cbn. now rewrite !app_nil_r.
  - intros [= <-]. exists []. cbn. now rewrite !app_nil_r.
  - unfold Chat.sendMessage.
    destruct (Chat.userInput st) as [input |]; [| discriminate].
    destruct (String.eqb (Chat.trim input) "").
    + intros [= <-]. exists []. cbn. now rewrite !app_nil_r.
    + intros [= <-]. exists [("user", input)]. split; reflexivity.
  - intros [= <-]. exists []. rewrite !app_nil_r.
    unfold Chat.handleKeyDown.
    repeat (case_match; try (split; reflexivity)).
  - intros [= <-]. exists []. rewrite !app_nil_r.
    destruct outside; split; reflexivity.
  - intros [= <-]. exists [("assistant", output)]. cbn.
    now rewrite app_nil_r.
  - intros [= <-]. exists []. cbn. now rewrite !app_nil_r.
Qed.

(** Through any sequence of events the transcript only grows at its end, and
    the texts handed to the API service are exactly the user messages added
    to the transcript, in the same order: nothing is sent that is not shown,
    and nothing shown as a user message is left unsent. *)
Theorem chat_transcript (es : list Chat.event) (st st' : Chat.state) :
  Chat.run st es = Some st' ->
  exists new,
    Chat.messages st' = Chat.messages st ++ new
    /\ Chat.posted st'
       = Chat.posted st
         ++ map snd (List.filter (fun m => String.eqb (fst m) "user") new).
Proof.
  revert st. induction es as [| e es IH]; intros st; cbn [Chat.run].
  - intros [= <-]. exists []. cbn. now rewrite !app_nil_r.
  - destruct (Chat.step st e) as [st1 |] eqn:E; [| discriminate].
    intros Hrun.
    destruct (chat_step_transcript st st1 e E) as (n1 & Hm1 & Hp1).
    destruct (IH st1 Hrun) as (n2 & Hm2 & Hp2).
    exists (n1 ++ n2). split.
    + rewrite Hm2, Hm1. now rewrite <- app_assoc.
    + rewrite Hp2, Hp1, List.filter_app, map_app. now rewrite <- app_assoc.
Qed.

Lemma chat_transcript_witness :
  exists new,
    Chat.messages
      {| Chat.messages := [("user", "hello"); ("assistant", "hi")];
         Chat.userInput := Some ""; Chat.isBotProcessing := false;
         Chat.suggestions := [];
         Chat.selectedSuggestionIndex := (-1)%Z;
         Chat.posted := ["hello"] |}
    = Chat.messages Chat.initial ++ new
    /\ ["hello"]
       = Chat.posted Chat.initial
         ++ map snd (List.filter (fun m => String.eqb (fst m) "user") new).
Proof.
  exact (chat_transcript
           [Chat.Edit "hello"; Chat.Send; Chat.Response "hi"]
           Chat.initial _ eq_refl).
Defined.

Lemma chat_arrow_keys_witness :
  Chat.handleKeyDown "ArrowDown"
    {| Chat.messages := []; Chat.userInput := Some "";
       Chat.isBotProcessing := false;
       Chat.suggestions := [Some "a"; Some "b"];
       Chat.selectedSuggestionIndex := (-1)%Z; Chat.posted := [] |}
  = {| Chat.messages := []; Chat.userInput := Some "";
       Chat.isBotProcessing := false;
       Chat.suggestions := [Some "a"; Some "b"];
       Chat.selectedSuggestionIndex := 0%Z; Chat.posted := [] |}.
Proof.
  refine (proj1 (proj1 (chat_arrow_keys
                          {| Chat.messages := []; Chat.userInput := Some "";
                             Chat.isBotProcessing := false;
                             Chat.suggestions := [Some "a"; Some "b"];
                             Chat.selectedSuggestionIndex := (-1)%Z;
                             Chat.posted := [] |} _) eq_refl)).
  discriminate.
Defined.

(** * Properties of the chat endpoint *)

Section AgentProperties.
Context {pool : Pool} {engine : Engine} {host : Agent.Host}.

(** Each of the seven tools destructures its argument in its parameter list,
    outside its [try] block. *)
Lemma agent_tool_destructures (key : string) (fn : value -> M envelope)
  (input : value) (w : World) :
  Agent.own_tool key Agent.tools = Some fn ->
  input = VUndefined \/ input = VNull ->
  fn input w = (inl (TypeError CannotDestructure), w).
Proof.
  unfold Agent.tools. cbn [Agent.own_tool].
  intros Hfn Hin.
  repeat (match type of Hfn with
          | (if ?b then _ else _) = _ => destruct b
          end;
          [ injection Hfn as <-; destruct Hin as [-> | ->]; reflexivity | ]).
  discriminate.
Qed.

Lemma agent_strict_eq_str (v : value) (s : string) :
  strict_eq_str v s = true <-> v = VStr s.
Proof.
  destruct v; cbn; split; try discriminate; try congruence.
  - intros H. apply String.eqb_eq in H. now subst.
  - intros [= ->]. apply String.eqb_refl.
Qed.

(** The round of a reply that is an action. *)
Lemma agent_action_round (messages : list (string * value)) (w : World)
  (content result : value) :
  Agent.reply messages = inr (content, result) ->
  get result "type" = inr (VStr "action") ->
  Agent.one_round messages w
  = Agent.act result (Agent.with_reply messages content) w.
Proof.
  intros Hr Ht. unfold Agent.one_round. rewrite Hr, Ht. reflexivity.
Qed.

Lemma agent_envelope_report (env : envelope) :
  Agent.report (Agent.envelope_value env)
  = inr ("developer",
         VStr (Agent.stringify
                 (VObj [("type", VStr "observation");
                        ("success",
                         VBool (match env with
                                | Failure _ => false
                                | _ => true
                                end));
                        ("observation", Agent.envelope_value env)]))).
Proof. destruct env; reflexivity. Qed.

(** An action naming one of the seven tools: a call the tool rejects ends
    the request with status 500 and the message of the error, which is what
    happens when the action carries no input, before any statement is
    issued; an envelope, successful or not, does not end the request but
    is reported to the model with its success flag, and the loop goes on.
    A call during which the process exits leaves the request without a
    response. *)
Theorem agent_tool_action (fuel : nat) (messages : list (string * value))
  (w : World) (content result : value) (key : string) (input : value)
  (fn : value -> M envelope) :
  Agent.reply messages = inr (content, result) ->
  get result "type" = inr (VStr "action") ->
  Agent.key_and_input result = inr (key, input) ->
  Agent.own_tool key Agent.tools = Some fn ->
  (input = VUndefined \/ input = VNull ->
   Agent.loop (S fuel) messages w
   = Some (Agent.ServerError (engine_message CannotDestructure),
           Agent.with_reply messages content, w))
  /\ (forall (e : exn) w',
        fn input w = (inl e, w') ->
        Agent.loop (S fuel) messages w
        = Some (Agent.ServerError (message_of e),
                Agent.with_reply messages content, w'))
  /\ (forall env w',
        fn input w = (inr env, w') ->
        Agent.loop (S fuel) messages w
        = Agent.loop fuel
            (Agent.with_reply messages content
             ++ [("developer",
                  VStr (Agent.stringify
                          (VObj [("type", VStr "observation");
                                 ("success",
                                  VBool (match env with
                                         | Failure _ => false
                                         | _ => true
                                         end));
                                 ("observation",
                                  Agent.envelope_value env)])))])
            w')
  /\ (forall reason w',
        fn input w = (inl (Exit reason), w') ->
        Agent.loop (S fuel) messages w
        = Some (Agent.NoResponse, Agent.with_reply messages content, w')).
Proof.
  intros Hr Ht Hk Hfn.
  assert (Hround : Agent.one_round messages w
                   = match fn input w with
                     | (inl (Raise e), w') =>
                         Agent.Respond (Agent.ServerError (message_of e))
                                       (Agent.with_reply messages content) w'
                     | (inl (Exit _), w') =>
                         Agent.Respond Agent.NoResponse
                                       (Agent.with_reply messages content) w'
                     | (inr env, w') =>
                         match Agent.raised
                                 (Agent.report (Agent.envelope_value env)) with
                         | inl m =>
                             Agent.Respond (Agent.ServerError m)
                               (Agent.with_reply messages content) w'
                         | inr developer =>
                             Agent.Continue
                               (Agent.with_reply messages content
                                ++ [developer]) w'
                         end
                     end).
  { rewrite (agent_action_round messages w content result Hr Ht).
    unfold Agent.act. rewrite Hk. cbn [Agent.raised]. rewrite Hfn.
    reflexivity. }
  split; [| split; [| split]].
  - intros Hin. cbn [Agent.loop]. rewrite Hround.
    rewrite (agent_tool_destructures key fn input w Hfn Hin). reflexivity.
  - intros e w' Hcall. cbn [Agent.loop]. rewrite Hround, Hcall. reflexivity.
  - intros env w' Hcall. cbn [Agent.loop]. rewrite Hround, Hcall.
    rewrite agent_envelope_report. reflexivity.
  - intros reason w' Hcall. cbn [Agent.loop]. rewrite Hround, Hcall.
    reflexivity.
Qed.

(** The request is answered with status 400 and [Invalid function] exactly
    when the reply is an action whose function, as a property key, is none
    of the seven tools and nothing the tool table inherits; the reply has
    then been added to the messages and no statement was issued. *)
Theorem agent_invalid_function (messages messages' : list (string * value))
  (w w' : World) :
  Agent.one_round messages w
  = Agent.Respond Agent.InvalidFunction messages' w'
  <-> exists content result key input,
        Agent.reply messages = inr (content, result)
        /\ get result "type" = inr (VStr "action")
        /\ Agent.key_and_input result = inr (key, input)
        /\ Agent.own_tool key Agent.tools = None
        /\ Agent.inherited key = None
        /\ messages' = Agent.with_reply messages content
        /\ w' = w.
Proof.
  split.
  - unfold Agent.one_round.
    destruct (Agent.reply messages) as [m | [content result]] eqn:Hr;
      [discriminate |].
    destruct (get result "type") as [e | type] eqn:Ht; cbn [Agent.raised];
      [discriminate |].
    destruct (strict_eq_str type "output") eqn:Ho.
    { destruct (Agent.raised (get result "output")); discriminate. }
    destruct (strict_eq_str type "action") eqn:Ha; [| discriminate].
    apply agent_strict_eq_str in Ha. subst type.
    unfold Agent.act.
    destruct (Agent.key_and_input result) as [e | [key input]] eqn:Hk;
      cbn [Agent.raised]; [discriminate |].
    destruct (Agent.own_tool key Agent.tools) as [fn |] eqn:Hfn.
    { destruct (fn input w) as [[[e | reason] | env] w1]; try discriminate.
      destruct (Agent.raised (Agent.report (Agent.envelope_value env)));
        discriminate. }
    destruct (Agent.inherited key) as [member |] eqn:Hi.
    { destruct (member input) as [m | observation]; [discriminate |].
      destruct (Agent.raised (Agent.report observation)); discriminate. }
    intros [= <- <-].
    exists content, result, key, input. repeat split; assumption.
  - intros (content & result & key & input & Hr & Ht & Hk & Hfn & Hi & -> & ->).
    rewrite (agent_action_round messages w content result Hr Ht).
    unfold Agent.act. rewrite Hk. cbn [Agent.raised]. rewrite Hfn, Hi.
    reflexivity.
Qed.

(** What a round does to the messages and to the store when the reply names
    no tool. *)
Lemma agent_round_without_tool (messages : list (string * value)) (w : World) :
  (forall content result,
      Agent.reply messages = inr (content, result) ->
      ~ Agent.names_tool result) ->
  match Agent.one_round messages w with
  | Agent.Respond _ _ w' => w' = w
  | Agent.Continue _ w' => w' = w
  end.
Proof.
  intros Hno. unfold Agent.one_round.
  destruct (Agent.reply messages) as [m | [content result]] eqn:Hr;
    [reflexivity |].
  specialize (Hno content result eq_refl).
  destruct (get result "type") as [e | type] eqn:Ht; cbn [Agent.raised];
    [reflexivity |].
  destruct (strict_eq_str type "output") eqn:Ho.
  { destruct (Agent.raised (get result "output")); reflexivity. }
  destruct (strict_eq_str type "action") eqn:Ha; [| reflexivity].
  apply agent_strict_eq_str in Ha. subst type.
  unfold Agent.act.
  destruct (Agent.key_and_input result) as [e | [key input]] eqn:Hk;
    cbn [Agent.raised]; [reflexivity |].
  destruct (Agent.own_tool key Agent.tools) as [fn |] eqn:Hfn.
  { exfalso. apply Hno. exists key, input, fn. repeat split; assumption. }
  destruct (Agent.inherited key) as [member |]; [| reflexivity].
  destruct (member input) as [m | observation]; [reflexivity |].
  destruct (Agent.raised (Agent.report observation)); reflexivity.
Qed.

(** The handler issues statements only through the seven tools: as long as
    no reply of the model is an action naming one of them, the store and the
    list of issued statements are at the end of the request what they were
    at its start, however many rounds it took and however it was answered. *)
Theorem agent_statements_need_a_tool (fuel : nat) (body : value)
  (w w' : World) (r : Agent.response) (messages' : list (string * value)) :
  (forall messages content result,
      Agent.reply messages = inr (content, result) ->
      ~ Agent.names_tool result) ->
  Agent.chat fuel body w = Some (r, messages', w') ->
  w' = w.
Proof.
  intros Hno. unfold Agent.chat.
  destruct (Agent.raised (field body "userInput")) as [m | userInput].
  { now intros [= _ _ <-]. }
  generalize (Agent.opening userInput) as messages.
  induction fuel as [| fuel IH]; intros messages; cbn [Agent.loop];
    [discriminate |].
  pose proof (agent_round_without_tool messages w (Hno messages)) as Hw.
  destruct (Agent.one_round messages w) as [r1 m1 w1 | m1 w1]; subst w1.
  - now intros [= _ _ <-].
  - apply IH.
Qed.

(** What a round adds to the messages. *)
Lemma agent_round_messages (messages : list (string * value)) (w : World) :
  exists added,
    match Agent.one_round messages w with
    | Agent.Respond _ ms _ => ms = messages ++ added
    | Agent.Continue ms _ => ms = messages ++ added
    end
    /\ (added = []
        \/ (exists c, added = [("assistant", c)])
        \/ (exists c d, added = [("assistant", c); ("developer", d)])).
Proof.
  assert (Hreport : forall observation m,
             Agent.report observation = inr m -> exists d, m = ("developer", d)).
  { intros observation m. unfold Agent.report.
    destruct (get observation "success"); cbn; [discriminate |].
    destruct (entries observation); cbn; [discriminate |].
    intros [= <-]. eauto. }
  assert (Hnone : forall l : list (string * value),
             exists added, l = l ++ added /\
               (added = [] \/ (exists c, added = [("assistant", c)])
                \/ (exists c d, added = [("assistant", c); ("developer", d)]))).
  { intros l. exists []. split; [now rewrite app_nil_r | now left]. }
  assert (Hone : forall (l : list (string * value)) content,
             exists added, Agent.with_reply l content = l ++ added /\
               (added = [] \/ (exists c, added = [("assistant", c)])
                \/ (exists c d, added = [("assistant", c); ("developer", d)]))).
  { intros l content. eexists. split; [reflexivity |]. right. left. eauto. }
  assert (Htwo : forall (l : list (string * value)) content d,
             exists added,
               Agent.with_reply l content ++ [("developer", d)] = l ++ added /\
               (added = [] \/ (exists c, added = [("assistant", c)])
                \/ (exists c d, added = [("assistant", c); ("developer", d)]))).
  { intros l content d. eexists. split.
    - unfold Agent.with_reply. rewrite <- app_assoc. reflexivity.
    - right. right. cbn. eauto. }
  unfold Agent.one_round.
  destruct (Agent.reply messages) as [m | [content result]]; [apply Hnone |].
  destruct (Agent.raised (get result "type")) as [m | type]; [apply Hone |].
  destruct (strict_eq_str type "output").
  { destruct (Agent.raised (get result "output")); apply Hone. }
  destruct (strict_eq_str type "action"); [| apply Hone].
  unfold Agent.act.
  destruct (Agent.raised (Agent.key_and_input result)) as [m | [key input]];
    [apply Hone |].
  destruct (Agent.own_tool key Agent.tools) as [fn |].
  { destruct (fn input w) as [[[e | reason] | env] w1]; try apply Hone.
    destruct (Agent.report (Agent.envelope_value env)) as [e | m] eqn:E;
      cbn [Agent.raised]; [apply Hone |].
    destruct (Hreport _ _ E) as [d ->]. apply Htwo. }
  destruct (Agent.inherited key) as [member |]; [| apply Hone].
  destruct (member input) as [m | observation]; [apply Hone |].
  destruct (Agent.report observation) as [e | m] eqn:E;
    cbn [Agent.raised]; [apply Hone |].
  destruct (Hreport _ _ E) as [d ->]. apply Htwo.
Qed.

(** The messages of a request only grow: whatever the model was sent
    before it is sent again, what is added is the model's own replies, as
    assistant messages, and the observations, as developer messages, and an
    observation is added only after the reply that asked for it, so that
    there are never more observations than replies. *)
Theorem agent_messages_grow (fuel : nat) (messages messages' : list (string * value))
  (w w' : World) (r : Agent.response) :
  Agent.loop fuel messages w = Some (r, messages', w') ->
  exists added,
    messages' = messages ++ added
    /\ List.Forall (fun m => Agent.role m = "assistant"
                             \/ Agent.role m = "developer") added
    /\ length (Agent.of_role "developer" added)
       <= length (Agent.of_role "assistant" added).
Proof.
  assert (Hstep : forall added : list (string * value),
             added = []
             \/ (exists c, added = [("assistant", c)])
             \/ (exists c d, added = [("assistant", c); ("developer", d)]) ->
             List.Forall (fun m => Agent.role m = "assistant"
                                   \/ Agent.role m = "developer") added
             /\ length (Agent.of_role "developer" added)
                <= length (Agent.of_role "assistant" added)).
  { intros added [-> | [[c ->] | (c & d & ->)]]; cbn.
    - split; [constructor | lia].
    - split; [| lia]. constructor; [now left | constructor].
    - split; [| lia].
      constructor; [now left |]. constructor; [now right | constructor]. }
  revert messages w.
  induction fuel as [| fuel IH]; intros messages w; cbn [Agent.loop];
    [discriminate |].
  destruct (agent_round_messages messages w) as (a1 & Hm & Ha).
  destruct (Hstep a1 Ha) as [Hf1 Hc1].
  destruct (Agent.one_round messages w) as [r1 m1 w1 | m1 w1]; subst m1.
  - intros [= _ <- _]. exists a1. auto.
  - intros Hloop. destruct (IH _ _ Hloop) as (a2 & -> & Hf2 & Hc2).
    exists (a1 ++ a2). split; [now rewrite app_assoc |]. split.
    + apply List.Forall_app. auto.
    + unfold Agent.of_role in *. rewrite !List.filter_app, !length_app. lia.
Qed.

End AgentProperties.

Lemma agent_tool_action_witness :
  let host := Agent.constant_host "remove"
                (VObj [("type", VStr "action");
                       ("function", VStr "removeDataFromTable")]) in
  @Agent.loop empty_pool quiet_engine host 1
    (@Agent.opening host (VStr "remove widget 7")) (fresh empty_pool tt)
  = Some (Agent.ServerError "TypeError",
          @Agent.opening host (VStr "remove widget 7")
          ++ [("assistant", VStr "remove")],
          fresh empty_pool tt).
Proof.
  intros host.
  refine (proj1 (@agent_tool_action empty_pool quiet_engine host 0
                   (@Agent.opening host (VStr "remove widget 7"))
                   (fresh empty_pool tt) (VStr "remove")
                   (VObj [("type", VStr "action");
                          ("function", VStr "removeDataFromTable")])
                   "removeDataFromTable" VUndefined removeDataFromTable
                   eq_refl eq_refl eq_refl eq_refl) _).
  now left.
Defined.

Lemma agent_statements_need_a_tool_witness :
  let host := Agent.constant_host "done"
                (VObj [("type", VStr "output"); ("output", VStr "done")]) in
  @Agent.chat empty_pool quiet_engine host 1
    (VObj [("userInput", VStr "hello")]) (fresh empty_pool tt)
  = Some (Agent.Output (Some "{}"),
          @Agent.opening host (VStr "hello") ++ [("assistant", VStr "done")],
          fresh empty_pool tt)
  /\ fresh empty_pool tt = fresh empty_pool tt.
Proof.
  intros host. split; [reflexivity |].
  refine (@agent_statements_need_a_tool empty_pool quiet_engine host 1
            (VObj [("userInput", VStr "hello")])
            (fresh empty_pool tt) (fresh empty_pool tt)
            (Agent.Output (Some "{}"))
            (@Agent.opening host (VStr "hello")
             ++ [("assistant", VStr "done")])
            _ eq_refl).
  intros messages content result [= _ <-] (key & input & fn & H & _).
  discriminate H.
Defined.

Lemma agent_messages_grow_witness :
  let host := Agent.constant_host "done"
                (VObj [("type", VStr "output"); ("output", VStr "done")]) in
  exists added,
    @Agent.opening host (VStr "hello") ++ [("assistant", VStr "done")]
    = @Agent.opening host (VStr "hello") ++ added
    /\ List.Forall (fun m => Agent.role m = "assistant"
                             \/ Agent.role m = "developer") added
    /\ length (Agent.of_role "developer" added)
       <= length (Agent.of_role "assistant" added).
Proof.
  intros host.
  exact (@agent_messages_grow empty_pool quiet_engine host 1
           (@Agent.opening host (VStr "hello"))
           (@Agent.opening host (VStr "hello")
            ++ [("assistant", VStr "done")])
           (fresh empty_pool tt) (fresh empty_pool tt)
           (Agent.Output (Some "{}")) eq_refl).
Defined.
